(** * Lesion-level evaluation: a model of [custom_scripts/F_evaluate_quantitative.py]

    The development follows the script function by function.  NumPy arrays
    are flat row-major buffers with a three-dimensional shape, Python
    exceptions are an error monad, Python sets are [gset]s, dictionaries are
    insertion-ordered association lists and the [pandas] tables are lists of
    records.

    Modelling conventions.
    - Volumes are three-dimensional, as the 3x3x3 structuring element of the
      script requires.  Their voxel values are integers ([Z]); the script
      only ever compares them with the lesion class.
    - Instance identifiers and counts are natural numbers: the [int32]
      entries of the instance maps are not bounded in the model.
    - The detection score is an exact rational ([Q]), the quotient that
      Python's division of two integers rounds; the [np.NAN] sentinel is a
      separate constructor.
    - [scipy.ndimage.label] and [DataFrame.merge] are library functions; they
      are modelled from their documented behaviour, at the arguments the
      script passes.
    - A boolean index is checked as NumPy checks it: axis by axis, leaving
      out the axes along which the index has length zero. *)

From Stdlib Require Import QArith Ascii.
From stdpp Require Import base list gmap sets strings sorting.

Close Scope Q_scope.
Open Scope nat_scope.

(** ** Python exceptions *)

Inductive exn : Type :=
  | ValueError          (* operands could not be broadcast together *)
  | IndexError          (* boolean index did not match indexed array *)
  | KeyError (key : string)
  | AssertionError
  | ZeroDivisionError.

Inductive result (A : Type) : Type :=
  | Ok (a : A)
  | Raise (e : exn).
Arguments Ok {A} a.
Arguments Raise {A} e.

(** Sequencing: an exception raised by a statement skips the rest. *)
#[global] Instance result_ret : MRet result := λ A a, Ok a.
#[global] Instance result_bind : MBind result := λ A B k m,
  match m with
  | Ok a => k a
  | Raise e => Raise e
  end.

Definition is_ok {A : Type} (r : result A) : bool :=
  match r with Ok _ => true | Raise _ => false end.

(** [for x in xs: acc = body(acc, x)] where the body may raise. *)
Fixpoint for_each {A S : Type} (body : S → A → result S) (xs : list A) (acc : S)
  : result S :=
  match xs with
  | [] => Ok acc
  | x :: xs' => acc' ← body acc x; for_each body xs' acc'
  end.

(** ** NumPy arrays *)

Definition shape3 : Type := nat * nat * nat.

Record ndarray (A : Type) : Type := NdArray {
  shape : shape3;
  data : list A
}.
Arguments NdArray {A} shape data.
Arguments shape {A} _.
Arguments data {A} _.

Definition size_of (s : shape3) : nat :=
  let '(d0, d1, d2) := s in d0 * d1 * d2.

(** An array is well formed when its buffer has one entry per position. *)
Definition wf_array {A : Type} (a : ndarray A) : Prop :=
  length (data a) = size_of (shape a).

(** Elementwise operations with a scalar: [a == c], [a > 0], [.astype(int)]. *)
Definition np_map {A B : Type} (f : A → B) (a : ndarray A) : ndarray B :=
  NdArray (shape a) (f <$> data a).

Definition np_eq_scalar (a : ndarray Z) (c : Z) : ndarray bool :=
  np_map (λ v, bool_decide (v = c)) a.

Definition np_eq_id (a : ndarray nat) (c : nat) : ndarray bool :=
  np_map (λ v, bool_decide (v = c)) a.

Definition np_gt0 (a : ndarray nat) : ndarray bool :=
  np_map (λ v, bool_decide (0 < v)) a.

Definition np_eq0 (a : ndarray nat) : ndarray bool :=
  np_map (λ v, bool_decide (v = 0)) a.

Definition astype_int (a : ndarray bool) : ndarray nat :=
  np_map (λ b : bool, if b then 1 else 0) a.

Definition np_copy {A : Type} (a : ndarray A) : ndarray A :=
  NdArray (shape a) (data a).

(** The flat offset of a coordinate in row-major order, the coordinate of a
    flat offset, and the coordinates of a shape in row-major order. *)
Definition ravel (s : shape3) (c : nat * nat * nat) : nat :=
  let '(_, d1, d2) := s in
  let '(i, j, k) := c in (i * d1 + j) * d2 + k.

Definition unravel (s : shape3) (p : nat) : nat * nat * nat :=
  let '(_, d1, d2) := s in
  (p / (d1 * d2), (p / d2) mod d1, p mod d2).

Definition positions (s : shape3) : list (nat * nat * nat) :=
  unravel s <$> seq 0 (size_of s).

(** Broadcasting of two shapes, axis by axis. *)
Definition broadcast_dim (a b : nat) : option nat :=
  if decide (a = b) then Some a
  else if decide (a = 1) then Some b
  else if decide (b = 1) then Some a
  else None.

Definition broadcast_shapes (s t : shape3) : option shape3 :=
  let '(s0, s1, s2) := s in
  let '(t0, t1, t2) := t in
  d0 ← broadcast_dim s0 t0;
  d1 ← broadcast_dim s1 t1;
  d2 ← broadcast_dim s2 t2;
  Some (d0, d1, d2).

(** An axis of length one is repeated along the target axis. *)
Definition stretch (d i : nat) : nat := if decide (d = 1) then 0 else i.

Definition broadcast_to (a : ndarray bool) (s : shape3) : ndarray bool :=
  let '(a0, a1, a2) := shape a in
  NdArray s
    ((λ '(i, j, k),
       default false (data a !! ravel (shape a) (stretch a0 i, stretch a1 j, stretch a2 k)))
     <$> positions s).

(** [a & b] on boolean arrays. *)
Definition np_and (a b : ndarray bool) : result (ndarray bool) :=
  match broadcast_shapes (shape a) (shape b) with
  | None => Raise ValueError
  | Some s =>
      Ok (NdArray s (zip_with andb (data (broadcast_to a s)) (data (broadcast_to b s))))
  end.

(** Entries of a buffer selected by a boolean buffer, in row-major order. *)
Fixpoint select {A : Type} (xs : list A) (m : list bool) : list A :=
  match xs, m with
  | x :: xs', b :: m' => if b then x :: select xs' m' else select xs' m'
  | _, _ => []
  end.

(** NumPy compares a boolean index with the indexed array axis by axis,
    and it skips the axes along which the index has length zero. *)
Definition index_fits (m a : shape3) : Prop :=
  (m.1.1 = 0 ∨ m.1.1 = a.1.1) ∧ (m.1.2 = 0 ∨ m.1.2 = a.1.2) ∧ (m.2 = 0 ∨ m.2 = a.2).

#[global] Instance index_fits_dec (m a : shape3) : Decision (index_fits m a).
Proof. unfold index_fits. apply _. Defined.

(** [a[mask]]: a mask of the shape of the array selects the entries in
    row-major order.  A mask of another shape that passes the check has an
    axis of length zero: it holds no entry and selects nothing.  Any other
    mask is an [IndexError]. *)
Definition getitem_mask {A : Type} (a : ndarray A) (m : ndarray bool)
  : result (list A) :=
  if decide (shape m = shape a) then Ok (select (data a) (data m))
  else if decide (index_fits (shape m) (shape a)) then Ok []
  else Raise IndexError.

(** [a[mask] = v], as a functional update of the buffer; the mask is checked
    as for [a[mask]], and a mask without entries writes nothing. *)
Definition setitem_mask {A : Type} (a : ndarray A) (m : ndarray bool) (v : A)
  : result (ndarray A) :=
  if decide (shape m = shape a)
  then Ok (NdArray (shape a) (zip_with (λ x (b : bool), if b then v else x) (data a) (data m)))
  else if decide (index_fits (shape m) (shape a)) then Ok a
  else Raise IndexError.

(** [np.unique]: the sorted distinct entries. *)
Definition np_unique (xs : list nat) : list nat :=
  merge_sort Nat.le (remove_dups xs).

(** [set(np.unique(xs))] *)
Definition py_set (xs : list nat) : gset nat := list_to_set xs.

Definition np_ones (s : shape3) : ndarray nat :=
  NdArray s (replicate (size_of s) 1).

(** ** [scipy.ndimage.label]

    The labeller belongs to SciPy, not to the script.  It is modelled by its
    documented behaviour: the non-zero entries of the input are grouped into
    components, two entries being neighbours when the structuring element
    is non-zero at their offset; components are numbered from 1 in
    row-major order of their first entry, and the number of components is
    returned with the instance map.  The model is a raster scan that flood
    fills each component it meets. *)

Section Labelling.
Context (fg : nat → bool) (nbrs : nat → list nat).

(** One round of growth adds the foreground neighbours of a region. *)
Definition grow (region : gset nat) : gset nat :=
  region ∪ list_to_set (filter (λ q, fg q) (elements region ≫= nbrs)).

Fixpoint flood (rounds : nat) (region : gset nat) : gset nat :=
  match rounds with
  | 0 => region
  | S r => flood r (grow region)
  end.

(** Writes [id] on every entry of the region. *)
Definition paint (region : gset nat) (id : nat) (lab : list nat) : list nat :=
  imap (λ p v, if decide (p ∈ region) then id else v) lab.

Definition scan_step (N : nat) (st : list nat * nat) (p : nat) : list nat * nat :=
  let '(lab, n) := st in
  if fg p && bool_decide (lab !! p = Some 0)
  then (paint (flood N {[p]}) (S n) lab, S n)
  else st.

Definition label_graph (N : nat) : list nat * nat :=
  foldl (scan_step N) (replicate N 0, 0) (seq 0 N).

(** The graph the labeller walks: an edge joins two foreground entries
    that are neighbours; components are the classes of [linked]. *)
Definition edge (p q : nat) : Prop := fg p ∧ fg q ∧ q ∈ nbrs p.
Definition linked : relation nat := rtc edge.

(** A region that one more round of growth does not enlarge. *)
Definition closed (R : gset nat) : Prop := grow R ⊆ R.

(** What the raster scan has established when it reaches entry [i]:
    identifiers are at most the counter, only foreground entries carry
    one, every identifier up to the counter is in use, a labelled entry
    shares its identifier exactly with its component, and every
    foreground entry before [i] is labelled. *)
Record scan_inv (N i : nat) (st : list nat * nat) : Prop := ScanInv {
  inv_length : length st.1 = N;
  inv_range : ∀ p v, st.1 !! p = Some v → v ≤ st.2;
  inv_fg : ∀ p v, st.1 !! p = Some v → v ≠ 0 → fg p;
  inv_onto : ∀ k, 1 ≤ k ≤ st.2 → ∃ p, st.1 !! p = Some k;
  inv_class : ∀ p q v, st.1 !! p = Some v → v ≠ 0 →
                       (linked p q ↔ st.1 !! q = Some v);
  inv_done : ∀ p, p < i → fg p → ∃ v, st.1 !! p = Some v ∧ v ≠ 0
}.
End Labelling.

(** The entry of the structuring element for the offset [(a-1, b-1, c-1)]. *)
Definition structure_at (structure : ndarray nat) (o : nat * nat * nat) : bool :=
  match data structure !! ravel (shape structure) o with
  | Some v => bool_decide (v ≠ 0)
  | None => false
  end.

(** Moves a coordinate by [a - 1] along an axis of length [d]. *)
Definition shift_coord (d i a : nat) : option nat :=
  if decide (1 ≤ i + a ∧ i + a ≤ d) then Some (i + a - 1) else None.

Definition neighbours (s : shape3) (structure : ndarray nat) (p : nat) : list nat :=
  let '(d0, d1, d2) := s in
  let '(i, j, k) := unravel s p in
  omap (λ '(a, b, c),
          if structure_at structure (a, b, c) then
            i' ← shift_coord d0 i a;
            j' ← shift_coord d1 j b;
            k' ← shift_coord d2 k c;
            Some (ravel s (i', j', k'))
          else None)
       (positions (3, 3, 3)).

Definition foreground (input : ndarray nat) (p : nat) : bool :=
  match data input !! p with
  | Some v => bool_decide (v ≠ 0)
  | None => false
  end.

Definition label (input structure : ndarray nat) : ndarray nat * nat :=
  let '(lab, n) :=
    label_graph (foreground input) (neighbours (shape input) structure)
                (length (data input)) in
  (NdArray (shape input) lab, n).

(** ** [compute_lesion_level_metrics] *)

(** Lines 116-125: instance extraction on both sides and the relabelling
    that makes the identifiers of the two sides disjoint. *)
Record instances : Type := Instances {
  gt_lesions : ndarray nat;
  n_gt_lesions : nat;
  predicted_lesions : ndarray nat;
  n_predicted_lesions : nat;
  new_predicted_lesions : ndarray nat
}.

Definition relabel (predicted_lesions : ndarray nat) (n_predicted_lesions n_gt_lesions : nat)
  : result (ndarray nat) :=
  for_each
    (λ new pred_lesion_id,
       let new_pred_lesion_id := pred_lesion_id + n_gt_lesions in
       setitem_mask new (np_eq_id predicted_lesions pred_lesion_id) new_pred_lesion_id)
    (seq 1 n_predicted_lesions)
    (np_copy predicted_lesions).

Definition lesion_instances (labels preds : ndarray Z) (lesion_class : Z)
  : result instances :=
  let '(gt_lesions, n_gt_lesions) :=
    label (astype_int (np_eq_scalar labels lesion_class)) (np_ones (3, 3, 3)) in
  let '(predicted_lesions, n_predicted_lesions) :=
    label (astype_int (np_eq_scalar preds lesion_class)) (np_ones (3, 3, 3)) in
  new_predicted_lesions ← relabel predicted_lesions n_predicted_lesions n_gt_lesions;
  Ok (Instances gt_lesions n_gt_lesions predicted_lesions n_predicted_lesions
                new_predicted_lesions).

(** Lines 128-131: the four identifier sets. *)
Record matching : Type := Matching {
  tp_gt : gset nat;
  tp_pred : gset nat;
  fp_ids : gset nat;
  fn_ids : gset nat
}.

Definition overlap_matching (gt_lesions predicted_lesions new_predicted_lesions : ndarray nat)
  : result matching :=
  m1 ← np_and (np_gt0 gt_lesions) (np_gt0 predicted_lesions);
  x1 ← getitem_mask gt_lesions m1;
  let tp_gt := py_set (np_unique x1) in
  m2 ← np_and (np_gt0 gt_lesions) (np_gt0 new_predicted_lesions);
  x2 ← getitem_mask new_predicted_lesions m2;
  let tp_pred := py_set (np_unique x2) in
  m3 ← np_and (np_eq0 gt_lesions) (np_gt0 new_predicted_lesions);
  x3 ← getitem_mask new_predicted_lesions m3;
  let fp := py_set (np_unique x3) ∖ tp_pred in
  m4 ← np_and (np_gt0 gt_lesions) (np_eq0 new_predicted_lesions);
  x4 ← getitem_mask gt_lesions m4;
  let fn := py_set (np_unique x4) ∖ tp_gt in
  Ok (Matching tp_gt tp_pred fp fn).

(** Lines 133-140: the counts, guarded by the two assertions. *)
Definition checked_counts (n_gt_lesions n_predicted_lesions : nat) (m : matching)
  : result (nat * nat * nat * nat * nat) :=
  let tp := size (tp_gt m) in
  let fp := size (fp_ids m) in
  let fn := size (fn_ids m) in
  if decide (size (tp_pred m) + fp = n_predicted_lesions) then
    if decide (size (tp_gt m) + fn = n_gt_lesions) then
      Ok (n_gt_lesions, n_predicted_lesions, tp, fp, fn)
    else Raise AssertionError
  else Raise AssertionError.

Definition compute_lesion_level_metrics (labels preds : ndarray Z) (lesion_class : Z)
  : result (nat * nat * nat * nat * nat) :=
  inst ← lesion_instances labels preds lesion_class;
  m ← overlap_matching (gt_lesions inst) (predicted_lesions inst)
                       (new_predicted_lesions inst);
  checked_counts (n_gt_lesions inst) (n_predicted_lesions inst) m.

(** ** [compute_all_lesion_level_metrics] *)

(** A Python float: a finite value or the [np.NAN] sentinel. *)
Inductive pyfloat : Type :=
  | Float (q : Q)
  | NaN.

(** [a / b] on Python integers. *)
Definition truediv (a b : nat) : result Q :=
  if decide (b = 0) then Raise ZeroDivisionError
  else Ok (inject_Z (Z.of_nat a) / inject_Z (Z.of_nat b))%Q.

(** Lines 167-170: [try: f1 = 2*tp / (2*tp + fp + fn)] with the division
    by zero caught and replaced by the sentinel. *)
Definition f1_score (tp fp fn : nat) : result pyfloat :=
  match truediv (2 * tp) (2 * tp + fp + fn) with
  | Ok q => Ok (Float q)
  | Raise ZeroDivisionError => Ok NaN
  | Raise e => Raise e
  end.

(** Python dictionaries keep insertion order. *)
Definition dict (V : Type) : Type := list (string * V).

Fixpoint dict_get {V : Type} (d : dict V) (k : string) : result V :=
  match d with
  | [] => Raise (KeyError k)
  | (k', v) :: d' => if decide (k' = k) then Ok v else dict_get d' k
  end.

Fixpoint dict_set {V : Type} (d : dict V) (k : string) (v : V) : dict V :=
  match d with
  | [] => [(k, v)]
  | (k', v') :: d' =>
      if decide (k' = k) then (k, v) :: d' else (k', v') :: dict_set d' k v
  end.

Definition dict_values {V : Type} (d : dict V) : list V := d.*2.

(** Cells and records of a table. *)
Inductive cell : Type :=
  | CStr (s : string)
  | CInt (n : nat)
  | CFloat (x : pyfloat).

Definition record : Type := dict cell.

Record DataFrame : Type := MkDataFrame {
  columns : list string;
  rows : list record
}.

(** The distinct entries of a list, in the order of their first
    appearance. *)
Definition first_appearance (xs : list string) : list string :=
  reverse (remove_dups (reverse xs)).

(** [pd.DataFrame.from_records(data=records)]: the columns are the keys of
    the records in the order of their first appearance.  A row is kept as
    the record it comes from: a key that a record lacks is absent from the
    row, where pandas stores a missing value. *)
Definition from_records (records : list record) : DataFrame :=
  MkDataFrame (first_appearance (records ≫= fmap fst)) records.

Definition lesion_record (case lesion_str : string) (n_gt n_pred tp fp fn : nat)
    (f1 : pyfloat) : record :=
  [ ("case_id", CStr case);
    ("n_ref_" +:+ lesion_str +:+ "_lesions", CInt n_gt);
    ("n_pred_" +:+ lesion_str +:+ "_lesions", CInt n_pred);
    (lesion_str +:+ "_lesion_tp", CInt tp);
    (lesion_str +:+ "_lesion_fp", CInt fp);
    (lesion_str +:+ "_lesion_fn", CInt fn);
    (lesion_str +:+ "_lesion_F1", CFloat f1) ].

(** The body of the loop over the cases (lines 162-180). *)
Definition case_record (labels_dict preds_dict : dict (ndarray Z)) (lesion_class : Z)
    (case : string) : result record :=
  let lesion_str := if decide (lesion_class = 2%Z) then "new" else "basal" in
  labels ← dict_get labels_dict case;
  preds ← dict_get preds_dict case;
  '(n_gt, n_pred, tp, fp, fn) ← compute_lesion_level_metrics labels preds lesion_class;
  f1 ← f1_score tp fp fn;
  Ok (lesion_record case lesion_str n_gt n_pred tp fp fn f1).

Definition lesion_level_records (ids : list string)
    (labels_dict preds_dict : dict (ndarray Z)) (lesion_class : Z)
  : result (list record) :=
  for_each
    (λ lesion_level_metrics case,
       r ← case_record labels_dict preds_dict lesion_class case;
       Ok (lesion_level_metrics ++ [r]))
    ids [].

Definition compute_all_lesion_level_metrics (ids : list string)
    (labels_dict preds_dict : dict (ndarray Z)) (lesion_class : Z)
  : result DataFrame :=
  lesion_level_metrics ← lesion_level_records ids labels_dict preds_dict lesion_class;
  Ok (from_records lesion_level_metrics).

(** ** [DataFrame.merge(other, on=key)]

    The script calls [merge] with its defaults, so the join is pandas' inner
    join: the rows are the pairs of a left and a right row with equal keys,
    in the order of the left table.  A key column missing from either table
    is a [KeyError].  The non-key columns of the tables of the script are
    disjoint, so no column is renamed.

    Two limits of the model.  The order of the rows is that of pandas for a
    left table without repeated keys; releases of pandas before 2.2 put the
    rows of a repeated left key next to each other, so what is stated below
    about the order of the merged rows assumes distinct left keys.  The key
    columns of the script hold strings on both sides; pandas refuses to
    merge a column of strings with a column of numbers, which the model
    does not check. *)

#[global] Instance Q_eq_dec : EqDecision Q.
Proof. solve_decision. Defined.
#[global] Instance pyfloat_eq_dec : EqDecision pyfloat.
Proof. solve_decision. Defined.
#[global] Instance cell_eq_dec : EqDecision cell.
Proof. solve_decision. Defined.

Definition key_of (on : string) (r : record) : option cell :=
  match dict_get r on with
  | Ok c => Some c
  | Raise _ => None
  end.

Definition without (on : string) (r : record) : record :=
  filter (B:=list (string * cell)) (λ kv, kv.1 ≠ on) r.

Definition join_rows (on : string) (l : record) (right : list record) : list record :=
  r ← right;
  if decide (key_of on l = key_of on r) then [l ++ without on r] else [].

Definition merge (left right : DataFrame) (on : string) : result DataFrame :=
  if decide (on ∈ columns left ∧ on ∈ columns right) then
    Ok (MkDataFrame
          (columns left ++ filter (λ c, c ≠ on) (columns right))
          (l ← rows left; join_rows on l (rows right)))
  else Raise (KeyError on).

Definition case_ids (df : DataFrame) : list (option cell) :=
  key_of "case_id" <$> rows df.

(** ** The cohort script *)

Inductive Dataset : Type := test_split | msseg2.

Section Cohort.
(** The volume provider ([read_labels_and_preds], lines 33-54) reads two
    files; it is a parameter of the model. *)
Context (read_labels_and_preds : string → Dataset → result (ndarray Z * ndarray Z)).

(** Lines 85-101. *)
Definition get_all_preds_and_labels (ids : list string) (dataset : Dataset)
  : result (dict (ndarray Z) * dict (ndarray Z)) :=
  for_each
    (λ '(labels, preds) case,
       '(sample_labels, sample_predictions) ← read_labels_and_preds case dataset;
       Ok (dict_set labels case sample_labels,
           dict_set preds case sample_predictions))
    ids ([], []).

(** Lines 229-238: the table of the test split. *)
Definition test_cohort_table (test_results_df : DataFrame) (test_ids : list string)
  : result DataFrame :=
  '(all_labels, all_preds) ← get_all_preds_and_labels test_ids test_split;
  b_test_lesion_wise_res ←
    compute_all_lesion_level_metrics test_ids all_labels all_preds 1;
  n_test_lesion_wise_res ←
    compute_all_lesion_level_metrics test_ids all_labels all_preds 2;
  test_results_df ← merge test_results_df n_test_lesion_wise_res "case_id";
  merge test_results_df b_test_lesion_wise_res "case_id".

(** Lines 273-274: the flattened volumes of every case, concatenated. *)
Definition flattened (d : dict (ndarray Z)) : list Z :=
  mjoin (data <$> dict_values d).

(** Lines 254-258 and 273-274: the table of the second cohort and the
    inputs of the confusion matrix, built from the dictionaries that are
    still held.  Lines 259-270 print selections of the merged table; they
    change neither the table nor the dictionaries and are not modelled, but
    they raise on a table that lacks the columns they read.  A result of
    this function is therefore what the script has computed if it reaches
    line 274, not a proof that it reaches it. *)
Definition msseg2_cohort (MSSEG2_results_df : DataFrame) (test_ids : list string)
  : result (DataFrame * (list Z * list Z)) :=
  '(all_labels, all_preds) ← get_all_preds_and_labels test_ids msseg2;
  lesion_wise_res ←
    compute_all_lesion_level_metrics test_ids all_labels all_preds 2;
  MSSEG2_results_df ← merge MSSEG2_results_df lesion_wise_res "case_id";
  Ok (MSSEG2_results_df, (flattened all_labels, flattened all_preds)).
End Cohort.

(** ** The per-case function over a store of arrays

    NumPy arrays are mutable objects and Python passes references to them.
    To speak about what a call leaves behind in its arguments, the function
    is modelled a second time over a store: every array the function names
    lives at a reference, [label] and [np.copy] allocate, and the masked
    assignment writes in place.  Temporaries of expressions (the boolean
    masks) are values.  A computation is stuck ([None]) only on a reference
    that does not hold an array of the expected kind. *)

Module Store.
Inductive obj : Type :=
  | Volume (a : ndarray Z)
  | InstanceMap (a : ndarray nat).

Abbreviation store := (list obj).
Abbreviation ref := nat.

Definition st (A : Type) : Type := store → option (result A * store).

Definition ret {A : Type} (a : A) : st A := λ h, Some (Ok a, h).

Definition bind {A B : Type} (m : st A) (k : A → st B) : st B := λ h,
  match m h with
  | None => None
  | Some (Ok a, h') => k a h'
  | Some (Raise e, h') => Some (Raise e, h')
  end.

Definition lift {A : Type} (r : result A) : st A := λ h, Some (r, h).

Definition alloc (o : obj) : st ref := λ h, Some (Ok (length h), h ++ [o]).

Definition load_volume (r : ref) : st (ndarray Z) := λ h,
  match h !! r with
  | Some (Volume a) => Some (Ok a, h)
  | _ => None
  end.

Definition load_map (r : ref) : st (ndarray nat) := λ h,
  match h !! r with
  | Some (InstanceMap a) => Some (Ok a, h)
  | _ => None
  end.

Definition store_map (r : ref) (a : ndarray nat) : st unit := λ h,
  match h !! r with
  | Some (InstanceMap _) => Some (Ok (), <[r := InstanceMap a]> h)
  | _ => None
  end.

Fixpoint for_each {A : Type} (body : A → st unit) (xs : list A) : st unit :=
  match xs with
  | [] => ret ()
  | x :: xs' => bind (body x) (λ _, for_each body xs')
  end.

(** [label(input, structure)] returns a new array. *)
Definition label (input structure : ndarray nat) : st (ref * nat) :=
  let '(lab, n) := label input structure in
  bind (alloc (InstanceMap lab)) (λ r, ret (r, n)).

(** [np.copy(a)] returns a new array. *)
Definition np_copy (r : ref) : st ref :=
  bind (load_map r) (λ a, alloc (InstanceMap (np_copy a))).

(** [target[source == id] = v] writes into [target]. *)
Definition setitem_where (target source : ref) (id v : nat) : st unit :=
  bind (load_map source) (λ s,
  bind (load_map target) (λ t,
  bind (lift (setitem_mask t (np_eq_id s id) v)) (λ t',
  store_map target t'))).

Definition compute_lesion_level_metrics (labels preds : ref) (lesion_class : Z)
  : st (nat * nat * nat * nat * nat) :=
  bind (load_volume labels) (λ L,
  bind (label (astype_int (np_eq_scalar L lesion_class)) (np_ones (3, 3, 3)))
    (λ '(gt_lesions, n_gt_lesions),
  bind (load_volume preds) (λ P,
  bind (label (astype_int (np_eq_scalar P lesion_class)) (np_ones (3, 3, 3)))
    (λ '(predicted_lesions, n_predicted_lesions),
  bind (np_copy predicted_lesions) (λ new_predicted_lesions,
  bind (for_each
          (λ pred_lesion_id,
             let new_pred_lesion_id := pred_lesion_id + n_gt_lesions in
             setitem_where new_predicted_lesions predicted_lesions
                           pred_lesion_id new_pred_lesion_id)
          (seq 1 n_predicted_lesions)) (λ _,
  bind (load_map gt_lesions) (λ G,
  bind (load_map predicted_lesions) (λ Pd,
  bind (load_map new_predicted_lesions) (λ Nw,
  bind (lift (overlap_matching G Pd Nw)) (λ m,
  lift (checked_counts n_gt_lesions n_predicted_lesions m))))))))))).
End Store.

(** ** Connectivity of voxels *)

(** Two voxels are 26-neighbours when they differ and their coordinates
    differ by at most one along every axis (they share a face, an edge or a
    corner). *)
Definition near (a b : nat) : Prop := a ≤ b + 1 ∧ b ≤ a + 1.

Definition adjacent26 (c c' : nat * nat * nat) : Prop :=
  c ≠ c' ∧ near c.1.1 c'.1.1 ∧ near c.1.2 c'.1.2 ∧ near c.2 c'.2.

Definition in_bounds (s : shape3) (c : nat * nat * nat) : Prop :=
  c.1.1 < s.1.1 ∧ c.1.2 < s.1.2 ∧ c.2 < s.2.

(** The value of an array at a coordinate. *)
Definition at_coord {A : Type} (a : ndarray A) (c : nat * nat * nat) : option A :=
  if decide (in_bounds (shape a) c) then data a !! ravel (shape a) c else None.

(** Foreground voxels of a mask. *)
Definition is_fg (mask : ndarray nat) (c : nat * nat * nat) : Prop :=
  ∃ v, at_coord mask c = Some v ∧ v ≠ 0.

(** One step between neighbouring foreground voxels, and the components:
    voxels joined by a chain of such steps. *)
Definition step26 (mask : ndarray nat) (c c' : nat * nat * nat) : Prop :=
  is_fg mask c ∧ is_fg mask c' ∧ adjacent26 c c'.

Definition connected26 (mask : ndarray nat) : relation (nat * nat * nat) :=
  rtc (step26 mask).

(** [n] is the number of components of the mask: there are [n] foreground
    voxels, no two of them connected, such that every foreground voxel is
    connected to one of them. *)
Definition component_count (mask : ndarray nat) (n : nat) : Prop :=
  ∃ reps : list (nat * nat * nat),
    length reps = n ∧
    (∀ r, r ∈ reps → is_fg mask r) ∧
    (∀ i j r r', reps !! i = Some r → reps !! j = Some r' →
                 connected26 mask r r' → i = j) ∧
    (∀ c, is_fg mask c → ∃ r, r ∈ reps ∧ connected26 mask r c).

(** ** Shapes that differ

    The number of instances of a class in a volume, and the pairs of shapes
    whose difference the check of the boolean indices does not see: on
    every axis the two lengths are equal, or one is 1 and the other 0. *)
Definition instance_count (volume : ndarray Z) (lesion_class : Z) : nat :=
  (label (astype_int (np_eq_scalar volume lesion_class)) (np_ones (3, 3, 3))).2.

Definition unchecked_axis (a b : nat) : Prop :=
  a = b ∨ (a = 0 ∧ b = 1) ∨ (a = 1 ∧ b = 0).

Definition unchecked (s t : shape3) : Prop :=
  unchecked_axis s.1.1 t.1.1 ∧ unchecked_axis s.1.2 t.1.2 ∧ unchecked_axis s.2 t.2.

#[global] Instance unchecked_dec (s t : shape3) : Decision (unchecked s t).
Proof. unfold unchecked, unchecked_axis. apply _. Defined.

(** ** Python strings and dictionaries of the table builders *)

(** [s.split(sep)] for a separator of one character. *)
Fixpoint split_on (sep : Ascii.ascii) (s : string) : list string :=
  match s with
  | EmptyString => [EmptyString]
  | String c s' =>
      if decide (c = sep) then EmptyString :: split_on sep s'
      else match split_on sep s' with
           | piece :: pieces => String c piece :: pieces
           | [] => [String c EmptyString]
           end
  end.

(** Whether a character occurs in a string. *)
Fixpoint occurs (c : Ascii.ascii) (s : string) : bool :=
  match s with
  | EmptyString => false
  | String c' s' => bool_decide (c' = c) || occurs c s'
  end.

(** [xs[0]] and [xs[-1]]: an empty list has no such entry. *)
Definition getitem_first {A : Type} (xs : list A) : result A :=
  match head xs with
  | Some x => Ok x
  | None => Raise IndexError
  end.

Definition getitem_last {A : Type} (xs : list A) : result A :=
  match last xs with
  | Some x => Ok x
  | None => Raise IndexError
  end.

(** [s[:-n]]: the string without its last [n] characters, empty when the
    string is not longer than [n]. *)
Definition drop_last (n : nat) (s : string) : string :=
  String.substring 0 (String.length s - n) s.

(** [a | b]: the entries of [a] updated with those of [b]. *)
Definition dict_union {V : Type} (a b : dict V) : dict V :=
  foldl (λ acc kv, dict_set acc kv.1 kv.2) a b.

(** [{f(key): value for key, value in d.items()}] *)
Definition dict_comprehension {V : Type} (f : string → string) (d : dict V) : dict V :=
  foldl (λ acc kv, dict_set acc (f kv.1) kv.2) [] d.

(** [sorted({...})]: the distinct entries in the order of Python strings. *)
Definition py_sorted_set (xs : list string) : list string :=
  merge_sort (λ a b, String.leb a b) (remove_dups xs).

(** ** [format_results_into_df] *)

(** One entry of [all_results['metric_per_case']]: the path of the
    prediction and, per integer class label, the metrics of that class. *)
Record case_metrics : Type := CaseMetrics {
  prediction_file : string;
  metrics : gmap Z (dict cell)
}.

(** The identifier of a case: the file name of the prediction without its
    directories and without its last seven characters (lines 68). *)
Definition case_id_of (prediction_file : string) : result string :=
  name ← getitem_last (split_on "/"%char prediction_file);
  Ok (drop_last 7 name).

(** Lines 70-78: the metrics of one class under prefixed names, or an empty
    dictionary when the class is absent. *)
Definition prefixed_metrics (prefix : string) (label : Z) (m : gmap Z (dict cell))
  : dict cell :=
  match m !! label with
  | Some class_metrics => dict_comprehension (λ key, prefix +:+ key) class_metrics
  | None => []
  end.

(** The body of the loop (lines 68-80). *)
Definition format_case (cm : case_metrics) : result record :=
  case_id ← case_id_of (prediction_file cm);
  let basal_metrics := prefixed_metrics "b_" 1 (metrics cm) in
  let new_lesions_metrics := prefixed_metrics "new_" 2 (metrics cm) in
  Ok (dict_union (dict_union [("case_id", CStr case_id)] basal_metrics)
                 new_lesions_metrics).

Definition format_results_into_df (metric_per_case : list case_metrics)
  : result DataFrame :=
  results ←
    for_each (λ results cm, r ← format_case cm; Ok (results ++ [r]))
             metric_per_case [];
  Ok (from_records results).

(** ** The case identifiers of the script *)

(** Line 228: the identifiers of the test split, from the names of the
    image files. *)
Definition test_split_id (file_name : string) : result string :=
  stem ← getitem_first (split_on "."%char file_name);
  Ok (drop_last 5 stem).

Definition test_split_ids (test_images : list string) : result (list string) :=
  ids ← for_each (λ ids file_name, i ← test_split_id file_name; Ok (ids ++ [i]))
                 test_images [];
  Ok (py_sorted_set ids).

(** Line 253: the identifiers of the second cohort, from the names of the
    label files. *)
Definition msseg2_ids (test_images : list string) : list string :=
  py_sorted_set (drop_last 7 <$> test_images).

Section Script.
Context (read_labels_and_preds : string → Dataset → result (ndarray Z * ndarray Z)).

(** Lines 223-238: the test split, from the summary of the voxel metrics and
    the listing of the image folder. *)
Definition evaluate_test_split (metric_per_case : list case_metrics)
    (test_images : list string) : result DataFrame :=
  test_results_df ← format_results_into_df metric_per_case;
  test_ids ← test_split_ids test_images;
  test_cohort_table read_labels_and_preds test_results_df test_ids.
End Script.

(** * Properties *)

(** ** Component labelling of a graph *)

Section LabellingFacts.
Context (fg : nat → bool) (nbrs : nat → list nat) (N : nat).
Hypothesis fg_bound : ∀ p, fg p → p < N.
Hypothesis nbrs_sym : ∀ p q, fg p → fg q → q ∈ nbrs p → p ∈ nbrs q.

Local Abbreviation edge := (edge fg nbrs).
Local Abbreviation linked := (linked fg nbrs).
Local Abbreviation closed := (closed fg nbrs).

Lemma edge_sym p q : edge p q → edge q p.
Proof. intros (Hp & Hq & Hpq). repeat split; auto. Qed.

Lemma linked_sym p q : linked p q → linked q p.
Proof.
  induction 1 as [|x y z Hxy _ IH]; [apply rtc_refl|].
  eapply rtc_trans; [exact IH|]. apply rtc_once, edge_sym, Hxy.
Qed.

Lemma linked_fg p q : fg p → linked p q → fg q.
Proof.
  intros Hp H. induction H as [|x y z Hxy _ IH]; [done|].
  apply IH. apply Hxy.
Qed.

Lemma elem_of_grow (R : gset nat) q :
  q ∈ grow fg nbrs R ↔ q ∈ R ∨ (fg q ∧ ∃ p, p ∈ R ∧ q ∈ nbrs p).
Proof.
  unfold grow. rewrite elem_of_union, elem_of_list_to_set, list_elem_of_filter.
  rewrite list_elem_of_bind. setoid_rewrite elem_of_elements.
  split.
  - intros [?|[? (p & ? & ?)]]; eauto.
  - intros [?|[? (p & ? & ?)]]; eauto.
Qed.

Lemma grow_incl (R : gset nat) : R ⊆ grow fg nbrs R.
Proof. intros x Hx. apply elem_of_grow. by left. Qed.

Lemma flood_incl k (R : gset nat) : R ⊆ flood fg nbrs k R.
Proof.
  revert R. induction k as [|k IH]; intros R; simpl; [done|].
  etrans; [apply grow_incl | apply IH].
Qed.

Lemma flood_closed k (R : gset nat) : closed R → flood fg nbrs k R = R.
Proof.
  intros HR. induction k as [|k IH]; simpl; [done|].
  assert (grow fg nbrs R = R) as ->; [|done].
  apply set_eq. intros x. split; [apply HR | apply grow_incl].
Qed.

Lemma flood_sound p k (R : gset nat) :
  (∀ x, x ∈ R → fg x ∧ linked p x) →
  ∀ x, x ∈ flood fg nbrs k R → fg x ∧ linked p x.
Proof.
  revert R. induction k as [|k IH]; intros R HR x; simpl; [apply HR|].
  apply IH. clear x. intros x [Hx | (Hfx & y & Hy & Hxy)]%elem_of_grow; [by apply HR|].
  destruct (HR y Hy) as [Hfy Hpy]. split; [done|].
  eapply rtc_r; [exact Hpy|]. by repeat split.
Qed.

Lemma flood_progress k (R : gset nat) :
  closed (flood fg nbrs k R) ∨ size R + k ≤ size (flood fg nbrs k R).
Proof.
  revert R. induction k as [|k IH]; intros R; simpl; [right; lia|].
  destruct (decide (grow fg nbrs R ⊆ R)) as [Hc|Hn].
  - left. assert (grow fg nbrs R = R) as ->.
    { apply set_eq. intros x. split; [apply Hc | apply grow_incl]. }
    by rewrite flood_closed.
  - destruct (IH (grow fg nbrs R)) as [?|Hs]; [by left|right].
    assert (size R < size (grow fg nbrs R)); [|lia].
    apply subset_size. split; [apply grow_incl | done].
Qed.

Lemma closed_linked (R : gset nat) p q :
  closed R → p ∈ R → linked p q → q ∈ R.
Proof.
  intros Hc Hp H. induction H as [|x y z (Hx & Hy & Hxy) _ IH]; [done|].
  apply IH, Hc, elem_of_grow. right. eauto.
Qed.

Lemma bounded_size (R : gset nat) : (∀ x, x ∈ R → x < N) → size R ≤ N.
Proof.
  intros HR. trans (size (list_to_set (seq 0 N) : gset nat)).
  - apply subseteq_size. intros x Hx. apply elem_of_list_to_set, elem_of_seq.
    specialize (HR x Hx). lia.
  - rewrite size_list_to_set by apply NoDup_seq. by rewrite length_seq.
Qed.

(** The flood from a foreground entry is exactly its component. *)
Lemma elem_of_flood p q :
  fg p → q ∈ flood fg nbrs N {[p]} ↔ linked p q.
Proof.
  intros Hp.
  assert (Hs : ∀ x, x ∈ flood fg nbrs N {[p]} → fg x ∧ linked p x).
  { apply flood_sound. intros x ->%elem_of_singleton. split; [done | apply rtc_refl]. }
  split; [intros Hq; by apply Hs|]. intros Hpq.
  apply closed_linked with p; [| |done].
  - destruct (flood_progress N {[p]}) as [?|Hsz]; [done|].
    rewrite size_singleton in Hsz.
    assert (size (flood fg nbrs N {[p]}) ≤ N); [|lia].
    apply bounded_size. intros x Hx. apply fg_bound, Hs, Hx.
  - apply flood_incl. by apply elem_of_singleton.
Qed.

Lemma lookup_paint (R : gset nat) id lab p :
  paint R id lab !! p = (λ v, if decide (p ∈ R) then id else v) <$> lab !! p.
Proof. unfold paint. by rewrite list_lookup_imap. Qed.

Lemma scan_inv_init : scan_inv fg nbrs N 0 (replicate N 0, 0).
Proof.
  split; simpl.
  - apply length_replicate.
  - intros p v [-> _]%lookup_replicate. lia.
  - intros p v [-> _]%lookup_replicate. done.
  - intros k. lia.
  - intros p q v [-> _]%lookup_replicate. done.
  - intros p. lia.
Qed.

Lemma scan_inv_step i st :
  i < N → scan_inv fg nbrs N i st → scan_inv fg nbrs N (S i) (scan_step fg nbrs N st i).
Proof.
  intros Hi [Hlen Hrange Hfg Honto Hclass Hdone]. destruct st as [lab n]. simpl in *.
  unfold scan_step.
  destruct (fg i) eqn:Hfi; simpl; cycle 1.
  { split; simpl; try done. intros p Hp Hfp.
    destruct (decide (p = i)) as [->|]; [|apply Hdone; [lia|done]].
    rewrite Hfi in Hfp. done. }
  case_bool_decide as Hli; cycle 1.
  { split; simpl; try done. intros p Hp Hfp.
    destruct (decide (p = i)) as [->|]; [|apply Hdone; [lia|done]].
    destruct (lookup_lt_is_Some_2 lab i) as [v Hv]; [lia|].
    exists v. split; [done|]. intros ->. done. }
  assert (Hfi' : fg i) by (by rewrite Hfi).
  pose proof (elem_of_flood i) as Hflood.
  set (R := flood fg nbrs N {[i]}) in *.
  assert (Hfresh : ∀ q v, q ∈ R → lab !! q = Some v → v = 0).
  { intros q v Hq Hv. destruct (decide (v = 0)) as [|Hne]; [done|].
    apply Hflood in Hq; [|done].
    apply linked_sym in Hq.
    apply (Hclass q i v Hv Hne) in Hq. congruence. }
  split; simpl.
  - unfold paint. by rewrite length_imap.
  - intros p v. rewrite lookup_paint. destruct (lab !! p) as [w|] eqn:Hw; [|done].
    simpl. intros [= <-]. case_decide; [lia|]. apply Hrange in Hw. lia.
  - intros p v. rewrite lookup_paint. destruct (lab !! p) as [w|] eqn:Hw; [|done].
    simpl. intros [= <-]. case_decide as HR.
    + intros _. apply Hflood in HR; [|done]. by eapply linked_fg.
    + by apply Hfg.
  - intros k Hk. destruct (decide (k = S n)) as [->|Hne].
    + exists i. rewrite lookup_paint, Hli. simpl.
      rewrite decide_True; [done|]. apply Hflood; [done|]. apply rtc_refl.
    + destruct (Honto k) as [p Hp]; [lia|]. exists p.
      rewrite lookup_paint, Hp. simpl. rewrite decide_False; [done|].
      intros HR. apply (Hfresh p k HR) in Hp. lia.
  - intros p q v. rewrite !lookup_paint.
    destruct (lab !! p) as [w|] eqn:Hw; [|done]. simpl. intros [= <-] Hv.
    case_decide as HpR.
    + apply Hflood in HpR; [|done]. split.
      * intros Hpq. assert (HqR : q ∈ R).
        { apply Hflood; [done|]. by eapply rtc_trans. }
        destruct (lookup_lt_is_Some_2 lab q) as [u Hu].
        { rewrite Hlen. apply fg_bound. eapply linked_fg; [exact Hfi'|].
          by apply Hflood. }
        rewrite Hu. simpl. by rewrite decide_True.
      * destruct (lab !! q) as [u|] eqn:Hu; [|done]. simpl. intros [= Hq].
        case_decide as HqR.
        -- apply Hflood in HqR; [|done].
           eapply rtc_trans; [apply linked_sym; exact HpR | exact HqR].
        -- apply Hrange in Hu. lia.
    + split.
      * intros Hpq. pose proof Hpq as Hq. apply (Hclass p q w Hw Hv) in Hq.
        rewrite Hq. simpl. rewrite decide_False; [done|].
        intros HqR. apply (Hfresh q w HqR) in Hq. done.
      * destruct (lab !! q) as [u|] eqn:Hu; [|done]. simpl. intros [= Hq].
        case_decide as HqR.
        -- apply Hrange in Hw. lia.
        -- subst u. by apply (Hclass p q w Hw Hv).
  - intros p Hp Hfp. rewrite lookup_paint.
    destruct (lookup_lt_is_Some_2 lab p) as [u Hu].
    { rewrite Hlen. by apply fg_bound. }
    rewrite Hu. simpl. case_decide as HR; [by eexists|].
    destruct (decide (p = i)) as [->|Hne].
    + exfalso. apply HR, Hflood; [done | apply rtc_refl].
    + destruct (Hdone p) as (v & Hv & Hv0); [lia|done|]. exists v.
      split; [congruence | done].
Qed.

Lemma scan_inv_prefix i :
  i ≤ N → scan_inv fg nbrs N i (foldl (scan_step fg nbrs N) (replicate N 0, 0) (seq 0 i)).
Proof.
  induction i as [|i IH]; intros Hi; [apply scan_inv_init|].
  rewrite seq_S, foldl_app. simpl. apply scan_inv_step; [lia|]. apply IH. lia.
Qed.

Lemma label_graph_inv : scan_inv fg nbrs N N (label_graph fg nbrs N).
Proof. apply scan_inv_prefix. done. Qed.
End LabellingFacts.

(** ** Row-major geometry *)

Lemma ravel_lt s c : in_bounds s c → ravel s c < size_of s.
Proof.
  destruct s as [[d0 d1] d2], c as [[i j] k]. unfold in_bounds, ravel, size_of.
  simpl. intros (Hi & Hj & Hk).
  assert (i * d1 + j + 1 ≤ d0 * d1) by nia.
  assert ((i * d1 + j + 1) * d2 ≤ d0 * d1 * d2) by (by apply Nat.mul_le_mono_r).
  lia.
Qed.

Lemma unravel_ravel s c : in_bounds s c → unravel s (ravel s c) = c.
Proof.
  destruct s as [[d0 d1] d2], c as [[i j] k]. unfold in_bounds, ravel, unravel.
  simpl. intros (Hi & Hj & Hk).
  assert (Hq : ((i * d1 + j) * d2 + k) / d2 = i * d1 + j).
  { symmetry. apply Nat.div_unique with k; lia. }
  rewrite Hq. f_equal; [f_equal|].
  - symmetry. apply Nat.div_unique with (j * d2 + k); nia.
  - symmetry. apply Nat.mod_unique with i; lia.
  - symmetry. apply Nat.mod_unique with (i * d1 + j); lia.
Qed.

Lemma unravel_in_bounds s p : p < size_of s → in_bounds s (unravel s p).
Proof.
  destruct s as [[d0 d1] d2]. unfold in_bounds, unravel, size_of. simpl.
  intros Hp.
  assert (d1 ≠ 0) by (intros ->; lia). assert (d2 ≠ 0) by (intros ->; lia).
  split; [|split].
  - apply Nat.Div0.div_lt_upper_bound. lia.
  - by apply Nat.mod_upper_bound.
  - by apply Nat.mod_upper_bound.
Qed.

Lemma ravel_unravel s p : p < size_of s → ravel s (unravel s p) = p.
Proof.
  destruct s as [[d0 d1] d2]. unfold ravel, unravel, size_of. simpl.
  intros Hp.
  assert (d1 ≠ 0) by (intros ->; lia). assert (d2 ≠ 0) by (intros ->; lia).
  rewrite (Nat.mul_comm d1 d2), <-Nat.Div0.div_div.
  pose proof (Nat.div_mod_eq p d2) as H2.
  pose proof (Nat.div_mod_eq (p / d2) d1) as H1.
  replace (p / d2 / d1 * d1 + (p / d2) mod d1) with (p / d2) by lia.
  lia.
Qed.

Lemma elem_of_positions s c : c ∈ positions s ↔ in_bounds s c.
Proof.
  unfold positions. rewrite list_elem_of_fmap. setoid_rewrite elem_of_seq. split.
  - intros (p & -> & Hp). apply unravel_in_bounds. lia.
  - intros Hc. exists (ravel s c). split; [by rewrite unravel_ravel|].
    apply ravel_lt in Hc. lia.
Qed.

Lemma shift_coord_Some d i a i' :
  a < 3 → shift_coord d i a = Some i' → i' < d ∧ near i i'.
Proof. unfold shift_coord, near. intros Ha. case_decide; intros [= <-]; lia. Qed.

Lemma shift_coord_near d i i' :
  i' < d → near i i' → ∃ a, a < 3 ∧ shift_coord d i a = Some i'.
Proof.
  unfold shift_coord, near. intros Hd Hn. exists (i' + 1 - i). split; [lia|].
  rewrite decide_True by lia. f_equal. lia.
Qed.

Lemma structure_at_ones o : in_bounds (3, 3, 3) o → structure_at (np_ones (3, 3, 3)) o = true.
Proof.
  destruct o as [[a b] c]. unfold in_bounds. simpl. intros (Ha & Hb & Hc).
  destruct a as [|[|[|a]]]; [| | |lia];
  (destruct b as [|[|[|b]]]; [| | |lia]);
  (destruct c as [|[|[|c]]]; [| | |lia]); reflexivity.
Qed.

(** Coordinates that differ by at most one along every axis. *)
Lemma elem_of_neighbours_ones s p q :
  q ∈ neighbours s (np_ones (3, 3, 3)) p ↔
  ∃ c', in_bounds s c' ∧ q = ravel s c' ∧
        near (unravel s p).1.1 c'.1.1 ∧ near (unravel s p).1.2 c'.1.2 ∧
        near (unravel s p).2 c'.2.
Proof.
  unfold neighbours. destruct s as [[d0 d1] d2].
  destruct (unravel (d0, d1, d2) p) as [[i j] k] eqn:Hu.
  rewrite list_elem_of_omap. split.
  - intros ([[a b] c] & Ho%elem_of_positions & Hq).
    rewrite structure_at_ones in Hq by done.
    destruct Ho as (Ha & Hb & Hc). simpl in Ha, Hb, Hc.
    destruct (shift_coord d0 i a) as [i'|] eqn:Hi; [|done].
    destruct (shift_coord d1 j b) as [j'|] eqn:Hj; [|done].
    destruct (shift_coord d2 k c) as [k'|] eqn:Hk; [|done].
    simpl in Hq. injection Hq as <-.
    apply shift_coord_Some in Hi, Hj, Hk; try done.
    destruct Hi as [? ?], Hj as [? ?], Hk as [? ?].
    exists (i', j', k'). split; [by unfold in_bounds|]. split; [done|]. auto.
  - intros ([[i' j'] k'] & (Hi & Hj & Hk) & -> & Hni & Hnj & Hnk).
    simpl in Hi, Hj, Hk, Hni, Hnj, Hnk.
    destruct (shift_coord_near d0 i i') as (a & Ha & Hsa); [done..|].
    destruct (shift_coord_near d1 j j') as (b & Hb & Hsb); [done..|].
    destruct (shift_coord_near d2 k k') as (c & Hc & Hsc); [done..|].
    exists (a, b, c). split; [by apply elem_of_positions|].
    rewrite structure_at_ones by done. rewrite Hsa, Hsb, Hsc. done.
Qed.

Lemma near_sym a b : near a b → near b a.
Proof. unfold near. lia. Qed.

Lemma neighbours_ones_sym s p q :
  p < size_of s → q < size_of s →
  q ∈ neighbours s (np_ones (3, 3, 3)) p → p ∈ neighbours s (np_ones (3, 3, 3)) q.
Proof.
  intros Hp Hq (c' & Hc' & -> & H1 & H2 & H3)%elem_of_neighbours_ones.
  apply elem_of_neighbours_ones. exists (unravel s p).
  rewrite unravel_ravel by done.
  split; [by apply unravel_in_bounds|]. split; [by rewrite ravel_unravel|].
  auto using near_sym.
Qed.

(** ** The labeller on a well-formed mask *)

Lemma label_unfold input structure :
  label input structure =
  (NdArray (shape input)
     (label_graph (foreground input) (neighbours (shape input) structure)
                  (length (data input))).1,
   (label_graph (foreground input) (neighbours (shape input) structure)
                (length (data input))).2).
Proof. unfold label. by destruct (label_graph _ _ _). Qed.

Lemma foreground_lt input p : foreground input p → p < length (data input).
Proof.
  unfold foreground. destruct (data input !! p) eqn:H; [|done].
  intros _. by eapply lookup_lt_Some.
Qed.

Section LabelFacts.
Context (mask : ndarray nat).
Hypothesis mask_wf : wf_array mask.

Local Abbreviation ones := (np_ones (3, 3, 3)).
Local Abbreviation lab := (label mask ones).1.
Local Abbreviation count := (label mask ones).2.
Local Abbreviation linked := (linked (foreground mask) (neighbours (shape mask) ones)).

Lemma label_scan_inv :
  scan_inv (foreground mask) (neighbours (shape mask) ones)
           (length (data mask)) (length (data mask)) (data lab, count).
Proof.
  rewrite label_unfold. simpl.
  pose proof (label_graph_inv (foreground mask) (neighbours (shape mask) ones)
                (length (data mask))) as H.
  destruct (label_graph _ _ _) as [l n]. apply H.
  - apply foreground_lt.
  - intros p q Hp%foreground_lt Hq%foreground_lt.
    rewrite mask_wf in Hp, Hq. by apply neighbours_ones_sym.
Qed.

Lemma label_shape : shape lab = shape mask.
Proof. by rewrite label_unfold. Qed.

Lemma label_length : length (data lab) = length (data mask).
Proof. apply (inv_length _ _ _ _ _ label_scan_inv). Qed.

Lemma label_wf : wf_array lab.
Proof. unfold wf_array. by rewrite label_length, label_shape. Qed.

Lemma label_range p v : data lab !! p = Some v → v ≤ count.
Proof. apply (inv_range _ _ _ _ _ label_scan_inv). Qed.

Lemma label_onto k : 1 ≤ k ≤ count → ∃ p, data lab !! p = Some k.
Proof. apply (inv_onto _ _ _ _ _ label_scan_inv). Qed.

Lemma label_nonzero p v :
  data lab !! p = Some v → v ≠ 0 ↔ foreground mask p.
Proof.
  intros Hv. split.
  - by apply (inv_fg _ _ _ _ _ label_scan_inv).
  - intros Hf. destruct (inv_done _ _ _ _ _ label_scan_inv p) as (w & Hw & Hw0);
      [by apply foreground_lt | done |].
    simpl in Hw. congruence.
Qed.

Lemma label_class p q v :
  data lab !! p = Some v → v ≠ 0 → linked p q ↔ data lab !! q = Some v.
Proof. apply (inv_class _ _ _ _ _ label_scan_inv). Qed.

(** The mask entry decides whether the label is zero. *)
Lemma label_zero_iff p v x :
  data lab !! p = Some v → data mask !! p = Some x → v = 0 ↔ x = 0.
Proof.
  intros Hv Hx. pose proof (label_nonzero p v Hv) as H.
  unfold foreground in H. rewrite Hx in H.
  destruct (decide (x = 0)) as [->|Hne].
  - rewrite bool_decide_eq_false_2 in H by auto. split; [done|]. intros _.
    destruct (decide (v = 0)) as [|Hv0]; [done|]. destruct H as [H _].
    destruct (H Hv0).
  - rewrite bool_decide_eq_true_2 in H by done. split; [|done]. intros ->.
    destruct H as [_ H]. by destruct H.
Qed.
End LabelFacts.

(** ** NumPy operations *)

Lemma broadcast_dim_same a : broadcast_dim a a = Some a.
Proof. unfold broadcast_dim. by rewrite decide_True. Qed.

Lemma broadcast_shapes_same s : broadcast_shapes s s = Some s.
Proof.
  destruct s as [[d0 d1] d2]. unfold broadcast_shapes.
  by rewrite !broadcast_dim_same.
Qed.

Lemma broadcast_dim_inv a b d :
  broadcast_dim a b = Some d → (d = a ∧ d = b) ∨ d ≠ a ∨ d ≠ b.
Proof. unfold broadcast_dim. repeat case_decide; intros [= <-]; lia. Qed.

(** The broadcast of two different shapes differs from one of them. *)
Lemma broadcast_shapes_differ s t u :
  broadcast_shapes s t = Some u → s ≠ t → u ≠ s ∨ u ≠ t.
Proof.
  destruct s as [[s0 s1] s2], t as [[t0 t1] t2]. unfold broadcast_shapes.
  destruct (broadcast_dim s0 t0) as [d0|] eqn:H0; [|done].
  destruct (broadcast_dim s1 t1) as [d1|] eqn:H1; [|done].
  destruct (broadcast_dim s2 t2) as [d2|] eqn:H2; [|done].
  simpl. intros [= <-] Hne.
  apply broadcast_dim_inv in H0, H1, H2.
  destruct (decide ((d0, d1, d2) = (s0, s1, s2))) as [[= -> -> ->]|]; [|by left].
  right. intros [= -> -> ->]. done.
Qed.

Lemma fmap_lookup_seq {A : Type} (d : A) (l : list A) :
  (λ p, default d (l !! p)) <$> seq 0 (length l) = l.
Proof.
  apply list_eq. intros p. rewrite list_lookup_fmap.
  destruct (decide (p < length l)) as [Hp|Hp].
  - rewrite lookup_seq_lt by done. simpl.
    destruct (lookup_lt_is_Some_2 l p Hp) as [x Hx]. by rewrite Hx.
  - rewrite lookup_seq_ge by lia. simpl. symmetry. apply lookup_ge_None. lia.
Qed.

Lemma broadcast_to_same (a : ndarray bool) :
  wf_array a → broadcast_to a (shape a) = a.
Proof.
  destruct a as [[[a0 a1] a2] l]. unfold wf_array, broadcast_to, positions. simpl.
  intros Hwf. f_equal. rewrite <-list_fmap_compose.
  trans ((λ p, default false (l !! p)) <$> seq 0 (length l));
    [|apply fmap_lookup_seq].
  rewrite Hwf. apply list_fmap_ext. intros n p Hp%list_elem_of_lookup_2%elem_of_seq.
  unfold compose.
  assert (Hlt : p < size_of (a0, a1, a2)) by (simpl; lia).
  pose proof (unravel_in_bounds _ _ Hlt) as Hb.
  pose proof (ravel_unravel _ _ Hlt) as Hr.
  destruct (unravel (a0, a1, a2) p) as [[i j] k] eqn:Hu.
  destruct Hb as (Hi & Hj & Hk). simpl in Hi, Hj, Hk.
  simpl in Hr |- *.
  assert (stretch a0 i = i) as -> by (unfold stretch; case_decide; lia).
  assert (stretch a1 j = j) as -> by (unfold stretch; case_decide; lia).
  assert (stretch a2 k = k) as -> by (unfold stretch; case_decide; lia).
  by rewrite Hr.
Qed.

Lemma np_and_same_shape (a b : ndarray bool) :
  wf_array a → wf_array b → shape a = shape b →
  np_and a b = Ok (NdArray (shape a) (zip_with andb (data a) (data b))).
Proof.
  intros Ha Hb Hs. unfold np_and. rewrite <-Hs, broadcast_shapes_same.
  rewrite broadcast_to_same by done. rewrite Hs, broadcast_to_same by done.
  done.
Qed.

Lemma np_map_wf {A B : Type} (f : A → B) (a : ndarray A) :
  wf_array a → wf_array (np_map f a).
Proof. unfold wf_array, np_map. simpl. by rewrite length_fmap. Qed.

Lemma elem_of_select {A : Type} (xs : list A) (m : list bool) x :
  x ∈ select xs m ↔ ∃ p, xs !! p = Some x ∧ m !! p = Some true.
Proof.
  revert m. induction xs as [|y xs IH]; intros m; simpl.
  - split; [by intros ?%not_elem_of_nil | by intros (p & ? & _)].
  - destruct m as [|b m].
    + split; [by intros ?%not_elem_of_nil | by intros (p & _ & ?)].
    + destruct b.
      * rewrite elem_of_cons, IH. split.
        -- intros [->|(p & ? & ?)]; [by exists 0 | by exists (S p)].
        -- intros ([|p] & Hx & Hm); simpl in *; [left; congruence | right; eauto].
      * rewrite IH. split.
        -- intros (p & ? & ?). by exists (S p).
        -- intros ([|p] & Hx & Hm); simpl in *; [done | eauto].
Qed.

Lemma elem_of_np_unique xs x : x ∈ np_unique xs ↔ x ∈ xs.
Proof.
  unfold np_unique. rewrite merge_sort_Permutation. apply elem_of_remove_dups.
Qed.

Lemma elem_of_first_appearance xs x : x ∈ first_appearance xs ↔ x ∈ xs.
Proof.
  unfold first_appearance. by rewrite elem_of_reverse, elem_of_remove_dups, elem_of_reverse.
Qed.

Lemma first_appearance_nil xs : first_appearance xs = [] ↔ xs = [].
Proof.
  split; [|by intros ->]. intros Hnil. destruct xs as [|x xs]; [done|].
  assert (Hin : x ∈ first_appearance (x :: xs)).
  { apply elem_of_first_appearance. by left. }
  rewrite Hnil in Hin. by apply not_elem_of_nil in Hin.
Qed.

Lemma elem_of_py_set_unique xs x : x ∈ py_set (np_unique xs) ↔ x ∈ xs.
Proof. unfold py_set. by rewrite elem_of_list_to_set, elem_of_np_unique. Qed.

Lemma elem_of_masked {A : Type} (xs : list A) (da db : list nat) (f g : nat → bool) x :
  x ∈ select xs (zip_with andb (f <$> da) (g <$> db)) ↔
  ∃ p u v, xs !! p = Some x ∧ da !! p = Some u ∧ db !! p = Some v ∧ f u ∧ g v.
Proof.
  rewrite elem_of_select. split.
  - intros (p & Hx & Hm). apply lookup_zip_with_Some in Hm as (bu & bv & Hb & Hu & Hv).
    apply list_lookup_fmap_Some_1 in Hu as (u & -> & Hu).
    apply list_lookup_fmap_Some_1 in Hv as (v & -> & Hv).
    symmetry in Hb. apply andb_true_iff in Hb as [Hfu Hgv].
    exists p, u, v. rewrite Hfu, Hgv. done.
  - intros (p & u & v & Hx & Hu & Hv & Hfu & Hgv). exists p. split; [done|].
    apply lookup_zip_with_Some. exists (f u), (g v).
    rewrite !list_lookup_fmap, Hu, Hv. simpl.
    destruct (f u), (g v); done.
Qed.

Lemma select_nil_r {A : Type} (xs : list A) : select xs [] = [].
Proof. by destruct xs. Qed.

Lemma index_fits_refl (s : shape3) : index_fits s s.
Proof. unfold index_fits. tauto. Qed.

(** A mask that passes the check without having the shape of the array has
    no entry. *)
Lemma index_fits_empty (u s : shape3) : index_fits u s → u ≠ s → size_of u = 0.
Proof.
  destruct u as [[u0 u1] u2], s as [[s0 s1] s2]. unfold index_fits. simpl.
  intros (H0 & H1 & H2) Hne.
  destruct H0 as [-> | ->]; [lia|]. destruct H1 as [-> | ->]; [lia|].
  destruct H2 as [-> | ->]; [lia|]. done.
Qed.

Lemma np_and_None (a b : ndarray bool) :
  broadcast_shapes (shape a) (shape b) = None → np_and a b = Raise ValueError.
Proof. unfold np_and. by intros ->. Qed.

Lemma np_and_Some (a b : ndarray bool) (u : shape3) :
  broadcast_shapes (shape a) (shape b) = Some u →
  ∃ m, np_and a b = Ok m ∧ shape m = u ∧ (size_of u = 0 → data m = []).
Proof.
  unfold np_and. intros ->. eexists. split; [reflexivity|]. split; [done|].
  intros Hz. cbn [data]. unfold broadcast_to, positions.
  destruct (shape a) as [[a0 a1] a2]. destruct (shape b) as [[b0 b1] b2].
  cbn [data]. by rewrite Hz.
Qed.

Lemma getitem_mask_empty {A : Type} (a : ndarray A) (m : ndarray bool) :
  index_fits (shape m) (shape a) → data m = [] → getitem_mask a m = Ok [].
Proof.
  intros Hf Hd. unfold getitem_mask.
  case_decide; [by rewrite Hd, select_nil_r|]. by rewrite decide_True.
Qed.

Lemma getitem_mask_fits {A : Type} (a : ndarray A) (m : ndarray bool) :
  index_fits (shape m) (shape a) → ∃ x, getitem_mask a m = Ok x.
Proof.
  intros Hf. unfold getitem_mask. case_decide; [by eexists|].
  rewrite decide_True by done. by eexists.
Qed.

Lemma getitem_mask_unfit {A : Type} (a : ndarray A) (m : ndarray bool) :
  ¬ index_fits (shape m) (shape a) → getitem_mask a m = Raise IndexError.
Proof.
  intros Hf. unfold getitem_mask. rewrite decide_False.
  - by rewrite decide_False.
  - intros Heq. apply Hf. rewrite Heq. apply index_fits_refl.
Qed.

(** The four indices on instance maps of different shapes (lines 128-131):
    the shapes cannot be broadcast, or a broadcast mask fails the check
    against one of the two maps it indexes, or every mask passes the check
    and, having no entry, selects nothing. *)
Lemma overlap_matching_mismatch (G P Nw : ndarray nat) :
  shape Nw = shape P → shape G ≠ shape P →
  overlap_matching G P Nw =
    match broadcast_shapes (shape G) (shape P) with
    | None => Raise ValueError
    | Some u =>
        if decide (index_fits u (shape G) ∧ index_fits u (shape P))
        then Ok (Matching ∅ ∅ ∅ ∅) else Raise IndexError
    end.
Proof.
  intros HNw Hne. unfold overlap_matching.
  destruct (broadcast_shapes (shape G) (shape P)) as [u|] eqn:Hu.
  2:{ by rewrite (np_and_None (np_gt0 G) (np_gt0 P) Hu). }
  pose proof (broadcast_shapes_differ _ _ _ Hu Hne) as Hdiff.
  assert (Hu' : broadcast_shapes (shape G) (shape Nw) = Some u) by (by rewrite HNw).
  destruct (np_and_Some (np_gt0 G) (np_gt0 P) u Hu) as (m1 & -> & Hs1 & Hd1).
  destruct (np_and_Some (np_gt0 G) (np_gt0 Nw) u Hu') as (m2 & -> & Hs2 & Hd2).
  destruct (np_and_Some (np_eq0 G) (np_gt0 Nw) u Hu') as (m3 & -> & Hs3 & Hd3).
  destruct (np_and_Some (np_gt0 G) (np_eq0 Nw) u Hu') as (m4 & -> & Hs4 & Hd4).
  cbn [mbind result_bind]. case_decide as Hfit.
  - destruct Hfit as [HfG HfP].
    assert (Hz : size_of u = 0).
    { destruct Hdiff as [Hd|Hd];
        [exact (index_fits_empty u (shape G) HfG Hd)
        |exact (index_fits_empty u (shape P) HfP Hd)]. }
    rewrite (getitem_mask_empty G m1) by (rewrite ?Hs1; auto).
    cbn [mbind result_bind].
    rewrite (getitem_mask_empty Nw m2) by (rewrite ?Hs2, ?HNw; auto).
    cbn [mbind result_bind].
    rewrite (getitem_mask_empty Nw m3) by (rewrite ?Hs3, ?HNw; auto).
    cbn [mbind result_bind].
    rewrite (getitem_mask_empty G m4) by (rewrite ?Hs4; auto).
    cbn [mbind result_bind].
    assert (py_set (np_unique []) = ∅) as -> by reflexivity.
    by rewrite difference_diag_L.
  - destruct (decide (index_fits u (shape G))) as [HfG|HfG].
    + destruct (getitem_mask_fits G m1) as [x1 ->]; [by rewrite Hs1|].
      cbn [mbind result_bind].
      rewrite (getitem_mask_unfit Nw m2); [done|]. rewrite Hs2, HNw. tauto.
    + rewrite (getitem_mask_unfit G m1); [done|]. by rewrite Hs1.
Qed.

(** The shapes whose difference the check does not see are those that can
    be broadcast to a shape that fits both. *)
Lemma unchecked_axis_iff (a b : nat) :
  unchecked_axis a b ↔
  ∃ d, broadcast_dim a b = Some d ∧ (d = 0 ∨ d = a) ∧ (d = 0 ∨ d = b).
Proof.
  unfold unchecked_axis, broadcast_dim. split.
  - intros [-> | [[-> ->] | [-> ->]]]; repeat case_decide; try lia;
      eexists; (split; [reflexivity|lia]).
  - intros (d & Hd & H1 & H2). repeat case_decide; try done;
      injection Hd as <-; lia.
Qed.

Lemma unchecked_iff (s t : shape3) :
  unchecked s t ↔
  ∃ u, broadcast_shapes s t = Some u ∧ index_fits u s ∧ index_fits u t.
Proof.
  destruct s as [[s0 s1] s2], t as [[t0 t1] t2].
  unfold unchecked, index_fits, broadcast_shapes. cbn [fst snd].
  rewrite !unchecked_axis_iff. split.
  - intros ((d0 & -> & ? & ?) & (d1 & -> & ? & ?) & (d2 & -> & ? & ?)).
    exists (d0, d1, d2). cbn. tauto.
  - intros (u & Hu & Hs & Ht).
    destruct (broadcast_dim s0 t0) as [d0|]; [|done].
    destruct (broadcast_dim s1 t1) as [d1|]; [|done].
    destruct (broadcast_dim s2 t2) as [d2|]; [|done].
    cbn in Hu. injection Hu as <-. cbn in Hs, Ht.
    split; [|split]; eexists; (split; [reflexivity|tauto]).
Qed.

Lemma unchecked_refl (s : shape3) : unchecked s s.
Proof. unfold unchecked, unchecked_axis. tauto. Qed.

(** ** The relabelling loop *)

Lemma relabel_loop (P : ndarray nat) (n_gt : nat) (ids : list nat) (new : ndarray nat) :
  shape new = shape P → length (data new) = length (data P) →
  for_each (λ new id, setitem_mask new (np_eq_id P id) (id + n_gt)) ids new =
  Ok (NdArray (shape P)
        (zip_with (λ x v, if decide (v ∈ ids) then v + n_gt else x) (data new) (data P))).
Proof.
  revert new. induction ids as [|id ids IH]; intros new Hs Hl; cbn [for_each].
  - destruct new as [s l]. simpl in *. subst s. f_equal. f_equal.
    apply list_eq. intros p. rewrite lookup_zip_with.
    destruct (l !! p) as [x|] eqn:Hx; simpl; [|done].
    destruct (lookup_lt_is_Some_2 (data P) p) as [v Hv].
    { rewrite <-Hl. by eapply lookup_lt_Some. }
    by rewrite Hv.
  - assert (setitem_mask new (np_eq_id P id) (id + n_gt) =
            Ok (NdArray (shape new)
                  (zip_with (λ x (b : bool), if b then id + n_gt else x) (data new)
                            ((λ v, bool_decide (v = id)) <$> data P)))) as ->.
    { unfold setitem_mask. simpl. by rewrite decide_True. }
    cbn [mbind result_bind].
    rewrite IH; cbn [shape data]; [|done|].
    2:{ rewrite length_zip_with_l_eq; [done|]. by rewrite length_fmap. }
    f_equal. f_equal. apply list_eq. intros p. rewrite !lookup_zip_with.
    rewrite list_lookup_fmap.
    destruct (data new !! p) as [x|]; simpl; [|done].
    destruct (data P !! p) as [v|]; simpl; [|done].
    f_equal. destruct (decide (v ∈ ids)) as [Hin|Hin].
    + rewrite decide_True; [done|]. by right.
    + case_bool_decide as Hv.
      * subst v. rewrite decide_True; [done|]. by left.
      * rewrite decide_False; [done|]. by intros [?|?]%elem_of_cons.
Qed.

Lemma relabel_spec (P : ndarray nat) (n_pred n_gt : nat) :
  relabel P n_pred n_gt =
  Ok (NdArray (shape P)
        ((λ v, if decide (1 ≤ v ≤ n_pred) then v + n_gt else v) <$> data P)).
Proof.
  unfold relabel. rewrite relabel_loop by done. f_equal. f_equal. simpl.
  apply list_eq. intros p. rewrite lookup_zip_with, list_lookup_fmap.
  destruct (data P !! p) as [v|]; simpl; [|done]. f_equal.
  destruct (decide (v ∈ seq 1 n_pred)) as [Hin|Hin].
  - apply elem_of_seq in Hin. rewrite decide_True; [done|lia].
  - rewrite decide_False; [done|]. intros ?. apply Hin, elem_of_seq. lia.
Qed.

(** ** The four identifier sets on arrays of one shape *)

Lemma overlap_matching_same_shape (G P Nw : ndarray nat) :
  wf_array G → wf_array P → wf_array Nw → shape P = shape G → shape Nw = shape G →
  ∃ m, overlap_matching G P Nw = Ok m ∧
    (∀ x, x ∈ tp_gt m ↔
            ∃ p v, data G !! p = Some x ∧ data P !! p = Some v ∧ 0 < x ∧ 0 < v) ∧
    (∀ x, x ∈ tp_pred m ↔
            ∃ p g, data Nw !! p = Some x ∧ data G !! p = Some g ∧ 0 < g ∧ 0 < x) ∧
    (∀ x, x ∈ fp_ids m ↔
            (∃ p g, data Nw !! p = Some x ∧ data G !! p = Some g ∧ g = 0 ∧ 0 < x) ∧
            x ∉ tp_pred m) ∧
    (∀ x, x ∈ fn_ids m ↔
            (∃ p v, data G !! p = Some x ∧ data Nw !! p = Some v ∧ 0 < x ∧ v = 0) ∧
            x ∉ tp_gt m).
Proof.
  intros HG HP HN HsP HsN. unfold overlap_matching, np_gt0, np_eq0.
  rewrite !np_and_same_shape by (try apply np_map_wf; try done; simpl; congruence).
  cbn [mbind result_bind]. unfold getitem_mask. cbn [shape np_map data].
  rewrite !decide_True by congruence. cbn [mbind result_bind].
  eexists. split; [reflexivity|]. cbn [tp_gt tp_pred fp_ids fn_ids].
  split; [|split; [|split]]; intros x.
  - rewrite elem_of_py_set_unique, elem_of_masked. split.
    + intros (p & u & v & Hx & Hu & Hv & Hfu & Hgv). exists p, v.
      assert (u = x) as -> by congruence.
      apply bool_decide_unpack in Hfu, Hgv. done.
    + intros (p & v & Hx & Hv & H1 & H2). exists p, x, v.
      rewrite !bool_decide_eq_true_2 by done. done.
  - rewrite elem_of_py_set_unique, elem_of_masked. split.
    + intros (p & u & v & Hx & Hu & Hv & Hfu & Hgv). exists p, u.
      assert (v = x) as -> by congruence.
      apply bool_decide_unpack in Hfu, Hgv. done.
    + intros (p & g & Hx & Hg & H1 & H2). exists p, g, x.
      rewrite !bool_decide_eq_true_2 by done. done.
  - rewrite elem_of_difference, !elem_of_py_set_unique, !elem_of_masked.
    apply and_iff_compat_r. split.
    + intros (p & u & v & Hx & Hu & Hv & Hfu & Hgv). exists p, u.
      assert (v = x) as -> by congruence.
      apply bool_decide_unpack in Hfu, Hgv. done.
    + intros (p & g & Hx & Hg & H1 & H2). exists p, g, x.
      rewrite !bool_decide_eq_true_2 by done. done.
  - rewrite elem_of_difference, !elem_of_py_set_unique, !elem_of_masked.
    apply and_iff_compat_r. split.
    + intros (p & u & v & Hx & Hu & Hv & Hfu & Hgv). exists p, v.
      assert (u = x) as -> by congruence.
      apply bool_decide_unpack in Hfu, Hgv. done.
    + intros (p & v & Hx & Hv & H1 & H2). exists p, x, v.
      rewrite !bool_decide_eq_true_2 by done. done.
Qed.

(** ** One case, one lesion class *)

Section CaseFacts.
Context (labels preds : ndarray Z) (lesion_class : Z).
Hypothesis labels_wf : wf_array labels.
Hypothesis preds_wf : wf_array preds.
Hypothesis same_shape : shape labels = shape preds.

Local Abbreviation ones := (np_ones (3, 3, 3)).
Local Abbreviation gt_mask := (astype_int (np_eq_scalar labels lesion_class)).
Local Abbreviation pred_mask := (astype_int (np_eq_scalar preds lesion_class)).
Local Abbreviation G := (label gt_mask ones).1.
Local Abbreviation n_gt := (label gt_mask ones).2.
Local Abbreviation P := (label pred_mask ones).1.
Local Abbreviation n_pred := (label pred_mask ones).2.
Local Abbreviation Nw :=
  (NdArray (shape P)
     ((λ v, if decide (1 ≤ v ≤ n_pred) then v + n_gt else v) <$> data P)).

Lemma gt_mask_wf : wf_array gt_mask.
Proof. by do 2 apply np_map_wf. Qed.

Lemma pred_mask_wf : wf_array pred_mask.
Proof. by do 2 apply np_map_wf. Qed.

Lemma lesion_instances_eq :
  lesion_instances labels preds lesion_class = Ok (Instances G n_gt P n_pred Nw).
Proof.
  unfold lesion_instances.
  destruct (label gt_mask ones) as [g ng] eqn:Hg.
  destruct (label pred_mask ones) as [p np] eqn:Hp.
  by rewrite relabel_spec.
Qed.

Lemma shape_G : shape G = shape labels.
Proof. by rewrite label_shape. Qed.

Lemma shape_P : shape P = shape labels.
Proof. by rewrite label_shape, same_shape. Qed.

Lemma length_G : length (data G) = size_of (shape labels).
Proof. rewrite label_length by apply gt_mask_wf. apply gt_mask_wf. Qed.

Lemma length_P : length (data P) = size_of (shape labels).
Proof.
  rewrite label_length by apply pred_mask_wf. rewrite same_shape. apply pred_mask_wf.
Qed.

Lemma Nw_wf : wf_array Nw.
Proof.
  unfold wf_array. simpl. rewrite length_fmap.
  rewrite length_P, label_shape. simpl. by rewrite same_shape.
Qed.

(** The relabelled map is the predicted map with every non-zero identifier
    shifted by the number of ground-truth instances. *)
Lemma lookup_Nw p x :
  data Nw !! p = Some x ↔
  ∃ v, data P !! p = Some v ∧ x = if decide (v = 0) then 0 else v + n_gt.
Proof.
  simpl. rewrite list_lookup_fmap. split.
  - destruct (data P !! p) as [v|] eqn:Hv; [|done]. simpl. intros [= <-].
    exists v. split; [done|]. apply label_range in Hv; [|apply pred_mask_wf].
    repeat case_decide; lia.
  - intros (v & Hv & ->). rewrite Hv. simpl. f_equal.
    apply label_range in Hv; [|apply pred_mask_wf].
    repeat case_decide; lia.
Qed.

Lemma lookup_G_P p : is_Some (data G !! p) ↔ is_Some (data P !! p).
Proof. by rewrite !lookup_lt_is_Some, length_G, length_P. Qed.

Lemma matching_exists :
  ∃ m, overlap_matching G P Nw = Ok m ∧
    (∀ x, x ∈ tp_gt m ↔
            ∃ p v, data G !! p = Some x ∧ data P !! p = Some v ∧ 0 < x ∧ 0 < v) ∧
    (∀ x, x ∈ tp_pred m ↔
            ∃ p g, data Nw !! p = Some x ∧ data G !! p = Some g ∧ 0 < g ∧ 0 < x) ∧
    (∀ x, x ∈ fp_ids m ↔
            (∃ p g, data Nw !! p = Some x ∧ data G !! p = Some g ∧ g = 0 ∧ 0 < x) ∧
            x ∉ tp_pred m) ∧
    (∀ x, x ∈ fn_ids m ↔
            (∃ p v, data G !! p = Some x ∧ data Nw !! p = Some v ∧ 0 < x ∧ v = 0) ∧
            x ∉ tp_gt m).
Proof.
  apply overlap_matching_same_shape.
  - apply label_wf, gt_mask_wf.
  - apply label_wf, pred_mask_wf.
  - apply Nw_wf.
  - by rewrite shape_P, shape_G.
  - simpl. by rewrite shape_P, shape_G.
Qed.

(** Every predicted identifier is matched or a false positive. *)
Lemma predicted_side m :
  (∀ x, x ∈ tp_pred m ↔
          ∃ p g, data Nw !! p = Some x ∧ data G !! p = Some g ∧ 0 < g ∧ 0 < x) →
  (∀ x, x ∈ fp_ids m ↔
          (∃ p g, data Nw !! p = Some x ∧ data G !! p = Some g ∧ g = 0 ∧ 0 < x) ∧
          x ∉ tp_pred m) →
  tp_pred m ∪ fp_ids m = list_to_set (seq (n_gt + 1) n_pred) ∧
  size (tp_pred m) + size (fp_ids m) = n_pred.
Proof.
  intros Htp Hfp.
  assert (Heq : tp_pred m ∪ fp_ids m = list_to_set (seq (n_gt + 1) n_pred)).
  { apply set_eq. intros x.
    rewrite elem_of_union, elem_of_list_to_set, elem_of_seq. split.
    - intros Hx.
      assert (∃ p, data Nw !! p = Some x ∧ 0 < x) as (p & Hp & Hx0).
      { destruct Hx as [Hx|Hx].
        - apply Htp in Hx as (p & g & ? & ? & ? & ?). eauto.
        - apply Hfp in Hx as [(p & g & ? & ? & ? & ?) _]. eauto. }
      apply lookup_Nw in Hp as (v & Hv & ->).
      apply label_range in Hv; [|apply pred_mask_wf].
      case_decide; lia.
    - intros Hx. destruct (label_onto pred_mask pred_mask_wf (x - n_gt)) as [p Hp]; [lia|].
      assert (HN : data Nw !! p = Some x).
      { apply lookup_Nw. exists (x - n_gt). split; [done|]. case_decide; lia. }
      destruct (proj2 (lookup_G_P p)) as [g Hg]; [by eexists|].
      destruct (decide (x ∈ tp_pred m)) as [|Hn]; [by left|right].
      apply Hfp. split; [|done]. exists p, g. split; [done|]. split; [done|].
      split; [|lia]. destruct (decide (g = 0)) as [|Hg0]; [done|].
      exfalso. apply Hn, Htp. exists p, g. repeat split; try done; lia. }
  split; [done|].
  rewrite <-size_union.
  - rewrite Heq, size_list_to_set by apply NoDup_seq. by rewrite length_seq.
  - intros x Hx Hx'. apply Hfp in Hx' as [_ Hx']. done.
Qed.

(** Every ground-truth identifier is matched or a false negative. *)
Lemma ground_truth_side m :
  (∀ x, x ∈ tp_gt m ↔
          ∃ p v, data G !! p = Some x ∧ data P !! p = Some v ∧ 0 < x ∧ 0 < v) →
  (∀ x, x ∈ fn_ids m ↔
          (∃ p v, data G !! p = Some x ∧ data Nw !! p = Some v ∧ 0 < x ∧ v = 0) ∧
          x ∉ tp_gt m) →
  tp_gt m ∪ fn_ids m = list_to_set (seq 1 n_gt) ∧
  size (tp_gt m) + size (fn_ids m) = n_gt.
Proof.
  intros Htp Hfn.
  assert (Heq : tp_gt m ∪ fn_ids m = list_to_set (seq 1 n_gt)).
  { apply set_eq. intros x.
    rewrite elem_of_union, elem_of_list_to_set, elem_of_seq. split.
    - intros Hx.
      assert (∃ p, data G !! p = Some x ∧ 0 < x) as (p & Hp & Hx0).
      { destruct Hx as [Hx|Hx].
        - apply Htp in Hx as (p & g & ? & ? & ? & ?). eauto.
        - apply Hfn in Hx as [(p & g & ? & ? & ? & ?) _]. eauto. }
      apply label_range in Hp; [|apply gt_mask_wf]. lia.
    - intros Hx. destruct (label_onto gt_mask gt_mask_wf x) as [p Hp]; [lia|].
      destruct (proj1 (lookup_G_P p)) as [v Hv]; [by eexists|].
      destruct (decide (x ∈ tp_gt m)) as [|Hn]; [by left|right].
      apply Hfn. split; [|done].
      exists p, (if decide (v = 0) then 0 else v + n_gt).
      split; [done|]. split; [apply lookup_Nw; eauto|]. split; [lia|].
      case_decide as Hv0; [done|]. exfalso. apply Hn, Htp.
      exists p, v. repeat split; try done; lia. }
  split; [done|].
  rewrite <-size_union.
  - rewrite Heq, size_list_to_set by apply NoDup_seq. by rewrite length_seq.
  - intros x Hx Hx'. apply Hfn in Hx' as [_ Hx']. done.
Qed.
End CaseFacts.

(** The per-case function on volumes of different shapes. *)
Lemma compute_mismatch (labels preds : ndarray Z) (lesion_class : Z) :
  shape labels ≠ shape preds →
  compute_lesion_level_metrics labels preds lesion_class =
    match broadcast_shapes (shape labels) (shape preds) with
    | None => Raise ValueError
    | Some u =>
        if decide (index_fits u (shape labels) ∧ index_fits u (shape preds)) then
          if decide (instance_count labels lesion_class = 0 ∧
                     instance_count preds lesion_class = 0)
          then Ok (0, 0, 0, 0, 0) else Raise AssertionError
        else Raise IndexError
    end.
Proof.
  intros Hne. unfold compute_lesion_level_metrics. rewrite lesion_instances_eq.
  cbn [mbind result_bind gt_lesions predicted_lesions new_predicted_lesions
       n_gt_lesions n_predicted_lesions].
  rewrite overlap_matching_mismatch; [|done|by rewrite !label_shape].
  rewrite !label_shape. cbn [shape astype_int np_eq_scalar np_map].
  destruct (broadcast_shapes (shape labels) (shape preds)) as [u|]; [|done].
  case_decide; [|done]. cbn [mbind result_bind].
  unfold checked_counts, instance_count. cbn [tp_gt tp_pred fp_ids fn_ids].
  rewrite !size_empty.
  repeat case_decide; try done; try lia; repeat f_equal; lia.
Qed.

Lemma compute_mismatch_cases (labels preds : ndarray Z) (lesion_class : Z) :
  shape labels ≠ shape preds →
  (broadcast_shapes (shape labels) (shape preds) = None →
     compute_lesion_level_metrics labels preds lesion_class = Raise ValueError) ∧
  (is_Some (broadcast_shapes (shape labels) (shape preds)) →
   ¬ unchecked (shape labels) (shape preds) →
     compute_lesion_level_metrics labels preds lesion_class = Raise IndexError) ∧
  (unchecked (shape labels) (shape preds) →
   instance_count labels lesion_class ≠ 0 ∨ instance_count preds lesion_class ≠ 0 →
     compute_lesion_level_metrics labels preds lesion_class = Raise AssertionError) ∧
  (unchecked (shape labels) (shape preds) →
   instance_count labels lesion_class = 0 → instance_count preds lesion_class = 0 →
     compute_lesion_level_metrics labels preds lesion_class = Ok (0, 0, 0, 0, 0)).
Proof.
  intros Hne. rewrite (compute_mismatch labels preds lesion_class Hne).
  pose proof (unchecked_iff (shape labels) (shape preds)) as Hun.
  destruct (broadcast_shapes (shape labels) (shape preds)) as [u|] eqn:Hu.
  - assert (Hfit : unchecked (shape labels) (shape preds) ↔
                   index_fits u (shape labels) ∧ index_fits u (shape preds)).
    { rewrite Hun. split; [|by exists u].
      intros (u' & [= <-] & ? & ?). done. }
    split; [done|]. split; [|split].
    + intros _ Hnot. rewrite decide_False; [done|]. by rewrite <-Hfit.
    + intros Hyes%Hfit Hcount. rewrite decide_True by done.
      rewrite decide_False; [done|]. lia.
    + intros Hyes%Hfit H1 H2. rewrite decide_True by done.
      by rewrite decide_True.
  - split; [done|]. split; [by intros [? ?]|].
    split; intros (u & Hsome & _)%Hun; discriminate Hsome.
Qed.

(** ** Components of a mask in coordinates *)

Section ComponentFacts.
Context (mask : ndarray nat).
Hypothesis mask_wf : wf_array mask.

Local Abbreviation ones := (np_ones (3, 3, 3)).
Local Abbreviation lab := (label mask ones).1.
Local Abbreviation count := (label mask ones).2.
Local Abbreviation s := (shape mask).
Local Abbreviation edge := (edge (foreground mask) (neighbours (shape mask) ones)).
Local Abbreviation linked := (linked (foreground mask) (neighbours (shape mask) ones)).

Lemma foreground_size p : foreground mask p → p < size_of s.
Proof. intros Hp%foreground_lt. by rewrite <-mask_wf. Qed.

Lemma is_fg_iff c : is_fg mask c ↔ in_bounds s c ∧ foreground mask (ravel s c).
Proof.
  unfold is_fg, at_coord, foreground. split.
  - intros (v & Hv & Hv0). case_decide; [|done]. split; [done|].
    rewrite Hv. by apply bool_decide_pack.
  - intros [Hb Hf]. rewrite decide_True by done.
    destruct (data mask !! ravel s c) as [v|]; [|done].
    exists v. split; [done|]. by apply bool_decide_unpack in Hf.
Qed.

Lemma is_fg_unravel p : foreground mask p → is_fg mask (unravel s p).
Proof.
  intros Hp. pose proof (foreground_size p Hp) as Hlt. apply is_fg_iff.
  split; [by apply unravel_in_bounds|]. by rewrite ravel_unravel.
Qed.

Lemma edge_step26 p q : edge p q → p ≠ q → step26 mask (unravel s p) (unravel s q).
Proof.
  intros (Hp & Hq & Hpq) Hne.
  split; [by apply is_fg_unravel|]. split; [by apply is_fg_unravel|].
  apply elem_of_neighbours_ones in Hpq as (c' & Hc' & -> & H1 & H2 & H3).
  rewrite unravel_ravel by done. split; [|done].
  intros Heq. apply Hne. rewrite <-Heq. symmetry. apply ravel_unravel.
  by apply foreground_size.
Qed.

Lemma step26_edge c c' : step26 mask c c' → edge (ravel s c) (ravel s c').
Proof.
  intros ([Hb Hc]%is_fg_iff & [Hb' Hc']%is_fg_iff & _ & H1 & H2 & H3).
  split; [done|]. split; [done|]. apply elem_of_neighbours_ones.
  exists c'. rewrite unravel_ravel by done. done.
Qed.

Lemma linked_connected26 p q :
  linked p q → connected26 mask (unravel s p) (unravel s q).
Proof.
  induction 1 as [|x y z Hxy _ IH]; [apply rtc_refl|].
  destruct (decide (x = y)) as [->|Hne]; [done|].
  eapply rtc_l; [by apply edge_step26 | done].
Qed.

Lemma connected26_linked c c' :
  connected26 mask c c' → linked (ravel s c) (ravel s c').
Proof.
  induction 1 as [|x y z Hxy _ IH]; [apply rtc_refl|].
  eapply rtc_l; [by apply step26_edge | done].
Qed.

Lemma at_coord_label c :
  in_bounds s c → at_coord lab c = data lab !! ravel s c.
Proof.
  intros Hc. unfold at_coord. rewrite label_shape. by rewrite decide_True.
Qed.

Lemma label_at_fg c :
  is_fg mask c → ∃ v, at_coord lab c = Some v ∧ v ≠ 0.
Proof.
  intros [Hb Hf]%is_fg_iff. rewrite at_coord_label by done.
  destruct (lookup_lt_is_Some_2 (data lab) (ravel s c)) as [v Hv].
  { rewrite label_length by done. by apply foreground_lt. }
  exists v. split; [done|]. by apply (label_nonzero mask mask_wf _ _ Hv).
Qed.

(** Two foreground voxels carry one identifier exactly when they are in
    one component. *)
Lemma label_same_component c c' :
  is_fg mask c → is_fg mask c' →
  at_coord lab c = at_coord lab c' ↔ connected26 mask c c'.
Proof.
  intros Hc Hc'. destruct (label_at_fg c Hc) as (v & Hv & Hv0).
  pose proof Hc as [Hb _]%is_fg_iff. pose proof Hc' as [Hb' _]%is_fg_iff.
  rewrite Hv. rewrite at_coord_label in Hv by done.
  rewrite (at_coord_label c') by done.
  pose proof (label_class mask mask_wf _ (ravel s c') _ Hv Hv0) as Hcl. split.
  - intros Heq. symmetry in Heq. apply Hcl in Heq.
    apply linked_connected26 in Heq. by rewrite !unravel_ravel in Heq.
  - intros Hcon. symmetry. by apply Hcl, connected26_linked.
Qed.

Lemma choose_voxels (l : list nat) n :
  (∀ k, 1 ≤ k ≤ n → ∃ p, l !! p = Some k) →
  ∃ ps : list nat, length ps = n ∧ ∀ i p, ps !! i = Some p → l !! p = Some (S i).
Proof.
  induction n as [|n IH]; intros H.
  - exists []. split; [done|]. intros i p. by rewrite lookup_nil.
  - destruct IH as (ps & Hlen & Hps); [intros k Hk; apply H; lia|].
    destruct (H (S n)) as [p Hp]; [lia|].
    exists (ps ++ [p]). split; [rewrite length_app; simpl; lia|].
    intros i q Hq. apply lookup_app_Some in Hq as [Hq|[Hge Hq]]; [by apply Hps|].
    apply list_lookup_singleton_Some in Hq as [Hi ->].
    assert (i = n) as -> by lia. done.
Qed.

(** The returned count is the number of components. *)
Lemma label_component_count : component_count mask count.
Proof.
  destruct (choose_voxels (data lab) count) as (ps & Hlen & Hps).
  { apply label_onto. done. }
  exists (unravel s <$> ps). split; [by rewrite length_fmap|].
  assert (Hfg : ∀ i p, ps !! i = Some p → foreground mask p).
  { intros i p Hp. apply Hps in Hp.
    by apply (label_nonzero mask mask_wf _ _ Hp). }
  split; [|split].
  - intros r (p & -> & Hp)%list_elem_of_fmap.
    apply list_elem_of_lookup in Hp as [i Hp]. eapply is_fg_unravel, Hfg, Hp.
  - intros i j r r' Hr Hr' Hcon.
    apply list_lookup_fmap_Some_1 in Hr as (p & -> & Hp).
    apply list_lookup_fmap_Some_1 in Hr' as (p' & -> & Hp').
    apply connected26_linked in Hcon.
    rewrite !ravel_unravel in Hcon by (eapply foreground_size, Hfg; eauto).
    apply Hps in Hp as Hl. apply Hps in Hp' as Hl'.
    apply (label_class mask mask_wf _ _ _ Hl) in Hcon; [|done].
    congruence.
  - intros c Hc. pose proof Hc as [Hb Hf]%is_fg_iff.
    destruct (label_at_fg c Hc) as (v & Hv & Hv0).
    rewrite at_coord_label in Hv by done.
    pose proof (label_range mask mask_wf _ _ Hv) as Hle.
    destruct (lookup_lt_is_Some_2 ps (v - 1)) as [p0 Hp0]; [lia|].
    exists (unravel s p0). split.
    + apply list_elem_of_fmap. exists p0. split; [done|].
      by eapply list_elem_of_lookup_2.
    + apply Hps in Hp0 as Hl. replace (S (v - 1)) with v in Hl by lia.
      apply (label_class mask mask_wf _ (ravel s c) _ Hl) in Hv; [|done].
      apply linked_connected26 in Hv. by rewrite unravel_ravel in Hv.
Qed.
End ComponentFacts.

(** The number of components is determined by the mask. *)
Lemma connected26_sym mask c c' : connected26 mask c c' → connected26 mask c' c.
Proof.
  induction 1 as [|x y z (Hx & Hy & Hne & H1 & H2 & H3) _ IH]; [apply rtc_refl|].
  eapply rtc_r; [exact IH|]. split; [done|]. split; [done|].
  split; [done|]. auto using near_sym.
Qed.

Lemma choose_images {A B : Type} (R : A → B → Prop) (l : list A) :
  (∀ a, a ∈ l → ∃ b, R a b) → ∃ bs, Forall2 R l bs.
Proof.
  induction l as [|a l IH]; intros H; [by exists []|].
  destruct (H a) as [b Hb]; [by left|].
  destruct IH as [bs Hbs]; [intros x Hx; apply H; by right|].
  exists (b :: bs). by constructor.
Qed.

Lemma component_count_le mask n n' :
  component_count mask n → component_count mask n' → n ≤ n'.
Proof.
  intros (reps & Hlen & Hfg & Hsep & _) (reps' & Hlen' & _ & _ & Hcov).
  destruct (choose_images
              (λ r j, ∃ r', reps' !! j = Some r' ∧ connected26 mask r' r) reps)
    as [js Hjs].
  { intros r Hr. destruct (Hcov r (Hfg r Hr)) as (r' & Hr' & Hcon).
    apply list_elem_of_lookup in Hr' as [j Hj]. by exists j, r'. }
  rewrite <-Hlen, <-Hlen', (Forall2_length _ _ _ Hjs).
  trans (length (seq 0 (length reps'))); [|by rewrite length_seq].
  apply submseteq_length, NoDup_submseteq.
  - apply NoDup_alt. intros i k j Hi Hk.
    destruct (Forall2_lookup_r _ _ _ _ _ Hjs Hi) as (r1 & Hr1 & r' & Hr' & Hc1).
    destruct (Forall2_lookup_r _ _ _ _ _ Hjs Hk) as (r2 & Hr2 & r'' & Hr'' & Hc2).
    assert (r'' = r') as -> by congruence.
    apply (Hsep i k r1 r2 Hr1 Hr2).
    eapply rtc_trans; [apply connected26_sym; exact Hc1 | exact Hc2].
  - intros j [i Hj]%list_elem_of_lookup.
    destruct (Forall2_lookup_r _ _ _ _ _ Hjs Hj) as (r & _ & r' & Hr' & _).
    apply elem_of_seq. apply lookup_lt_Some in Hr'. lia.
Qed.

Lemma component_count_unique mask n n' :
  component_count mask n → component_count mask n' → n = n'.
Proof.
  intros H H'. pose proof (component_count_le mask n n' H H').
  pose proof (component_count_le mask n' n H' H). lia.
Qed.

(** * Instance extraction *)

(** C6.  On every well-formed mask, [label] with the all-ones 3x3x3
    structuring element returns an instance map of the shape of the mask and
    a count that is the number of components under 26-connectivity, a
    number the mask determines: the map is zero exactly on the background, two foreground voxels carry the same
    identifier exactly when a chain of 26-neighbouring foreground voxels
    joins them, and a mask without foreground gives count 0 and an all-zero
    map. *)
Theorem label_counts_26_connected_components (mask : ndarray nat) :
  wf_array mask →
  let lab := (label mask (np_ones (3, 3, 3))).1 in
  let n := (label mask (np_ones (3, 3, 3))).2 in
  shape lab = shape mask ∧
  wf_array lab ∧
  component_count mask n ∧
  (∀ n', component_count mask n' → n' = n) ∧
  (∀ c v, at_coord lab c = Some v → v = 0 ↔ ¬ is_fg mask c) ∧
  (∀ c c', is_fg mask c → is_fg mask c' →
           at_coord lab c = at_coord lab c' ↔ connected26 mask c c') ∧
  ((∀ c, ¬ is_fg mask c) → n = 0 ∧ ∀ v, v ∈ data lab → v = 0).
Proof.
  intros Hwf lab n.
  assert (Hzero : ∀ c v, at_coord lab c = Some v → v = 0 ↔ ¬ is_fg mask c).
  { intros c v Hv. split.
    - intros -> Hc. destruct (label_at_fg mask Hwf c Hc) as (w & Hw & Hw0).
      unfold lab in Hv. congruence.
    - intros Hc. destruct (decide (v = 0)) as [|Hv0]; [done|]. exfalso. apply Hc.
      unfold at_coord in Hv. case_decide as Hb; [|done].
      unfold lab in Hb, Hv. rewrite label_shape in Hb, Hv.
      apply is_fg_iff. split; [done|].
      by apply (label_nonzero mask Hwf _ _ Hv). }
  split; [apply label_shape|]. split; [by apply label_wf|].
  split; [by apply label_component_count|].
  split.
  { intros n' Hn'. apply (component_count_unique mask n' n Hn').
    by apply label_component_count. }
  split; [done|]. split; [by apply label_same_component|].
  intros Hempty. split.
  - destruct (label_component_count mask Hwf) as (reps & Hlen & Hfg & _).
    destruct reps as [|r reps]; [done|]. exfalso. apply (Hempty r), Hfg. by left.
  - intros v [p Hp]%list_elem_of_lookup.
    destruct (decide (v = 0)) as [|Hv0]; [done|]. exfalso.
    apply (label_nonzero mask Hwf _ _ Hp) in Hv0.
    apply (Hempty (unravel (shape mask) p)). by apply is_fg_unravel.
Qed.

Lemma label_counts_26_connected_components_witness :
  let mask := NdArray (2, 2, 2) [1; 0; 0; 0; 0; 0; 0; 1] in
  component_count mask (label mask (np_ones (3, 3, 3))).2.
Proof.
  intros mask.
  apply (label_counts_26_connected_components mask). reflexivity.
Defined.

(** The hand-constructed masks: one voxel, two voxels sharing a face, two
    voxels sharing only a corner, two voxels separated by an empty voxel,
    and the empty mask. *)
Example label_single_voxel :
  label (NdArray (3, 3, 3) (<[13 := 1]> (replicate 27 0))) (np_ones (3, 3, 3)) =
  (NdArray (3, 3, 3) (<[13 := 1]> (replicate 27 0)), 1).
Proof. vm_compute. reflexivity. Qed.

Example label_face_adjacent :
  label (NdArray (1, 1, 2) [1; 1]) (np_ones (3, 3, 3)) = (NdArray (1, 1, 2) [1; 1], 1).
Proof. vm_compute. reflexivity. Qed.

Example label_corner_adjacent :
  label (NdArray (2, 2, 2) [1; 0; 0; 0; 0; 0; 0; 1]) (np_ones (3, 3, 3)) =
  (NdArray (2, 2, 2) [1; 0; 0; 0; 0; 0; 0; 1], 1).
Proof. vm_compute. reflexivity. Qed.

Example label_separated :
  label (NdArray (1, 1, 3) [1; 0; 1]) (np_ones (3, 3, 3)) = (NdArray (1, 1, 3) [1; 0; 2], 2).
Proof. vm_compute. reflexivity. Qed.

Example label_empty_mask :
  label (NdArray (2, 2, 2) (replicate 8 0)) (np_ones (3, 3, 3)) =
  (NdArray (2, 2, 2) (replicate 8 0), 0).
Proof. vm_compute. reflexivity. Qed.

(** * Disjoint identifiers *)

(** C7.  For any numbers of instances on the two sides and any predicted
    instance map whose identifiers are at most [n_pred], the relabelling loop
    succeeds and returns a map of the same shape in which the background is
    kept and every other identifier is the original one plus [n_gt]; its
    non-zero identifiers lie in [n_gt + 1, n_gt + n_pred], outside the
    ground-truth range [1, n_gt], and two entries with one new identifier
    had one identifier before. *)
Theorem relabel_shifts_identifiers (predicted : ndarray nat) (n_pred n_gt : nat) :
  (∀ p v, data predicted !! p = Some v → v ≤ n_pred) →
  ∃ new, relabel predicted n_pred n_gt = Ok new ∧
    shape new = shape predicted ∧
    length (data new) = length (data predicted) ∧
    (∀ p v, data predicted !! p = Some v →
            data new !! p = Some (if decide (v = 0) then 0 else v + n_gt)) ∧
    (∀ p x, data new !! p = Some x → x ≠ 0 →
            n_gt + 1 ≤ x ≤ n_gt + n_pred ∧ ¬ (1 ≤ x ≤ n_gt)) ∧
    (∀ p q x, data new !! p = Some x → data new !! q = Some x →
              data predicted !! p = data predicted !! q).
Proof.
  intros Hrange. rewrite relabel_spec. eexists. split; [reflexivity|].
  cbn [shape data]. split; [done|]. split; [by rewrite length_fmap|].
  assert (Hnew : ∀ p x,
    ((λ v, if decide (1 ≤ v ≤ n_pred) then v + n_gt else v) <$> data predicted) !! p
      = Some x →
    ∃ v, data predicted !! p = Some v ∧ x = if decide (v = 0) then 0 else v + n_gt).
  { intros p x. rewrite list_lookup_fmap.
    destruct (data predicted !! p) as [v|] eqn:Hv; [|done]. simpl. intros [= <-].
    exists v. split; [done|]. apply Hrange in Hv. repeat case_decide; lia. }
  split; [|split].
  - intros p v Hv. rewrite list_lookup_fmap, Hv. simpl. f_equal.
    apply Hrange in Hv. repeat case_decide; lia.
  - intros p x (v & Hv & ->)%Hnew Hx. apply Hrange in Hv.
    case_decide; [done|]. lia.
  - intros p q x (v & Hv & ->)%Hnew (w & Hw & Hx)%Hnew.
    rewrite Hv, Hw. f_equal. repeat case_decide; lia.
Qed.

Lemma relabel_shifts_identifiers_witness :
  ∃ new, relabel (NdArray (1, 1, 4) [1; 0; 2; 2]) 2 3 = Ok new ∧
         data new = [4; 0; 5; 5].
Proof.
  destruct (relabel_shifts_identifiers (NdArray (1, 1, 4) [1; 0; 2; 2]) 2 3)
    as (new & Hnew & _).
  - intros [|[|[|[|p]]]] v; simpl; intros [= <-]; lia.
  - exists new. split; [exact Hnew|]. vm_compute in Hnew. by injection Hnew as <-.
Defined.

(** * Overlap matching *)

Lemma checked_counts_Ok n_gt n_pred m :
  size (tp_pred m) + size (fp_ids m) = n_pred →
  size (tp_gt m) + size (fn_ids m) = n_gt →
  checked_counts n_gt n_pred m =
  Ok (n_gt, n_pred, size (tp_gt m), size (fp_ids m), size (fn_ids m)).
Proof. intros H1 H2. unfold checked_counts. by rewrite !decide_True. Qed.

(** C1.  For well-formed volumes of one shape and any lesion class, the two
    sides of the matching add up: matched predicted identifiers plus false
    positives is the number of predicted instances, matched ground-truth
    identifiers plus false negatives is the number of ground-truth instances.
    Both assertions pass and the function returns its five counts. *)
Theorem matching_identities_hold (labels preds : ndarray Z) (lesion_class : Z) :
  wf_array labels → wf_array preds → shape labels = shape preds →
  ∃ inst m,
    lesion_instances labels preds lesion_class = Ok inst ∧
    overlap_matching (gt_lesions inst) (predicted_lesions inst)
                     (new_predicted_lesions inst) = Ok m ∧
    size (tp_pred m) + size (fp_ids m) = n_predicted_lesions inst ∧
    size (tp_gt m) + size (fn_ids m) = n_gt_lesions inst ∧
    compute_lesion_level_metrics labels preds lesion_class =
      Ok (n_gt_lesions inst, n_predicted_lesions inst,
          size (tp_gt m), size (fp_ids m), size (fn_ids m)) ∧
    compute_lesion_level_metrics labels preds lesion_class ≠ Raise AssertionError.
Proof.
  intros Hl Hp Hs.
  destruct (matching_exists labels preds lesion_class Hl Hp Hs)
    as (m & Hm & Htg & Htp & Hfp & Hfn).
  destruct (predicted_side labels preds lesion_class Hl Hp Hs m Htp Hfp) as [_ H1].
  destruct (ground_truth_side labels preds lesion_class Hl Hp Hs m Htg Hfn) as [_ H2].
  eexists _, m. split; [by apply lesion_instances_eq|]. cbn [gt_lesions
    predicted_lesions new_predicted_lesions n_gt_lesions n_predicted_lesions].
  split; [exact Hm|]. split; [exact H1|]. split; [exact H2|].
  assert (Hc : compute_lesion_level_metrics labels preds lesion_class =
    Ok ((label (astype_int (np_eq_scalar labels lesion_class)) (np_ones (3, 3, 3))).2,
        (label (astype_int (np_eq_scalar preds lesion_class)) (np_ones (3, 3, 3))).2,
        size (tp_gt m), size (fp_ids m), size (fn_ids m))).
  { unfold compute_lesion_level_metrics. rewrite lesion_instances_eq.
    cbn [mbind result_bind gt_lesions predicted_lesions new_predicted_lesions
         n_gt_lesions n_predicted_lesions].
    rewrite Hm. cbn [mbind result_bind]. by apply checked_counts_Ok. }
  split; [exact Hc|]. by rewrite Hc.
Qed.

Lemma matching_identities_hold_witness :
  compute_lesion_level_metrics (NdArray (1, 1, 5) [2; 0; 2; 2; 0]%Z)
                               (NdArray (1, 1, 5) [2; 2; 2; 0; 2]%Z) 2
  ≠ Raise AssertionError.
Proof.
  destruct (matching_identities_hold (NdArray (1, 1, 5) [2; 0; 2; 2; 0]%Z)
              (NdArray (1, 1, 5) [2; 2; 2; 0; 2]%Z) 2)
    as (inst & m & _ & _ & _ & _ & _ & H); [reflexivity..|exact H].
Defined.

(** C3.  The reported true-positive count is the number of ground-truth
    identifiers that share a voxel with some predicted instance.  When the
    single predicted instance overlaps every one of the [k >= 1] ground-truth
    instances, the count is [k], that predicted identifier is the only
    matched one and there are no false positives or negatives; when the
    single ground-truth instance is overlapped by predicted voxels, the
    count is 1, however many predicted instances overlap it. *)
Theorem true_positive_counts_ground_truth_instances
    (labels preds : ndarray Z) (lesion_class : Z) :
  wf_array labels → wf_array preds → shape labels = shape preds →
  ∃ inst m,
    lesion_instances labels preds lesion_class = Ok inst ∧
    overlap_matching (gt_lesions inst) (predicted_lesions inst)
                     (new_predicted_lesions inst) = Ok m ∧
    compute_lesion_level_metrics labels preds lesion_class =
      Ok (n_gt_lesions inst, n_predicted_lesions inst,
          size (tp_gt m), size (fp_ids m), size (fn_ids m)) ∧
    (∀ g, g ∈ tp_gt m ↔
            0 < g ∧ ∃ p v, data (gt_lesions inst) !! p = Some g ∧
                           data (predicted_lesions inst) !! p = Some v ∧ 0 < v) ∧
    (n_predicted_lesions inst = 1 → 1 ≤ n_gt_lesions inst →
     (∀ g, 1 ≤ g ≤ n_gt_lesions inst →
           ∃ p v, data (gt_lesions inst) !! p = Some g ∧
                  data (predicted_lesions inst) !! p = Some v ∧ 0 < v) →
     size (tp_gt m) = n_gt_lesions inst ∧
     tp_pred m = {[ n_gt_lesions inst + 1 ]} ∧
     size (fp_ids m) = 0 ∧ size (fn_ids m) = 0) ∧
    (n_gt_lesions inst = 1 →
     (∃ p g v, data (gt_lesions inst) !! p = Some g ∧
               data (predicted_lesions inst) !! p = Some v ∧ 0 < g ∧ 0 < v) →
     size (tp_gt m) = 1).
Proof.
  intros Hl Hp Hs.
  destruct (matching_identities_hold labels preds lesion_class Hl Hp Hs)
    as (inst & m & Hinst & Hm & _ & _ & Hc & _).
  exists inst, m. split; [done|]. split; [done|]. split; [done|].
  rewrite lesion_instances_eq in Hinst by done. injection Hinst as <-.
  cbn [gt_lesions predicted_lesions new_predicted_lesions n_gt_lesions
       n_predicted_lesions] in *.
  destruct (matching_exists labels preds lesion_class Hl Hp Hs)
    as (m' & Hm' & Htg & Htp & Hfp & Hfn).
  assert (m' = m) as -> by congruence.
  destruct (predicted_side labels preds lesion_class Hl Hp Hs m Htp Hfp) as [Hu1 H1].
  destruct (ground_truth_side labels preds lesion_class Hl Hp Hs m Htg Hfn) as [Hu2 H2].
  split; [|split].
  - intros g. rewrite Htg. split.
    + intros (p & v & ? & ? & ? & ?). eauto 10.
    + intros (? & p & v & ? & ? & ?). eauto 10.
  - intros Hn1 Hk Hov.
    assert (Ht : tp_gt m = list_to_set (seq 1
      (label (astype_int (np_eq_scalar labels lesion_class)) (np_ones (3, 3, 3))).2)).
    { apply set_eq. intros x. split.
      - intros Hx. rewrite <-Hu2. apply elem_of_union. by left.
      - intros Hx%elem_of_list_to_set%elem_of_seq.
        destruct (Hov x) as (p & v & ? & ? & ?); [lia|].
        apply Htg. exists p, v. repeat split; try done; lia. }
    assert (Hst : size (tp_gt m) =
      (label (astype_int (np_eq_scalar labels lesion_class)) (np_ones (3, 3, 3))).2).
    { rewrite Ht, size_list_to_set by apply NoDup_seq. by rewrite length_seq. }
    assert (Hp1 : tp_pred m = {[
      (label (astype_int (np_eq_scalar labels lesion_class)) (np_ones (3, 3, 3))).2 + 1 ]}).
    { apply set_eq. intros x. rewrite elem_of_singleton. split.
      - intros Hx. assert (Hx' : x ∈ tp_pred m ∪ fp_ids m) by (apply elem_of_union; by left).
        rewrite Hu1, Hn1 in Hx'. apply elem_of_list_to_set, elem_of_seq in Hx'. lia.
      - intros ->. destruct (Hov 1) as (p & v & HG & HP & Hv); [lia|].
        apply Htp. exists p, 1. split; [|split; [done|lia]].
        apply (lookup_Nw labels preds lesion_class Hp). exists v. split; [done|].
        apply label_range in HP; [|by apply pred_mask_wf].
        rewrite Hn1 in HP. case_decide; lia. }
    split; [done|]. split; [done|].
    rewrite Hp1, size_singleton in H1. lia.
  - intros Hn1 (p & g & v & HG & HP & Hg & Hv).
    assert (Hin : g ∈ tp_gt m) by (apply Htg; eauto 10).
    destruct (decide (size (tp_gt m) = 0)) as [Hz|Hz]; [|lia].
    apply size_empty_inv in Hz. by apply Hz in Hin.
Qed.

Lemma true_positive_counts_ground_truth_instances_witness :
  compute_lesion_level_metrics (NdArray (1, 1, 5) [2; 0; 2; 0; 2]%Z)
                               (NdArray (1, 1, 5) [2; 2; 2; 2; 2]%Z) 2
  = Ok (3, 1, 3, 0, 0).
Proof.
  destruct (true_positive_counts_ground_truth_instances
              (NdArray (1, 1, 5) [2; 0; 2; 0; 2]%Z)
              (NdArray (1, 1, 5) [2; 2; 2; 2; 2]%Z) 2)
    as (inst & m & Hinst & Hm & Hc & _); [reflexivity..|].
  rewrite Hc. vm_compute in Hinst. injection Hinst as <-.
  vm_compute in Hm. injection Hm as <-. vm_compute. reflexivity.
Defined.

(** Scenario C: one ground-truth lesion, two predicted fragments. *)
Example one_lesion_two_fragments :
  compute_lesion_level_metrics (NdArray (1, 1, 5) [2; 2; 2; 2; 2]%Z)
                               (NdArray (1, 1, 5) [2; 2; 0; 2; 2]%Z) 2
  = Ok (1, 2, 1, 0, 0).
Proof. vm_compute. reflexivity. Qed.

Lemma gt_label_zero_iff (labels : ndarray Z) (lesion_class : Z) p g z :
  wf_array labels →
  data (label (astype_int (np_eq_scalar labels lesion_class)) (np_ones (3, 3, 3))).1 !! p
    = Some g →
  data labels !! p = Some z →
  g = 0 ↔ z ≠ lesion_class.
Proof.
  intros Hwf Hg Hz.
  rewrite (label_zero_iff _ (gt_mask_wf labels lesion_class Hwf) p g
             (if bool_decide (z = lesion_class) then 1 else 0) Hg).
  - case_bool_decide; split; try done; lia.
  - simpl. rewrite !list_lookup_fmap, Hz. done.
Qed.

(** C5.  The false-positive set is exactly the set of (relabelled)
    predicted identifiers all of whose voxels lie where the ground-truth
    volume does not carry the lesion class; every predicted instance has a
    voxel, so an instance without any overlap is always a false positive.
    The reported false-positive count is the size of that set. *)
Theorem false_positives_lie_on_background
    (labels preds : ndarray Z) (lesion_class : Z) :
  wf_array labels → wf_array preds → shape labels = shape preds →
  ∃ inst m,
    lesion_instances labels preds lesion_class = Ok inst ∧
    overlap_matching (gt_lesions inst) (predicted_lesions inst)
                     (new_predicted_lesions inst) = Ok m ∧
    compute_lesion_level_metrics labels preds lesion_class =
      Ok (n_gt_lesions inst, n_predicted_lesions inst,
          size (tp_gt m), size (fp_ids m), size (fn_ids m)) ∧
    (∀ v, 1 ≤ v ≤ n_predicted_lesions inst →
          ∃ p, data (predicted_lesions inst) !! p = Some v) ∧
    (∀ x, x ∈ fp_ids m ↔
          ∃ v, 1 ≤ v ≤ n_predicted_lesions inst ∧ x = v + n_gt_lesions inst ∧
               ∀ p, data (predicted_lesions inst) !! p = Some v →
                    ∃ z, data labels !! p = Some z ∧ z ≠ lesion_class).
Proof.
  intros Hl Hp Hs.
  destruct (matching_identities_hold labels preds lesion_class Hl Hp Hs)
    as (inst & m & Hinst & Hm & _ & _ & Hc & _).
  exists inst, m. split; [done|]. split; [done|]. split; [done|].
  rewrite lesion_instances_eq in Hinst by done. injection Hinst as <-.
  cbn [gt_lesions predicted_lesions new_predicted_lesions n_gt_lesions
       n_predicted_lesions] in *.
  destruct (matching_exists labels preds lesion_class Hl Hp Hs)
    as (m' & Hm' & Htg & Htp & Hfp & Hfn).
  assert (m' = m) as -> by congruence.
  pose proof (label_onto _ (pred_mask_wf preds lesion_class Hp)) as Honto.
  pose proof (lookup_Nw labels preds lesion_class Hp) as HNw.
  pose proof (lookup_G_P labels preds lesion_class Hl Hp Hs) as HGP.
  assert (Hlab : ∀ p g, data (label (astype_int (np_eq_scalar labels lesion_class))
                                  (np_ones (3, 3, 3))).1 !! p = Some g →
                        ∃ z, data labels !! p = Some z ∧ (g = 0 ↔ z ≠ lesion_class)).
  { intros p g Hg. destruct (lookup_lt_is_Some_2 (data labels) p) as [z Hz].
    { rewrite Hl, <-(length_G labels lesion_class Hl). by eapply lookup_lt_Some. }
    exists z. split; [done|].
    exact (gt_label_zero_iff labels lesion_class p g z Hl Hg Hz). }
  split; [exact Honto|]. intros x. rewrite Hfp. split.
  - intros [(p & g & Hx & Hg & -> & Hx0) Hntp].
    apply HNw in Hx as (v & Hv & ->).
    pose proof (label_range _ (pred_mask_wf preds lesion_class Hp) _ _ Hv) as Hle.
    exists v. case_decide; [lia|]. split; [lia|]. split; [done|].
    intros q Hq. destruct (proj2 (HGP q)) as [g' Hg']; [by eexists|].
    destruct (Hlab q g' Hg') as (z & Hz & Hiff). exists z. split; [done|].
    apply Hiff. destruct (decide (g' = 0)) as [|Hne]; [done|]. exfalso.
    apply Hntp, Htp. exists q, g'. split.
    + apply HNw. exists v. split; [done|]. by rewrite decide_False.
    + split; [done|]. lia.
  - intros (v & Hv & -> & Hall). destruct (Honto v Hv) as [p Hp'].
    destruct (proj2 (HGP p)) as [g Hg]; [by eexists|].
    destruct (Hlab p g Hg) as (z & Hz & Hiff).
    destruct (Hall p Hp') as (z' & Hz' & Hne). assert (z' = z) as -> by congruence.
    split.
    + exists p, g. split.
      * apply HNw. exists v. split; [done|]. rewrite decide_False; [done|lia].
      * split; [done|]. split; [by apply Hiff | lia].
    + intros (q & g' & Hq & Hg' & Hg0 & _)%Htp.
      apply HNw in Hq as (w & Hw & Hx).
      assert (w = v) as -> by (case_decide; lia).
      destruct (Hall q Hw) as (y & Hy & Hyne).
      destruct (Hlab q g' Hg') as (y' & Hy' & Hiff').
      assert (y' = y) as -> by congruence. apply Hiff' in Hyne. lia.
Qed.

Lemma false_positives_lie_on_background_witness :
  compute_lesion_level_metrics (NdArray (1, 1, 5) [2; 0; 1; 0; 0]%Z)
                               (NdArray (1, 1, 5) [0; 0; 2; 2; 0]%Z) 2
  = Ok (1, 1, 0, 1, 1).
Proof.
  destruct (false_positives_lie_on_background
              (NdArray (1, 1, 5) [2; 0; 1; 0; 0]%Z)
              (NdArray (1, 1, 5) [0; 0; 2; 2; 0]%Z) 2)
    as (inst & m & Hinst & Hm & Hc & _); [reflexivity..|].
  rewrite Hc. vm_compute in Hinst. injection Hinst as <-.
  vm_compute in Hm. injection Hm as <-. vm_compute. reflexivity.
Defined.

(** * The detection score *)

Lemma truediv_bounds (a b : nat) :
  a ≤ b → b ≠ 0 →
  (0 <= inject_Z (Z.of_nat a) / inject_Z (Z.of_nat b) <= 1)%Q.
Proof.
  intros Hab Hb.
  assert (H0 : (0 < inject_Z (Z.of_nat b))%Q).
  { change 0%Q with (inject_Z 0). rewrite <-Zlt_Qlt. lia. }
  split.
  - apply Qle_shift_div_l; [done|]. rewrite Qmult_0_l.
    change 0%Q with (inject_Z 0). rewrite <-Zle_Qle. lia.
  - apply Qle_shift_div_r; [done|]. rewrite Qmult_1_l. rewrite <-Zle_Qle. lia.
Qed.

Lemma f1_score_spec (tp fp fn : nat) :
  (2 * tp + fp + fn ≠ 0 →
   f1_score tp fp fn =
     Ok (Float (inject_Z (Z.of_nat (2 * tp)) / inject_Z (Z.of_nat (2 * tp + fp + fn)))%Q) ∧
   (0 <= inject_Z (Z.of_nat (2 * tp)) / inject_Z (Z.of_nat (2 * tp + fp + fn)) <= 1)%Q) ∧
  (2 * tp + fp + fn = 0 → f1_score tp fp fn = Ok NaN) ∧
  (f1_score tp fp fn = Ok NaN ↔ tp = 0 ∧ fp = 0 ∧ fn = 0).
Proof.
  unfold f1_score, truediv. split; [|split].
  - intros Hne. rewrite decide_False by done. split; [done|].
    apply truediv_bounds; lia.
  - intros Hz. by rewrite decide_True.
  - case_decide as Hd; [split; [lia|done]|]. split; [done|lia].
Qed.

(** The loop over the cases collects one record per case, in order, and
    stops at the first case whose record cannot be computed. *)
Lemma lesion_level_records_app ids labels_dict preds_dict lesion_class acc :
  for_each
    (λ lesion_level_metrics case,
       r ← case_record labels_dict preds_dict lesion_class case;
       Ok (lesion_level_metrics ++ [r]))
    ids acc =
  (rs ← lesion_level_records ids labels_dict preds_dict lesion_class; Ok (acc ++ rs)).
Proof.
  unfold lesion_level_records. revert acc.
  induction ids as [|case ids IH]; intros acc; cbn [for_each mbind result_bind].
  - by rewrite app_nil_r.
  - destruct (case_record labels_dict preds_dict lesion_class case) as [r|e];
      cbn [mbind result_bind]; [|done].
    rewrite (IH (acc ++ [r])), (IH ([] ++ [r])).
    destruct (for_each _ ids []) as [rs|e]; cbn [mbind result_bind]; [|done].
    by rewrite <-app_assoc.
Qed.

Lemma lesion_level_records_cons case ids labels_dict preds_dict lesion_class :
  lesion_level_records (case :: ids) labels_dict preds_dict lesion_class =
  (r ← case_record labels_dict preds_dict lesion_class case;
   rs ← lesion_level_records ids labels_dict preds_dict lesion_class;
   Ok (r :: rs)).
Proof.
  unfold lesion_level_records at 1. cbn [for_each].
  destruct (case_record labels_dict preds_dict lesion_class case) as [r|e];
    cbn [mbind result_bind]; [|done].
  by rewrite lesion_level_records_app.
Qed.

Lemma lesion_level_records_Ok ids labels_dict preds_dict lesion_class rs :
  lesion_level_records ids labels_dict preds_dict lesion_class = Ok rs →
  Forall2 (λ case r, case_record labels_dict preds_dict lesion_class case = Ok r) ids rs.
Proof.
  revert rs. induction ids as [|case ids IH]; intros rs.
  - intros [= <-]. constructor.
  - rewrite lesion_level_records_cons.
    destruct (case_record labels_dict preds_dict lesion_class case) as [r|e] eqn:Hr;
      cbn [mbind result_bind]; [|done].
    destruct (lesion_level_records ids labels_dict preds_dict lesion_class) as [rs'|e];
      cbn [mbind result_bind]; [|done].
    intros [= <-]. constructor; [done|]. by apply IH.
Qed.

(** A case whose record cannot be computed makes the loop raise the
    exception of one of its cases. *)
Lemma lesion_level_records_Raise ids labels_dict preds_dict lesion_class case e :
  case ∈ ids →
  case_record labels_dict preds_dict lesion_class case = Raise e →
  ∃ e' c, lesion_level_records ids labels_dict preds_dict lesion_class = Raise e' ∧
          c ∈ ids ∧ case_record labels_dict preds_dict lesion_class c = Raise e'.
Proof.
  induction ids as [|c ids IH]; [by intros ?%not_elem_of_nil|].
  intros Hin He. rewrite lesion_level_records_cons.
  destruct (case_record labels_dict preds_dict lesion_class c) as [r|e0] eqn:Hr;
    cbn [mbind result_bind].
  - apply elem_of_cons in Hin as [->|Hin]; [congruence|].
    destruct (IH Hin He) as (e' & c' & -> & Hc' & He').
    exists e', c'. split; [done|]. split; [by right | done].
  - exists e0, c. split; [done|]. split; [by left | done].
Qed.

Lemma case_record_key labels_dict preds_dict lesion_class case r :
  case_record labels_dict preds_dict lesion_class case = Ok r →
  key_of "case_id" r = Some (CStr case).
Proof.
  unfold case_record.
  destruct (dict_get labels_dict case) as [l|]; cbn [mbind result_bind]; [|done].
  destruct (dict_get preds_dict case) as [p|]; cbn [mbind result_bind]; [|done].
  destruct (compute_lesion_level_metrics l p lesion_class) as [[[[[? ?] ?] ?] ?]|];
    cbn [mbind result_bind]; [|done].
  destruct (f1_score _ _ _); cbn [mbind result_bind]; [|done].
  by intros [= <-].
Qed.





(** Scenarios A and B of the specification. *)
Example missed_single_lesion :
  case_record [("c1", NdArray (1, 1, 3) [2; 2; 0]%Z)]
              [("c1", NdArray (1, 1, 3) [0; 0; 0]%Z)] 2 "c1"
  = Ok (lesion_record "c1" "new" 1 0 0 0 1 (Float (0 # 1))).
Proof. vm_compute. reflexivity. Qed.

Example identical_single_lesion :
  case_record [("c1", NdArray (1, 1, 3) [2; 2; 0]%Z)]
              [("c1", NdArray (1, 1, 3) [2; 2; 0]%Z)] 2 "c1"
  = Ok (lesion_record "c1" "new" 1 1 1 0 0 (Float (2 # 2))).
Proof. vm_compute. reflexivity. Qed.

(** * Shape mismatch *)

(** C8 (as amended).  When the two volumes of a case differ in shape, the
    per-case function raises [ValueError] if the shapes cannot be broadcast,
    and [IndexError] if they can but a broadcast mask fails the check
    against one of the instance maps, which is the case unless the shapes
    differ only by axes of length one against length zero.  For such a
    pair the check is skipped and every index selects nothing: the call
    fails an assertion when either volume has an instance of the class, and
    otherwise returns five zeros, so the case gets a record with the NaN
    score and nothing tells of the mismatch.  The loop over the cases
    catches none of these exceptions: when the call raises for a listed
    case, the record of the case raises the same exception, and the cohort
    computation raises the exception of one of its cases instead of
    returning a table. *)
Theorem shape_mismatch_aborts_cohort
    (labels_dict preds_dict : dict (ndarray Z)) (lesion_class : Z)
    (ids : list string) (case : string) (labels preds : ndarray Z) :
  case ∈ ids →
  dict_get labels_dict case = Ok labels →
  dict_get preds_dict case = Ok preds →
  shape labels ≠ shape preds →
  (broadcast_shapes (shape labels) (shape preds) = None →
     compute_lesion_level_metrics labels preds lesion_class = Raise ValueError) ∧
  (is_Some (broadcast_shapes (shape labels) (shape preds)) →
   ¬ unchecked (shape labels) (shape preds) →
     compute_lesion_level_metrics labels preds lesion_class = Raise IndexError) ∧
  (unchecked (shape labels) (shape preds) →
   instance_count labels lesion_class ≠ 0 ∨ instance_count preds lesion_class ≠ 0 →
     compute_lesion_level_metrics labels preds lesion_class = Raise AssertionError) ∧
  (unchecked (shape labels) (shape preds) →
   instance_count labels lesion_class = 0 → instance_count preds lesion_class = 0 →
     compute_lesion_level_metrics labels preds lesion_class = Ok (0, 0, 0, 0, 0) ∧
     case_record labels_dict preds_dict lesion_class case =
       Ok (lesion_record case (if decide (lesion_class = 2%Z) then "new" else "basal")
                         0 0 0 0 0 NaN)) ∧
  (∀ e, compute_lesion_level_metrics labels preds lesion_class = Raise e →
     case_record labels_dict preds_dict lesion_class case = Raise e ∧
     ∃ e', compute_all_lesion_level_metrics ids labels_dict preds_dict lesion_class
             = Raise e' ∧
           ∃ c, c ∈ ids ∧
                case_record labels_dict preds_dict lesion_class c = Raise e').
Proof.
  intros Hin Hdl Hdp Hne.
  destruct (compute_mismatch_cases labels preds lesion_class Hne)
    as (Hvalue & Hindex & Hassert & Hsilent).
  split; [exact Hvalue|]. split; [exact Hindex|]. split; [exact Hassert|]. split.
  - intros Hun H1 H2. split; [by apply Hsilent|].
    unfold case_record. rewrite Hdl, Hdp. cbn [mbind result_bind].
    rewrite (Hsilent Hun H1 H2). reflexivity.
  - intros e He.
    assert (Hrec : case_record labels_dict preds_dict lesion_class case = Raise e).
    { unfold case_record. rewrite Hdl, Hdp. cbn [mbind result_bind]. by rewrite He. }
    split; [exact Hrec|].
    destruct (lesion_level_records_Raise ids labels_dict preds_dict lesion_class case e
                Hin Hrec) as (e' & c & Hrs & Hc & He').
    exists e'. split; [|by exists c].
    unfold compute_all_lesion_level_metrics. by rewrite Hrs.
Qed.

Lemma shape_mismatch_aborts_cohort_witness :
  compute_lesion_level_metrics (NdArray (1, 1, 2) [2; 0]%Z)
                               (NdArray (1, 1, 3) [2; 0; 0]%Z) 2 = Raise ValueError ∧
  ∃ e, compute_all_lesion_level_metrics ["c1"; "c2"]
         [("c1", NdArray (1, 1, 2) [2; 0]%Z); ("c2", NdArray (1, 1, 2) [2; 0]%Z)]
         [("c1", NdArray (1, 1, 2) [2; 0]%Z); ("c2", NdArray (1, 1, 3) [2; 0; 0]%Z)]
         2 = Raise e.
Proof.
  destruct (shape_mismatch_aborts_cohort
              [("c1", NdArray (1, 1, 2) [2; 0]%Z); ("c2", NdArray (1, 1, 2) [2; 0]%Z)]
              [("c1", NdArray (1, 1, 2) [2; 0]%Z); ("c2", NdArray (1, 1, 3) [2; 0; 0]%Z)]
              2 ["c1"; "c2"] "c2"
              (NdArray (1, 1, 2) [2; 0]%Z) (NdArray (1, 1, 3) [2; 0; 0]%Z))
    as (Hvalue & _ & _ & _ & Hloop).
  - right. left.
  - reflexivity.
  - reflexivity.
  - discriminate.
  - assert (Hv := Hvalue eq_refl). split; [exact Hv|].
    destruct (Hloop ValueError Hv) as (_ & e' & He' & _). by exists e'.
Defined.

(** The claim as the specification states it fails.  A cohort of two cases
    whose first case has volumes of different shapes gives no table at all,
    although the second case alone is computed without error.  A case whose
    label volume has no voxel is not reported either: it fails an assertion
    when the prediction has a lesion, and gets an ordinary record when it
    has none. *)
Lemma shape_mismatch_is_not_recorded :
  compute_all_lesion_level_metrics ["c1"; "c2"]
    [("c1", NdArray (1, 1, 1) [2]%Z); ("c2", NdArray (1, 1, 2) [2; 0]%Z)]
    [("c1", NdArray (1, 1, 2) [2; 0]%Z); ("c2", NdArray (1, 1, 2) [2; 0]%Z)]
    2 = Raise IndexError ∧
  is_ok (compute_all_lesion_level_metrics ["c2"]
    [("c1", NdArray (1, 1, 1) [2]%Z); ("c2", NdArray (1, 1, 2) [2; 0]%Z)]
    [("c1", NdArray (1, 1, 2) [2; 0]%Z); ("c2", NdArray (1, 1, 2) [2; 0]%Z)]
    2) = true ∧
  compute_lesion_level_metrics (NdArray (1, 1, 0) []) (NdArray (1, 1, 1) [2]%Z) 2
    = Raise AssertionError ∧
  case_record [("c1", NdArray (1, 1, 0) [])] [("c1", NdArray (1, 1, 1) [0]%Z)] 2 "c1"
    = Ok (lesion_record "c1" "new" 0 0 0 0 0 NaN).
Proof. repeat split; vm_compute; reflexivity. Qed.

(** * Merging the tables *)

Lemma dict_get_app {V : Type} (l r : dict V) k :
  dict_get (l ++ r) k =
  match dict_get l k with Ok v => Ok v | Raise _ => dict_get r k end.
Proof.
  induction l as [|[k' v'] l IH]; simpl; [done|]. by case_decide.
Qed.

Lemma dict_get_without on (r : record) :
  dict_get (without on r) on = Raise (KeyError on).
Proof.
  unfold without. induction r as [|[k v] r IH]; [done|].
  destruct (decide (k = on)) as [Hk|Hk].
  - by rewrite filter_cons_False by (simpl; auto).
  - rewrite filter_cons_True by done. simpl. by rewrite decide_False.
Qed.

Lemma key_of_joined on (l r : record) :
  key_of on (l ++ without on r) = key_of on l.
Proof.
  unfold key_of. rewrite dict_get_app.
  destruct (dict_get l on); [done|]. by rewrite dict_get_without.
Qed.

Lemma keys_join_rows on (l : record) (right : list record) :
  key_of on <$> join_rows on l right =
  (r ← right; if decide (key_of on l = key_of on r) then [key_of on l] else []).
Proof.
  unfold join_rows. induction right as [|r right IH]; [done|].
  cbn [mbind list_bind]. rewrite fmap_app, IH. f_equal.
  case_decide; [|done]. simpl. by rewrite key_of_joined.
Qed.

Lemma keys_join_rows_none on (l : record) (right : list record) :
  key_of on l ∉ key_of on <$> right → join_rows on l right = [].
Proof.
  unfold join_rows. induction right as [|r right IH]; [done|].
  rewrite fmap_cons, not_elem_of_cons. intros [Hne Hnin].
  cbn [mbind list_bind]. rewrite IH by done. by rewrite decide_False.
Qed.

Lemma keys_join_rows_once on (l : record) (right : list record) :
  NoDup (key_of on <$> right) → key_of on l ∈ key_of on <$> right →
  key_of on <$> join_rows on l right = [key_of on l].
Proof.
  induction right as [|r right IH]; [by intros _ ?%not_elem_of_nil|].
  rewrite fmap_cons. intros [Hnin Hnd]%NoDup_cons Hin.
  unfold join_rows. cbn [mbind list_bind]. fold (join_rows on l right).
  rewrite fmap_app. case_decide as Hk.
  - rewrite keys_join_rows_none by congruence. simpl. by rewrite key_of_joined.
  - apply elem_of_cons in Hin as [?|Hin]; [done|]. simpl. by apply IH.
Qed.

Lemma elem_of_keys_merged on (left right : list record) k :
  k ∈ key_of on <$> (l ← left; join_rows on l right) ↔
  k ∈ key_of on <$> left ∧ k ∈ key_of on <$> right.
Proof.
  rewrite !list_elem_of_fmap. setoid_rewrite list_elem_of_bind. split.
  - intros (x & -> & l & Hx & Hl). unfold join_rows in Hx.
    apply list_elem_of_bind in Hx as (r & Hx & Hr).
    case_decide as Hk; [|by apply not_elem_of_nil in Hx].
    apply list_elem_of_singleton in Hx as ->. rewrite key_of_joined. split.
    + by exists l.
    + by exists r.
  - intros [(l & -> & Hl) (r & Hk & Hr)].
    exists (l ++ without on r). split; [by rewrite key_of_joined|].
    exists l. split; [|done]. apply list_elem_of_bind. exists r.
    split; [|done]. rewrite decide_True by done. by apply list_elem_of_singleton.
Qed.

(** C2 (as amended).  [merge] on the case identifier is an inner join.  When
    both tables have the key column it never raises: the identifiers of the
    merged table are those present in both tables, so a case missing from
    one table is dropped without an error.  When every identifier of the
    left table occurs exactly once in the right table, the merged table has
    the rows of the left table, one per case.  The only error is the
    [KeyError] of a table without the key column. *)
Theorem merge_is_inner_join (left right : DataFrame) :
  "case_id" ∈ columns left → "case_id" ∈ columns right →
  ∃ df, merge left right "case_id" = Ok df ∧
    (∀ k, k ∈ case_ids df ↔ k ∈ case_ids left ∧ k ∈ case_ids right) ∧
    (∀ k, k ∈ case_ids left → k ∉ case_ids right → k ∉ case_ids df) ∧
    (NoDup (case_ids right) →
     (∀ k, k ∈ case_ids left → k ∈ case_ids right) →
     case_ids df = case_ids left ∧ length (rows df) = length (rows left)).
Proof.
  intros Hl Hr. unfold merge. rewrite decide_True by done.
  eexists. split; [reflexivity|]. unfold case_ids. cbn [rows].
  split; [|split].
  - intros k. apply elem_of_keys_merged.
  - intros k _ Hnin [_ Hin]%elem_of_keys_merged. done.
  - intros Hnd Hsub.
    assert (Heq : key_of "case_id" <$> (l ← rows left; join_rows "case_id" l (rows right))
                  = key_of "case_id" <$> rows left).
    { induction (rows left) as [|l ls IH]; [done|].
      cbn [mbind list_bind]. rewrite fmap_app, fmap_cons.
      rewrite keys_join_rows_once; [|done|apply Hsub; rewrite fmap_cons; by left].
      simpl. f_equal. apply IH. intros k Hk. apply Hsub. rewrite fmap_cons. by right. }
    split; [done|]. apply (f_equal length) in Heq. by rewrite !length_fmap in Heq.
Qed.

Lemma merge_is_inner_join_witness :
  ∃ df, merge (from_records [[("case_id", CStr "c1"); ("new_n_ref", CInt 3)];
                             [("case_id", CStr "c2"); ("new_n_ref", CInt 0)]])
              (from_records [lesion_record "c1" "new" 1 1 1 0 0 (Float 1);
                             lesion_record "c2" "new" 0 0 0 0 0 NaN])
              "case_id" = Ok df ∧
        length (rows df) = 2.
Proof.
  destruct (merge_is_inner_join
              (from_records [[("case_id", CStr "c1"); ("new_n_ref", CInt 3)];
                             [("case_id", CStr "c2"); ("new_n_ref", CInt 0)]])
              (from_records [lesion_record "c1" "new" 1 1 1 0 0 (Float 1);
                             lesion_record "c2" "new" 0 0 0 0 0 NaN]))
    as (df & Hdf & _ & _ & Hall).
  - vm_compute. left.
  - vm_compute. left.
  - exists df. split; [exact Hdf|].
    destruct Hall as [_ Hlen]; [| |exact Hlen].
    + vm_compute. apply NoDup_cons. split; [|apply NoDup_singleton].
      intros Hin%list_elem_of_singleton. discriminate Hin.
    + vm_compute. intros k Hk. exact Hk.
Defined.

(** The claim as the specification states it fails: with "c2" removed from
    the lesion table the merge raises nothing and returns a table with the
    single row of "c1". *)
Lemma merge_drops_unmatched_case :
  ∃ df, merge (from_records [[("case_id", CStr "c1"); ("new_n_ref", CInt 3)];
                             [("case_id", CStr "c2"); ("new_n_ref", CInt 0)]])
              (from_records [lesion_record "c1" "new" 1 1 1 0 0 (Float 1)])
              "case_id" = Ok df ∧
        case_ids df = [Some (CStr "c1")] ∧
        length (rows df) = 1.
Proof. eexists. split; [vm_compute; reflexivity|]. split; reflexivity. Qed.

(** * Volumes held by the cohort script *)

Lemma dict_get_set_eq {V : Type} (d : dict V) k v :
  dict_get (dict_set d k v) k = Ok v.
Proof.
  induction d as [|[k' v'] d IH]; simpl.
  - by rewrite decide_True.
  - case_decide as Hk; simpl.
    + by rewrite decide_True.
    + by rewrite decide_False.
Qed.

Lemma dict_get_set_ne {V : Type} (d : dict V) k k' v :
  k ≠ k' → dict_get (dict_set d k v) k' = dict_get d k'.
Proof.
  intros Hne. induction d as [|[k0 v0] d IH]; simpl.
  - by rewrite decide_False.
  - case_decide as Hk; simpl.
    + subst k0. by rewrite !decide_False.
    + case_decide; [done|]. apply IH.
Qed.

Section CohortFacts.
Context (read_labels_and_preds : string → Dataset → result (ndarray Z * ndarray Z)).

Lemma get_all_loop dataset ids labels0 preds0 labels preds :
  for_each
    (λ '(labels, preds) case,
       '(sample_labels, sample_predictions) ← read_labels_and_preds case dataset;
       Ok (dict_set labels case sample_labels,
           dict_set preds case sample_predictions))
    ids (labels0, preds0) = Ok (labels, preds) →
  ∀ case,
    (case ∈ ids →
     ∃ v w, read_labels_and_preds case dataset = Ok (v, w) ∧
            dict_get labels case = Ok v ∧ dict_get preds case = Ok w) ∧
    (case ∉ ids →
     dict_get labels case = dict_get labels0 case ∧
     dict_get preds case = dict_get preds0 case).
Proof.
  revert labels0 preds0. induction ids as [|c ids IH]; intros labels0 preds0.
  - intros [= <- <-] case. split; [by intros ?%not_elem_of_nil | done].
  - cbn [for_each].
    destruct (read_labels_and_preds c dataset) as [[v w]|e] eqn:Hr;
      cbn [mbind result_bind]; [|done].
    intros Hloop case. destruct (IH _ _ Hloop case) as [Hin Hout].
    destruct (decide (case ∈ ids)) as [Hc|Hc].
    + split; [intros _; by apply Hin|]. intros Hn. exfalso. apply Hn. by right.
    + destruct (Hout Hc) as [Hl Hp]. split.
      * intros [->|?]%elem_of_cons; [|done]. exists v, w.
        rewrite Hl, Hp, !dict_get_set_eq. done.
      * intros Hn. apply not_elem_of_cons in Hn as [Hne _].
        rewrite Hl, Hp, !dict_get_set_ne by done. done.
Qed.

(** C9 (as amended).  [get_all_preds_and_labels] decodes the volumes of
    every case before any metric is computed and returns two dictionaries
    that hold all of them at once.  The cohort computation reads them from
    these dictionaries, and for the second cohort the inputs of the
    confusion matrix are the concatenation of every volume still held
    after the table has been built. *)
Theorem volumes_are_held_for_the_whole_cohort
    (ids : list string) (dataset : Dataset) (labels preds : dict (ndarray Z)) :
  get_all_preds_and_labels read_labels_and_preds ids dataset = Ok (labels, preds) →
  (∀ case, case ∈ ids →
     ∃ v w, read_labels_and_preds case dataset = Ok (v, w) ∧
            dict_get labels case = Ok v ∧ dict_get preds case = Ok w) ∧
  (∀ df out, dataset = msseg2 →
     msseg2_cohort read_labels_and_preds df ids = Ok out →
     out.2 = (flattened labels, flattened preds)).
Proof.
  intros Hget. split.
  - intros case Hin. by apply (get_all_loop dataset ids [] [] labels preds Hget case).
  - intros df out -> . unfold msseg2_cohort. rewrite Hget. cbn [mbind result_bind].
    destruct (compute_all_lesion_level_metrics ids labels preds 2) as [t|e];
      cbn [mbind result_bind]; [|done].
    destruct (merge df t "case_id") as [t'|e]; cbn [mbind result_bind]; [|done].
    by intros [= <-].
Qed.
End CohortFacts.

Lemma volumes_are_held_for_the_whole_cohort_witness :
  let read := λ (case : string) (_ : Dataset),
    if decide (case = "c1")
    then Ok (NdArray (1, 1, 2) [2; 0]%Z, NdArray (1, 1, 2) [2; 2]%Z)
    else Ok (NdArray (1, 1, 1) [0]%Z, NdArray (1, 1, 1) [2]%Z) in
  ∃ v w, read "c2" msseg2 = Ok (v, w) ∧
         dict_get [("c1", NdArray (1, 1, 2) [2; 0]%Z); ("c2", NdArray (1, 1, 1) [0]%Z)] "c2"
           = Ok v.
Proof.
  intros read.
  destruct (volumes_are_held_for_the_whole_cohort read ["c1"; "c2"] msseg2
              [("c1", NdArray (1, 1, 2) [2; 0]%Z); ("c2", NdArray (1, 1, 1) [0]%Z)]
              [("c1", NdArray (1, 1, 2) [2; 2]%Z); ("c2", NdArray (1, 1, 1) [2]%Z)])
    as [Hheld _]; [reflexivity|].
  destruct (Hheld "c2") as (v & w & Hr & Hv & _); [right; left|].
  by exists v, w.
Defined.

(** The claim as the specification states it fails: for a cohort of two
    cases both decoded volumes are in the dictionaries at the same time,
    and they are still there, to be concatenated for the confusion matrix,
    once the table of the cohort has been computed. *)
Lemma volumes_are_not_released_per_case :
  let read := λ (case : string) (_ : Dataset),
    if decide (case = "c1")
    then Ok (NdArray (1, 1, 2) [2; 0]%Z, NdArray (1, 1, 2) [2; 2]%Z)
    else Ok (NdArray (1, 1, 1) [0]%Z, NdArray (1, 1, 1) [2]%Z) in
  get_all_preds_and_labels read ["c1"; "c2"] msseg2 =
    Ok ([("c1", NdArray (1, 1, 2) [2; 0]%Z); ("c2", NdArray (1, 1, 1) [0]%Z)],
        [("c1", NdArray (1, 1, 2) [2; 2]%Z); ("c2", NdArray (1, 1, 1) [2]%Z)]) ∧
  ∃ table,
    msseg2_cohort read
      (from_records [[("case_id", CStr "c1")]; [("case_id", CStr "c2")]])
      ["c1"; "c2"] = Ok (table, ([2; 0; 0]%Z, [2; 2; 2]%Z)) ∧
    length (rows table) = 2.
Proof.
  intros read. split; [reflexivity|]. eexists. split; [vm_compute; reflexivity|].
  reflexivity.
Qed.

(** * The arguments are left unchanged *)

Lemma run_bind_Ok {A B : Type} (m : Store.st A) (k : A → Store.st B) h a h' :
  m h = Some (Ok a, h') → Store.bind m k h = k a h'.
Proof. unfold Store.bind. by intros ->. Qed.

Lemma run_load_volume h r a :
  h !! r = Some (Store.Volume a) → Store.load_volume r h = Some (Ok a, h).
Proof. unfold Store.load_volume. by intros ->. Qed.

Lemma run_load_map h r a :
  h !! r = Some (Store.InstanceMap a) → Store.load_map r h = Some (Ok a, h).
Proof. unfold Store.load_map. by intros ->. Qed.

Lemma run_label h input structure :
  Store.label input structure h =
  Some (Ok (length h, (label input structure).2),
        h ++ [Store.InstanceMap (label input structure).1]).
Proof. unfold Store.label. by destruct (label input structure). Qed.

Lemma run_np_copy h r a :
  h !! r = Some (Store.InstanceMap a) →
  Store.np_copy r h = Some (Ok (length h), h ++ [Store.InstanceMap (np_copy a)]).
Proof.
  intros Hr. unfold Store.np_copy.
  by rewrite (run_bind_Ok _ _ h a h) by by apply run_load_map.
Qed.

Lemma lookup_tail3 {A : Type} (h : list A) a b c :
  (h ++ [a; b; c]) !! length h = Some a ∧
  (h ++ [a; b; c]) !! (length h + 1) = Some b ∧
  (h ++ [a; b; c]) !! (length h + 2) = Some c.
Proof.
  rewrite !lookup_app_r by lia.
  replace (length h - length h) with 0 by lia.
  replace (length h + 1 - length h) with 1 by lia.
  replace (length h + 2 - length h) with 2 by lia. done.
Qed.

Lemma insert_tail3 {A : Type} (h : list A) a b c x :
  <[length h + 2 := x]> (h ++ [a; b; c]) = h ++ [a; b; x].
Proof.
  rewrite insert_app_r_alt by lia.
  replace (length h + 2 - length h) with 2 by lia. done.
Qed.

(** The relabelling loop over the store writes into the copy only. *)
Lemma run_relabel_loop h G Pm n_gt ids new :
  shape new = shape Pm →
  ∃ new',
    for_each (λ new id, setitem_mask new (np_eq_id Pm id) (id + n_gt)) ids new = Ok new' ∧
    Store.for_each
      (λ id, Store.setitem_where (length h + 2) (length h + 1) id (id + n_gt)) ids
      (h ++ [Store.InstanceMap G; Store.InstanceMap Pm; Store.InstanceMap new]) =
    Some (Ok (), h ++ [Store.InstanceMap G; Store.InstanceMap Pm; Store.InstanceMap new']).
Proof.
  revert new. induction ids as [|id ids IH]; intros new Hs.
  - exists new. done.
  - cbn [for_each Store.for_each].
    set (new1 := NdArray (shape new)
                   (zip_with (λ x (b : bool), if b then id + n_gt else x) (data new)
                             (data (np_eq_id Pm id)))).
    assert (Hset : setitem_mask new (np_eq_id Pm id) (id + n_gt) = Ok new1).
    { unfold setitem_mask. simpl. by rewrite decide_True. }
    rewrite Hset. cbn [mbind result_bind].
    destruct (IH new1) as (new' & Hpure & Hst); [done|].
    exists new'. split; [done|].
    destruct (lookup_tail3 h (Store.InstanceMap G) (Store.InstanceMap Pm)
                (Store.InstanceMap new)) as (_ & HP & HN).
    erewrite run_bind_Ok; [exact Hst|].
    unfold Store.setitem_where.
    erewrite run_bind_Ok by (by apply run_load_map).
    erewrite run_bind_Ok by (by apply run_load_map).
    unfold Store.lift at 1. unfold Store.bind at 1. rewrite Hset.
    unfold Store.store_map. rewrite HN. by rewrite insert_tail3.
Qed.

(** C10.  Run over any store in which the two arguments refer to volumes,
    the per-case function is never stuck, returns what the function on
    values returns, and leaves every array that was in the store before the
    call as it was, the two argument volumes among them: the instance maps
    and the copy that is relabelled are new arrays. *)
Theorem compute_lesion_level_metrics_preserves_inputs
    (h : list Store.obj) (labels preds : nat) (L P : ndarray Z) (lesion_class : Z) :
  h !! labels = Some (Store.Volume L) →
  h !! preds = Some (Store.Volume P) →
  ∃ h',
    Store.compute_lesion_level_metrics labels preds lesion_class h =
      Some (compute_lesion_level_metrics L P lesion_class, h') ∧
    (∀ r o, h !! r = Some o → h' !! r = Some o) ∧
    h' !! labels = Some (Store.Volume L) ∧
    h' !! preds = Some (Store.Volume P).
Proof.
  intros HL HP.
  set (G := (label (astype_int (np_eq_scalar L lesion_class)) (np_ones (3, 3, 3))).1).
  set (n_gt := (label (astype_int (np_eq_scalar L lesion_class)) (np_ones (3, 3, 3))).2).
  set (Pm := (label (astype_int (np_eq_scalar P lesion_class)) (np_ones (3, 3, 3))).1).
  set (n_pred := (label (astype_int (np_eq_scalar P lesion_class)) (np_ones (3, 3, 3))).2).
  destruct (run_relabel_loop h G Pm n_gt (seq 1 n_pred) (np_copy Pm))
    as (new' & Hpure & Hloop); [done|].
  exists (h ++ [Store.InstanceMap G; Store.InstanceMap Pm; Store.InstanceMap new']).
  assert (Hframe : ∀ r o, h !! r = Some o →
    (h ++ [Store.InstanceMap G; Store.InstanceMap Pm; Store.InstanceMap new']) !! r
      = Some o).
  { intros r o Hr. by apply lookup_app_l_Some. }
  split; [|split; [done|split; by apply Hframe]].
  assert (Hval : compute_lesion_level_metrics L P lesion_class =
                 (m ← overlap_matching G Pm new'; checked_counts n_gt n_pred m)).
  { unfold compute_lesion_level_metrics, lesion_instances.
    fold G n_gt Pm n_pred.
    rewrite (surjective_pairing (label (astype_int (np_eq_scalar L lesion_class)) _)).
    rewrite (surjective_pairing (label (astype_int (np_eq_scalar P lesion_class)) _)).
    fold G n_gt Pm n_pred. unfold relabel. rewrite Hpure. done. }
  rewrite Hval. unfold Store.compute_lesion_level_metrics.
  erewrite run_bind_Ok by (by apply run_load_volume).
  erewrite run_bind_Ok by apply run_label. fold G n_gt. cbv beta iota.
  erewrite run_bind_Ok by (apply run_load_volume; by apply lookup_app_l_Some).
  erewrite run_bind_Ok by apply run_label. fold Pm n_pred. cbv beta iota.
  rewrite length_app. cbn [length]. rewrite <-app_assoc. cbn [app].
  destruct (lookup_tail3 h (Store.InstanceMap G) (Store.InstanceMap Pm)
              (Store.InstanceMap new')) as (HG' & HP' & HN').
  erewrite run_bind_Ok; cycle 1.
  { apply run_np_copy. rewrite lookup_app_r by lia.
    by replace (length h + 1 - length h) with 1 by lia. }
  rewrite length_app. cbn [length]. rewrite <-app_assoc. cbn [app].
  erewrite run_bind_Ok by exact Hloop.
  erewrite run_bind_Ok by (by apply run_load_map).
  erewrite run_bind_Ok by (by apply run_load_map).
  erewrite run_bind_Ok by (by apply run_load_map).
  unfold Store.bind, Store.lift.
  by destruct (overlap_matching G Pm new').
Qed.

Lemma compute_lesion_level_metrics_preserves_inputs_witness :
  ∃ h',
    Store.compute_lesion_level_metrics 0 1 2
      [Store.Volume (NdArray (1, 1, 3) [2; 0; 2]%Z);
       Store.Volume (NdArray (1, 1, 3) [2; 2; 0]%Z)] =
      Some (Ok (2, 1, 1, 0, 1), h') ∧
    h' !! 0 = Some (Store.Volume (NdArray (1, 1, 3) [2; 0; 2]%Z)) ∧
    h' !! 1 = Some (Store.Volume (NdArray (1, 1, 3) [2; 2; 0]%Z)).
Proof.
  destruct (compute_lesion_level_metrics_preserves_inputs
              [Store.Volume (NdArray (1, 1, 3) [2; 0; 2]%Z);
               Store.Volume (NdArray (1, 1, 3) [2; 2; 0]%Z)]
              0 1 (NdArray (1, 1, 3) [2; 0; 2]%Z) (NdArray (1, 1, 3) [2; 2; 0]%Z) 2)
    as (h' & Hrun & _ & H0 & H1); [reflexivity..|].
  exists h'. split; [|by split]. rewrite Hrun. reflexivity.
Defined.


(** * Python strings and dictionaries *)

Lemma split_on_nonempty sep s : split_on sep s ≠ [].
Proof.
  destruct s as [|c s]; simpl; [done|].
  case_decide; [done|]. by destruct (split_on sep s).
Qed.

Lemma split_on_absent sep s : occurs sep s = false → split_on sep s = [s].
Proof.
  induction s as [|c s IH]; simpl; [done|].
  intros [Hc Hs]%orb_false_iff. apply bool_decide_eq_false in Hc.
  rewrite decide_False by done. by rewrite IH.
Qed.

Lemma split_on_head sep a b :
  occurs sep a = false →
  split_on sep (a +:+ String sep b) = a :: split_on sep b.
Proof.
  induction a as [|c a IH]; simpl.
  - intros _. by rewrite decide_True.
  - intros [Hc Hs]%orb_false_iff. apply bool_decide_eq_false in Hc.
    rewrite decide_False by done. by rewrite IH.
Qed.

Lemma split_on_tail sep a b :
  ∃ front, front ≠ [] ∧
           split_on sep (a +:+ String sep b) = front ++ split_on sep b.
Proof.
  induction a as [|c a (front & Hne & IH)]; simpl.
  - exists [EmptyString]. split; [done|]. by rewrite decide_True.
  - case_decide.
    + exists (EmptyString :: front). split; [done|]. by rewrite IH.
    + rewrite IH. destruct front as [|piece front]; [done|].
      by exists (String c piece :: front).
Qed.

Lemma last_split_on sep a b :
  occurs sep b = false →
  last (split_on sep (a +:+ String sep b)) = Some b ∧ last (split_on sep b) = Some b.
Proof.
  intros Hb. destruct (split_on_tail sep a b) as (front & _ & ->).
  rewrite (split_on_absent sep b Hb). split; [|done].
  by rewrite last_snoc.
Qed.

Lemma string_length_app (a b : string) :
  String.length (a +:+ b) = String.length a + String.length b.
Proof. induction a as [|c a IH]; simpl; [done|]. by rewrite IH. Qed.

Lemma substring_prefix (a b : string) :
  String.substring 0 (String.length a) (a +:+ b) = a.
Proof.
  induction a as [|c a IH]; simpl; [by destruct b|]. by rewrite IH.
Qed.

Lemma drop_last_suffix (a b : string) : drop_last (String.length b) (a +:+ b) = a.
Proof.
  unfold drop_last. rewrite string_length_app.
  replace (String.length a + String.length b - String.length b)
    with (String.length a) by lia.
  apply substring_prefix.
Qed.

Lemma dict_get_absent {V : Type} (d : dict V) k :
  k ∉ d.*1 → dict_get d k = Raise (KeyError k).
Proof.
  induction d as [|[k' v'] d IH]; simpl; [done|].
  rewrite not_elem_of_cons. intros [Hne Hd]. rewrite decide_False by done. by apply IH.
Qed.

Lemma dict_get_present {V : Type} (d : dict V) k v :
  dict_get d k = Ok v → (k, v) ∈ d.
Proof.
  induction d as [|[k' v'] d IH]; simpl; [done|]. case_decide.
  - intros [= ->]. subst. by left.
  - intros H'. right. by apply IH.
Qed.

Lemma dict_get_is_Ok {V : Type} (d : dict V) k :
  k ∈ d.*1 → ∃ v, dict_get d k = Ok v.
Proof.
  induction d as [|[k' v'] d IH]; simpl; [by intros ?%not_elem_of_nil|].
  intros Hin. case_decide; [by eexists|].
  apply elem_of_cons in Hin as [?|Hin]; [done|]. by apply IH.
Qed.

Lemma keys_dict_set {V : Type} (d : dict V) k v k' :
  k' ∈ (dict_set d k v).*1 ↔ k' = k ∨ k' ∈ d.*1.
Proof.
  induction d as [|[k0 v0] d IH]; simpl.
  - rewrite list_elem_of_singleton. split; [by left|]. intros [?|?%not_elem_of_nil]; done.
  - case_decide as Hk; simpl; rewrite !elem_of_cons.
    + subst k0. tauto.
    + rewrite IH. tauto.
Qed.

Lemma NoDup_dict_set {V : Type} (d : dict V) k v :
  NoDup d.*1 → NoDup (dict_set d k v).*1.
Proof.
  induction d as [|[k0 v0] d IH]; simpl.
  - intros _. apply NoDup_singleton.
  - intros [Hnin Hnd]%NoDup_cons. case_decide as Hk; simpl.
    + subst k0. by apply NoDup_cons.
    + apply NoDup_cons. split; [|by apply IH].
      rewrite keys_dict_set. intros [?|?]; done.
Qed.

(** Folding insertions into a dictionary, as the union and the
    comprehension do. *)
Lemma keys_fold_set {V : Type} (f : string → string) (d acc : dict V) k :
  k ∈ (foldl (λ acc kv, dict_set acc (f kv.1) kv.2) acc d).*1 ↔
  k ∈ acc.*1 ∨ ∃ k0, k0 ∈ d.*1 ∧ k = f k0.
Proof.
  revert acc. induction d as [|[k0 v0] d IH]; intros acc; simpl.
  - split; [by left|]. intros [?|(? & ?%not_elem_of_nil & _)]; done.
  - rewrite IH, keys_dict_set. split.
    + intros [[->|?]|(k1 & ? & ->)].
      * right. exists k0. split; [by left|done].
      * by left.
      * right. exists k1. split; [by right|done].
    + intros [?|(k1 & [->|?]%elem_of_cons & ->)].
      * left. by right.
      * left. by left.
      * right. by exists k1.
Qed.

Lemma NoDup_fold_set {V : Type} (f : string → string) (d acc : dict V) :
  NoDup acc.*1 → NoDup (foldl (λ acc kv, dict_set acc (f kv.1) kv.2) acc d).*1.
Proof.
  revert acc. induction d as [|[k0 v0] d IH]; intros acc Hacc; simpl; [done|].
  by apply IH, NoDup_dict_set.
Qed.

Lemma dict_get_fold_set_other {V : Type} (f : string → string) (d acc : dict V) k :
  (∀ k0, k0 ∈ d.*1 → k ≠ f k0) →
  dict_get (foldl (λ acc kv, dict_set acc (f kv.1) kv.2) acc d) k = dict_get acc k.
Proof.
  revert acc. induction d as [|[k0 v0] d IH]; intros acc Hk; simpl; [done|].
  rewrite IH by (intros k1 ?; apply Hk; by right).
  apply dict_get_set_ne. intros Heq. apply (Hk k0); [by left|done].
Qed.

Lemma dict_get_fold_set {V : Type} (f : string → string) `{!Inj (=) (=) f}
    (d acc : dict V) k :
  NoDup d.*1 →
  dict_get (foldl (λ acc kv, dict_set acc (f kv.1) kv.2) acc d) (f k) =
  match dict_get d k with Ok v => Ok v | Raise _ => dict_get acc (f k) end.
Proof.
  revert acc. induction d as [|[k0 v0] d IH]; intros acc; simpl; [done|].
  intros [Hnin Hnd]%NoDup_cons. case_decide as Hk.
  - subst k0. rewrite dict_get_fold_set_other.
    + apply dict_get_set_eq.
    + intros k1 Hk1 Heq. apply (inj f) in Heq. by subst.
  - rewrite IH by done. destruct (dict_get d k); [done|].
    apply dict_get_set_ne. intros Heq. by apply (inj f) in Heq.
Qed.

Lemma keys_dict_union {V : Type} (a b : dict V) k :
  k ∈ (dict_union a b).*1 ↔ k ∈ a.*1 ∨ k ∈ b.*1.
Proof.
  unfold dict_union. rewrite (keys_fold_set id b a k). split.
  - intros [?|(k0 & ? & ->)]; [by left | by right].
  - intros [?|?]; [by left|]. right. by exists k.
Qed.

Lemma NoDup_dict_union {V : Type} (a b : dict V) :
  NoDup a.*1 → NoDup (dict_union a b).*1.
Proof. apply (NoDup_fold_set id). Qed.

Lemma dict_get_union {V : Type} (a b : dict V) k :
  NoDup b.*1 →
  dict_get (dict_union a b) k =
  match dict_get b k with Ok v => Ok v | Raise _ => dict_get a k end.
Proof. apply (dict_get_fold_set id). Qed.

Lemma dict_get_union_l {V : Type} (a b : dict V) k :
  k ∉ b.*1 → dict_get (dict_union a b) k = dict_get a k.
Proof.
  intros Hk. apply (dict_get_fold_set_other id). intros k0 Hk0 ->. done.
Qed.

Lemma keys_dict_comprehension {V : Type} (f : string → string) (d : dict V) k :
  k ∈ (dict_comprehension f d).*1 ↔ ∃ k0, k0 ∈ d.*1 ∧ k = f k0.
Proof.
  unfold dict_comprehension. rewrite keys_fold_set. split.
  - intros [?%not_elem_of_nil|?]; done.
  - by right.
Qed.

Lemma NoDup_dict_comprehension {V : Type} (f : string → string) (d : dict V) :
  NoDup (dict_comprehension f d).*1.
Proof. apply NoDup_fold_set. constructor. Qed.

Lemma dict_get_comprehension {V : Type} (f : string → string) `{!Inj (=) (=) f}
    (d : dict V) k v :
  NoDup d.*1 → dict_get d k = Ok v → dict_get (dict_comprehension f d) (f k) = Ok v.
Proof.
  intros Hnd Hk. unfold dict_comprehension. rewrite dict_get_fold_set by done.
  by rewrite Hk.
Qed.

#[global] Instance prefix_inj (prefix : string) : Inj (=) (=) (λ key, prefix +:+ key).
Proof.
  intros a b. induction prefix as [|c prefix IH]; simpl; [done|].
  intros [= H]. by apply IH.
Qed.

Lemma keys_prefixed_metrics prefix label (m : gmap Z (dict cell)) k :
  k ∈ (prefixed_metrics prefix label m).*1 ↔
  ∃ (d : dict cell) k0, m !! label = Some d ∧ k0 ∈ d.*1 ∧ k = prefix +:+ k0.
Proof.
  unfold prefixed_metrics. destruct (m !! label) as [d|].
  - rewrite keys_dict_comprehension. split.
    + intros (k0 & ? & ->). by exists d, k0.
    + intros (d' & k0 & [= <-] & ? & ->). by exists k0.
  - split; [by intros ?%not_elem_of_nil|]. by intros (? & ? & ? & _).
Qed.

Lemma NoDup_prefixed_metrics prefix label (m : gmap Z (dict cell)) :
  NoDup (prefixed_metrics prefix label m).*1.
Proof.
  unfold prefixed_metrics. destruct (m !! label); [|constructor].
  apply NoDup_dict_comprehension.
Qed.

Lemma case_id_of_is_Ok prediction_file : ∃ cid, case_id_of prediction_file = Ok cid.
Proof.
  unfold case_id_of, getitem_last.
  pose proof (split_on_nonempty "/" prediction_file) as Hne.
  destruct (split_on "/" prediction_file) as [|piece pieces] using rev_ind; [done|].
  rewrite last_snoc. by eexists.
Qed.

(** * The table of the voxel metrics *)

(** X1.  The case identifier of a prediction file is its file name without
    the directories and without the last seven characters: for a name
    followed by a suffix of seven characters such as [.nii.gz], neither
    holding a slash, the identifier is the name, whatever the directory. *)
Theorem case_id_of_strips_directory_and_suffix (dir name suffix : string) :
  occurs "/" (name +:+ suffix) = false →
  String.length suffix = 7 →
  case_id_of (dir +:+ String "/" (name +:+ suffix)) = Ok name ∧
  case_id_of (name +:+ suffix) = Ok name.
Proof.
  intros Hslash Hlen. unfold case_id_of, getitem_last.
  destruct (last_split_on "/" dir (name +:+ suffix) Hslash) as [-> ->].
  cbn [mbind result_bind]. rewrite <-Hlen. by rewrite drop_last_suffix.
Qed.

Lemma case_id_of_strips_directory_and_suffix_witness :
  case_id_of "/results/fold_all/patient07.nii.gz" = Ok "patient07".
Proof.
  apply (case_id_of_strips_directory_and_suffix "/results/fold_all" "patient07" ".nii.gz");
    reflexivity.
Defined.

Lemma format_case_unfold cm :
  ∃ cid, case_id_of (prediction_file cm) = Ok cid ∧
    format_case cm =
    Ok (dict_union (dict_union [("case_id", CStr cid)]
                               (prefixed_metrics "b_" 1 (metrics cm)))
                   (prefixed_metrics "new_" 2 (metrics cm))).
Proof.
  destruct (case_id_of_is_Ok (prediction_file cm)) as [cid Hcid].
  exists cid. split; [done|]. unfold format_case. by rewrite Hcid.
Qed.

Lemma format_case_case_id cm cid r :
  case_id_of (prediction_file cm) = Ok cid → format_case cm = Ok r →
  dict_get r "case_id" = Ok (CStr cid).
Proof.
  intros Hcid. unfold format_case. rewrite Hcid. cbn [mbind result_bind].
  intros [= <-].
  rewrite dict_get_union_l.
  2:{ intros (d & k0 & _ & _ & Hk)%keys_prefixed_metrics. discriminate Hk. }
  rewrite dict_get_union_l; [done|].
  intros (d & k0 & _ & _ & Hk)%keys_prefixed_metrics. discriminate Hk.
Qed.

(** X2.  The record of a case has distinct keys: [case_id], one key [b_k]
    per metric [k] of class 1 and one key [new_k] per metric [k] of class 2,
    and nothing else; a class that is absent contributes no key.  The value
    under a prefixed key is the value of the metric, and [case_id] holds the
    identifier of the case. *)
Theorem format_case_renames_metrics (cm : case_metrics) :
  ∃ cid r,
    case_id_of (prediction_file cm) = Ok cid ∧
    format_case cm = Ok r ∧
    NoDup r.*1 ∧
    dict_get r "case_id" = Ok (CStr cid) ∧
    (∀ key, key ∈ r.*1 ↔
       key = "case_id" ∨
       (∃ (d : dict cell) k, metrics cm !! 1%Z = Some d ∧ k ∈ d.*1 ∧ key = "b_" +:+ k) ∨
       (∃ (d : dict cell) k, metrics cm !! 2%Z = Some d ∧ k ∈ d.*1 ∧ key = "new_" +:+ k)) ∧
    (∀ (d : dict cell) k v, metrics cm !! 1%Z = Some d → NoDup d.*1 → dict_get d k = Ok v →
              dict_get r ("b_" +:+ k) = Ok v) ∧
    (∀ (d : dict cell) k v, metrics cm !! 2%Z = Some d → NoDup d.*1 → dict_get d k = Ok v →
              dict_get r ("new_" +:+ k) = Ok v).
Proof.
  destruct (format_case_unfold cm) as (cid & Hcid & Hr).
  eexists cid, _. split; [done|]. split; [exact Hr|].
  set (B := prefixed_metrics "b_" 1 (metrics cm)).
  set (N := prefixed_metrics "new_" 2 (metrics cm)).
  assert (HB : ∀ k, k ∈ B.*1 → ∃ k0, k = "b_" +:+ k0).
  { intros k (d & k0 & _ & _ & ->)%keys_prefixed_metrics. by exists k0. }
  assert (HN : ∀ k, k ∈ N.*1 → ∃ k0, k = "new_" +:+ k0).
  { intros k (d & k0 & _ & _ & ->)%keys_prefixed_metrics. by exists k0. }
  split; [|split; [|split; [|split]]].
  - apply NoDup_dict_union, NoDup_dict_union. apply NoDup_singleton.
  - rewrite dict_get_union_l; [|intros [k0 Hk]%HN; discriminate Hk].
    rewrite dict_get_union_l; [done|intros [k0 Hk]%HB; discriminate Hk].
  - intros key. unfold B, N. rewrite !keys_dict_union, !keys_prefixed_metrics.
    simpl. rewrite list_elem_of_singleton. tauto.
  - intros d k v Hd Hnd Hk.
    rewrite dict_get_union_l; [|intros [k0 Hk0]%HN; discriminate Hk0].
    rewrite dict_get_union by apply NoDup_prefixed_metrics.
    unfold B, prefixed_metrics. rewrite Hd.
    by rewrite (dict_get_comprehension (λ key, "b_" +:+ key) d k v).
  - intros d k v Hd Hnd Hk.
    rewrite dict_get_union by apply NoDup_prefixed_metrics.
    unfold N, prefixed_metrics. rewrite Hd.
    by rewrite (dict_get_comprehension (λ key, "new_" +:+ key) d k v).
Qed.

(** Loops that collect one result per element. *)
Lemma collect_inv {A B : Type} (f : A → result B) (xs : list A) (acc out : list B) :
  for_each (λ acc x, r ← f x; Ok (acc ++ [r])) xs acc = Ok out →
  ∃ rs, out = acc ++ rs ∧ Forall2 (λ x r, f x = Ok r) xs rs.
Proof.
  revert acc. induction xs as [|x xs IH]; intros acc; cbn [for_each].
  - intros [= <-]. exists []. split; [by rewrite app_nil_r | constructor].
  - destruct (f x) as [r|e] eqn:Hr; cbn [mbind result_bind]; [|done].
    intros (rs & -> & Hrs)%IH. exists (r :: rs).
    split; [by rewrite <-app_assoc | by constructor].
Qed.

Lemma collect_Ok {A B : Type} (f : A → result B) (xs : list A) (acc rs : list B) :
  Forall2 (λ x r, f x = Ok r) xs rs →
  for_each (λ acc x, r ← f x; Ok (acc ++ [r])) xs acc = Ok (acc ++ rs).
Proof.
  intros H. revert acc. induction H as [|x r xs rs Hr _ IH]; intros acc; cbn [for_each].
  - by rewrite app_nil_r.
  - rewrite Hr. cbn [mbind result_bind]. rewrite IH. by rewrite <-app_assoc.
Qed.

Lemma collect_Raise {A B : Type} (f : A → result B) (pre post : list A) x e
    (acc : list B) :
  Forall (λ y, ∃ r, f y = Ok r) pre → f x = Raise e →
  for_each (λ acc x, r ← f x; Ok (acc ++ [r])) (pre ++ x :: post) acc = Raise e.
Proof.
  intros Hpre Hx. revert acc. induction Hpre as [|y pre [r Hy] _ IH]; intros acc;
    cbn [for_each app].
  - by rewrite Hx.
  - rewrite Hy. cbn [mbind result_bind]. apply IH.
Qed.

Lemma collect_total {A B : Type} (f : A → result B) (xs : list A) :
  (∀ x, x ∈ xs → ∃ r, f x = Ok r) → ∃ rs, Forall2 (λ x r, f x = Ok r) xs rs.
Proof. apply choose_images. Qed.

(** X3.  [format_results_into_df] never raises: it returns one row per
    entry of the summary, in the order of the summary, each row being the
    record of its case and holding the identifier of the case under
    [case_id].  A summary without cases gives a table without columns; any
    other summary gives a table with the [case_id] column. *)
Theorem format_results_one_row_per_case (metric_per_case : list case_metrics) :
  ∃ df,
    format_results_into_df metric_per_case = Ok df ∧
    length (rows df) = length metric_per_case ∧
    Forall2 (λ cm r, format_case cm = Ok r ∧
                     ∃ cid, case_id_of (prediction_file cm) = Ok cid ∧
                            key_of "case_id" r = Some (CStr cid))
            metric_per_case (rows df) ∧
    (metric_per_case = [] ↔ columns df = []) ∧
    (metric_per_case ≠ [] ↔ "case_id" ∈ columns df).
Proof.
  destruct (collect_total format_case metric_per_case) as [rs Hrs].
  { intros cm _. destruct (format_case_unfold cm) as (cid & _ & ->). by eexists. }
  exists (from_records rs). unfold format_results_into_df.
  rewrite (collect_Ok format_case metric_per_case [] rs Hrs).
  cbn [mbind result_bind app rows from_records columns].
  split; [done|]. split; [symmetry; by eapply Forall2_length|].
  assert (Hkey : Forall2 (λ cm r, format_case cm = Ok r ∧
                     ∃ cid, case_id_of (prediction_file cm) = Ok cid ∧
                            key_of "case_id" r = Some (CStr cid))
            metric_per_case rs).
  { eapply Forall2_impl; [exact Hrs|]. intros cm r Hr. split; [done|].
    destruct (case_id_of_is_Ok (prediction_file cm)) as [cid Hcid].
    exists cid. split; [done|]. unfold key_of.
    by rewrite (format_case_case_id cm cid r Hcid Hr). }
  split; [exact Hkey|].
  assert (Hcol : metric_per_case ≠ [] → "case_id" ∈ first_appearance (rs ≫= fmap fst)).
  { intros Hne. destruct Hkey as [|cm r cms rs' [_ (cid & _ & Hk)] _]; [done|].
    apply elem_of_first_appearance. cbn [mbind list_bind]. apply elem_of_app. left.
    unfold key_of in Hk. destruct (dict_get r "case_id") as [c|] eqn:Hc; [|done].
    apply dict_get_present in Hc. apply list_elem_of_fmap. by exists ("case_id", c). }
  split; split.
  - intros ->. by inversion Hrs.
  - intros Hnil. destruct (decide (metric_per_case = [])) as [|Hne]; [done|].
    apply Hcol in Hne. rewrite Hnil in Hne. by apply not_elem_of_nil in Hne.
  - exact Hcol.
  - intros Hin ->. inversion Hrs; subst. by apply not_elem_of_nil in Hin.
Qed.

(** * The case identifiers *)

#[global] Instance string_leb_total : Total (λ a b : string, Is_true (String.leb a b)).
Proof.
  intros a b. destruct (String.leb_total a b) as [H|H]; [left|right]; by rewrite H.
Qed.

Lemma elem_of_py_sorted_set xs x : x ∈ py_sorted_set xs ↔ x ∈ xs.
Proof.
  unfold py_sorted_set. rewrite merge_sort_Permutation. apply elem_of_remove_dups.
Qed.

Lemma NoDup_py_sorted_set xs : NoDup (py_sorted_set xs).
Proof.
  unfold py_sorted_set. rewrite merge_sort_Permutation. apply NoDup_remove_dups.
Qed.

Lemma Sorted_py_sorted_set xs :
  Sorted (λ a b : string, Is_true (String.leb a b)) (py_sorted_set xs).
Proof. unfold py_sorted_set. apply (Sorted_merge_sort _). Qed.

Lemma test_split_id_is_Ok file_name : ∃ i, test_split_id file_name = Ok i.
Proof.
  unfold test_split_id, getitem_first.
  pose proof (split_on_nonempty "." file_name).
  destruct (split_on "." file_name); [done|]. by eexists.
Qed.

(** X4.  The identifiers of the test split are computed without error from
    any listing of the image folder: the list is sorted, has no duplicate,
    and holds exactly the identifiers of the listed files, so several files
    of one case give one identifier. *)
Theorem test_split_ids_sorted_distinct (test_images : list string) :
  ∃ ids,
    test_split_ids test_images = Ok ids ∧
    NoDup ids ∧
    Sorted (λ a b : string, Is_true (String.leb a b)) ids ∧
    (∀ i, i ∈ ids ↔ ∃ file_name, file_name ∈ test_images ∧
                                 test_split_id file_name = Ok i).
Proof.
  destruct (collect_total test_split_id test_images) as [raw Hraw].
  { intros f _. apply test_split_id_is_Ok. }
  exists (py_sorted_set raw). unfold test_split_ids.
  rewrite (collect_Ok test_split_id test_images [] raw Hraw).
  cbn [mbind result_bind app].
  split; [done|]. split; [apply NoDup_py_sorted_set|].
  split; [apply Sorted_py_sorted_set|].
  intros i. rewrite elem_of_py_sorted_set. split.
  - intros [n Hn]%list_elem_of_lookup.
    destruct (Forall2_lookup_r _ _ _ _ _ Hraw Hn) as (f & Hf & Hi).
    exists f. split; [by eapply list_elem_of_lookup_2 | done].
  - intros (f & [n Hn]%list_elem_of_lookup & Hi).
    destruct (Forall2_lookup_l _ _ _ _ _ Hraw Hn) as (i' & Hi' & Hfi).
    assert (i' = i) as -> by congruence. by eapply list_elem_of_lookup_2.
Qed.

(** X5.  The identifier of an image file is what precedes its first dot,
    without the last five characters: a name followed by a tag of five
    characters such as [_0000] and an extension gives the name, provided
    neither the name nor the tag holds a dot; the extension is ignored. *)
Theorem test_split_id_strips_tag_and_extension (name tag extension : string) :
  occurs "." (name +:+ tag) = false →
  String.length tag = 5 →
  test_split_id ((name +:+ tag) +:+ String "." extension) = Ok name.
Proof.
  intros Hdot Hlen. unfold test_split_id, getitem_first.
  rewrite split_on_head by done. cbn [head mbind result_bind].
  rewrite <-Hlen. by rewrite drop_last_suffix.
Qed.

Lemma test_split_id_strips_tag_and_extension_witness :
  test_split_id "patient07_0000.nii.gz" = Ok "patient07".
Proof.
  apply (test_split_id_strips_tag_and_extension "patient07" "_0000" "nii.gz");
    reflexivity.
Defined.

(** * More on the counts of a case *)

Section CaseCounts.
Context (labels preds : ndarray Z) (lesion_class : Z).
Hypothesis labels_wf : wf_array labels.
Hypothesis preds_wf : wf_array preds.
Hypothesis same_shape : shape labels = shape preds.

Local Abbreviation ones := (np_ones (3, 3, 3)).
Local Abbreviation gt_mask := (astype_int (np_eq_scalar labels lesion_class)).
Local Abbreviation pred_mask := (astype_int (np_eq_scalar preds lesion_class)).
Local Abbreviation G := (label gt_mask ones).1.
Local Abbreviation n_gt := (label gt_mask ones).2.
Local Abbreviation P := (label pred_mask ones).1.
Local Abbreviation n_pred := (label pred_mask ones).2.
Local Abbreviation Nw :=
  (NdArray (shape P)
     ((λ v, if decide (1 ≤ v ≤ n_pred) then v + n_gt else v) <$> data P)).

(** What the function computes on volumes of one shape, with the sets
    behind the counts. *)
Lemma compute_metrics_spec :
  ∃ m, overlap_matching G P Nw = Ok m ∧
    compute_lesion_level_metrics labels preds lesion_class =
      Ok (n_gt, n_pred, size (tp_gt m), size (fp_ids m), size (fn_ids m)) ∧
    size (tp_pred m) + size (fp_ids m) = n_pred ∧
    size (tp_gt m) + size (fn_ids m) = n_gt ∧
    tp_pred m ∪ fp_ids m = list_to_set (seq (n_gt + 1) n_pred) ∧
    tp_gt m ∪ fn_ids m = list_to_set (seq 1 n_gt) ∧
    (∀ x, x ∈ tp_gt m ↔
            ∃ p v, data G !! p = Some x ∧ data P !! p = Some v ∧ 0 < x ∧ 0 < v) ∧
    (∀ x, x ∈ tp_pred m ↔
            ∃ p g, data Nw !! p = Some x ∧ data G !! p = Some g ∧ 0 < g ∧ 0 < x) ∧
    (∀ x, x ∈ fp_ids m ↔
            (∃ p g, data Nw !! p = Some x ∧ data G !! p = Some g ∧ g = 0 ∧ 0 < x) ∧
            x ∉ tp_pred m) ∧
    (∀ x, x ∈ fn_ids m ↔
            (∃ p v, data G !! p = Some x ∧ data Nw !! p = Some v ∧ 0 < x ∧ v = 0) ∧
            x ∉ tp_gt m).
Proof.
  destruct (matching_exists labels preds lesion_class labels_wf preds_wf same_shape)
    as (m & Hm & Htg & Htp & Hfp & Hfn).
  destruct (predicted_side labels preds lesion_class labels_wf preds_wf same_shape
              m Htp Hfp) as [Hu1 H1].
  destruct (ground_truth_side labels preds lesion_class labels_wf preds_wf same_shape
              m Htg Hfn) as [Hu2 H2].
  exists m. split; [done|]. split; [|done].
  unfold compute_lesion_level_metrics. rewrite lesion_instances_eq.
  cbn [mbind result_bind gt_lesions predicted_lesions new_predicted_lesions
       n_gt_lesions n_predicted_lesions].
  rewrite Hm. cbn [mbind result_bind]. by apply checked_counts_Ok.
Qed.

(** A matched ground-truth instance gives a matched predicted instance,
    and conversely. *)
Lemma matched_sides_empty_together m :
  (∀ x, x ∈ tp_gt m ↔
          ∃ p v, data G !! p = Some x ∧ data P !! p = Some v ∧ 0 < x ∧ 0 < v) →
  (∀ x, x ∈ tp_pred m ↔
          ∃ p g, data Nw !! p = Some x ∧ data G !! p = Some g ∧ 0 < g ∧ 0 < x) →
  size (tp_gt m) = 0 ↔ size (tp_pred m) = 0.
Proof.
  intros Htg Htp. split; intros Hz.
  - destruct (decide (size (tp_pred m) = 0)) as [|Hne]; [done|]. exfalso.
    destruct (size_pos_elem_of (tp_pred m)) as [x Hx]; [lia|].
    apply Htp in Hx as (p & g & Hx & Hg & Hg0 & Hx0).
    apply (lookup_Nw labels preds lesion_class preds_wf) in Hx as (v & Hv & ->).
    assert (Hin : g ∈ tp_gt m).
    { apply Htg. exists p, v. repeat split; try done. case_decide; lia. }
    apply size_empty_inv in Hz. by apply Hz in Hin.
  - destruct (decide (size (tp_gt m) = 0)) as [|Hne]; [done|]. exfalso.
    destruct (size_pos_elem_of (tp_gt m)) as [x Hx]; [lia|].
    apply Htg in Hx as (p & v & Hx & Hv & Hx0 & Hv0).
    assert (Hin : v + n_gt ∈ tp_pred m).
    { apply Htp. exists p, x. split; [|split; [done|lia]].
      apply (lookup_Nw labels preds lesion_class preds_wf). exists v.
      split; [done|]. rewrite decide_False; [done|lia]. }
    apply size_empty_inv in Hz. by apply Hz in Hin.
Qed.

(** X6.  The five counts returned for volumes of one shape are consistent:
    true positives and false negatives add up to the number of ground-truth
    instances, false positives are at most the number of predicted
    instances, and there is no true positive exactly when every predicted
    instance is a false positive. *)
Theorem counts_are_consistent :
  ∃ n_gt' n_pred' tp fp fn,
    compute_lesion_level_metrics labels preds lesion_class =
      Ok (n_gt', n_pred', tp, fp, fn) ∧
    tp + fn = n_gt' ∧ fp ≤ n_pred' ∧ (tp = 0 ↔ fp = n_pred').
Proof.
  destruct compute_metrics_spec as (m & _ & Hc & H1 & H2 & _ & _ & Htg & Htp & _).
  eexists _, _, _, _, _. split; [exact Hc|]. split; [done|]. split; [lia|].
  rewrite (matched_sides_empty_together m Htg Htp). lia.
Qed.

(** X7.  When the prediction has the lesion class on exactly the voxels of
    the ground truth, every instance is matched on both sides: the counts
    are [(n, n, n, 0, 0)]. *)
Theorem identical_masks_are_all_true_positives :
  np_eq_scalar preds lesion_class = np_eq_scalar labels lesion_class →
  compute_lesion_level_metrics labels preds lesion_class =
    Ok (n_gt, n_gt, n_gt, 0, 0).
Proof.
  intros Hmask.
  destruct compute_metrics_spec
    as (m & _ & Hc & H1 & H2 & Hu1 & Hu2 & Htg & Htp & _).
  rewrite Hc. revert H1 H2 Hu1 Hu2 Htg Htp. rewrite Hmask. intros.
  assert (Ht : tp_gt m = list_to_set (seq 1 n_gt)).
  { apply set_eq. intros x. split.
    - intros Hx. rewrite <-Hu2. apply elem_of_union. by left.
    - intros Hx%elem_of_list_to_set%elem_of_seq.
      destruct (label_onto gt_mask (gt_mask_wf labels lesion_class labels_wf) x)
        as [p Hp]; [lia|].
      apply Htg. exists p, x. repeat split; try done; lia. }
  assert (Hp : tp_pred m = list_to_set (seq (n_gt + 1) n_gt)).
  { apply set_eq. intros x. split.
    - intros Hx. rewrite <-Hu1. apply elem_of_union. by left.
    - intros Hx%elem_of_list_to_set%elem_of_seq.
      destruct (label_onto gt_mask (gt_mask_wf labels lesion_class labels_wf)
                  (x - n_gt)) as [p Hp]; [lia|].
      apply Htp. exists p, (x - n_gt). split; [|split; [done|lia]].
      cbn [data]. rewrite list_lookup_fmap, Hp. simpl. f_equal.
      rewrite decide_True; lia. }
  assert (Hst : size (tp_gt m) = n_gt).
  { rewrite Ht, size_list_to_set by apply NoDup_seq. by rewrite length_seq. }
  assert (Hsp : size (tp_pred m) = n_gt).
  { rewrite Hp, size_list_to_set by apply NoDup_seq. by rewrite length_seq. }
  repeat f_equal; lia.
Qed.
Lemma lookup_mask (volume : ndarray Z) (c : Z) p x :
  data (astype_int (np_eq_scalar volume c)) !! p = Some x →
  ∃ z, data volume !! p = Some z ∧ (x ≠ 0 ↔ z = c).
Proof.
  simpl. rewrite !list_lookup_fmap.
  destruct (data volume !! p) as [z|]; [|done]. simpl. intros [= <-].
  exists z. split; [done|]. case_bool_decide; split; try done; lia.
Qed.

(** A volume without the class has no instance of the class. *)
Lemma label_count_zero (volume : ndarray Z) (c : Z) :
  wf_array volume → (∀ z, z ∈ data volume → z ≠ c) →
  (label (astype_int (np_eq_scalar volume c)) ones).2 = 0.
Proof.
  intros Hwf Hno.
  pose proof (gt_mask_wf volume c Hwf) as Hm.
  destruct (decide ((label (astype_int (np_eq_scalar volume c)) ones).2 = 0))
    as [|Hne]; [done|]. exfalso.
  destruct (label_onto _ Hm 1) as [p Hp]; [lia|].
  assert (Hfg : foreground (astype_int (np_eq_scalar volume c)) p).
  { by apply (label_nonzero _ Hm p 1 Hp). }
  unfold foreground in Hfg.
  destruct (data (astype_int (np_eq_scalar volume c)) !! p) as [x|] eqn:Hx; [|done].
  apply bool_decide_unpack in Hfg.
  apply lookup_mask in Hx as (z & Hz & Hiff).
  apply (Hno z); [by eapply list_elem_of_lookup_2 | by apply Hiff].
Qed.

(** X8.  When the prediction has no voxel of the lesion class, nothing is
    predicted and nothing is matched: every ground-truth instance is a false
    negative, and the counts are [(n_gt, 0, 0, 0, n_gt)]. *)
Theorem empty_prediction_misses_every_lesion :
  (∀ z, z ∈ data preds → z ≠ lesion_class) →
  compute_lesion_level_metrics labels preds lesion_class = Ok (n_gt, 0, 0, 0, n_gt).
Proof.
  intros Hno.
  destruct compute_metrics_spec as (m & _ & Hc & H1 & H2 & _ & _ & Htg & Htp & _).
  pose proof (label_count_zero preds lesion_class preds_wf Hno) as Hn.
  pose proof (matched_sides_empty_together m Htg Htp) as Hem.
  rewrite Hc, Hn. rewrite Hn in H1. repeat f_equal; lia.
Qed.

(** X9.  When the ground truth has no voxel of the lesion class, every
    predicted instance is a false positive: the counts are
    [(0, n_pred, 0, n_pred, 0)]. *)
Theorem empty_ground_truth_makes_every_prediction_false :
  (∀ z, z ∈ data labels → z ≠ lesion_class) →
  compute_lesion_level_metrics labels preds lesion_class =
    Ok (0, n_pred, 0, n_pred, 0).
Proof.
  intros Hno.
  destruct compute_metrics_spec as (m & _ & Hc & H1 & H2 & _ & _ & Htg & Htp & _).
  pose proof (label_count_zero labels lesion_class labels_wf Hno) as Hn.
  pose proof (matched_sides_empty_together m Htg Htp) as Hem.
  rewrite Hc, Hn. rewrite Hn in H2. repeat f_equal; lia.
Qed.

(** X10.  The false negatives are exactly the ground-truth instances none
    of whose voxels carries the lesion class in the prediction; the reported
    count is their number. *)
Theorem false_negatives_have_no_predicted_voxel :
  ∃ m, overlap_matching G P Nw = Ok m ∧
    compute_lesion_level_metrics labels preds lesion_class =
      Ok (n_gt, n_pred, size (tp_gt m), size (fp_ids m), size (fn_ids m)) ∧
    (∀ g, g ∈ fn_ids m ↔
          1 ≤ g ≤ n_gt ∧
          ∀ p, data G !! p = Some g → ∃ z, data preds !! p = Some z ∧ z ≠ lesion_class).
Proof.
  destruct compute_metrics_spec
    as (m & Hm & Hc & _ & _ & _ & _ & Htg & _ & _ & Hfn).
  exists m. split; [done|]. split; [done|].
  pose proof (lookup_Nw labels preds lesion_class preds_wf) as HNw.
  pose proof (lookup_G_P labels preds lesion_class labels_wf preds_wf same_shape) as HGP.
  assert (Hpred : ∀ p v, data P !! p = Some v →
                         ∃ z, data preds !! p = Some z ∧ (v = 0 ↔ z ≠ lesion_class)).
  { intros p v Hv. destruct (lookup_lt_is_Some_2 (data preds) p) as [z Hz].
    { rewrite preds_wf, <-same_shape,
        <-(length_P labels preds lesion_class preds_wf same_shape).
      by eapply lookup_lt_Some. }
    exists z. split; [done|].
    exact (gt_label_zero_iff preds lesion_class p v z preds_wf Hv Hz). }
  intros g. rewrite Hfn. split.
  - intros [(p & v & Hg & Hv & Hg0 & ->) Hntp].
    pose proof (label_range _ (gt_mask_wf labels lesion_class labels_wf) _ _ Hg).
    split; [lia|]. intros q Hq.
    destruct (proj1 (HGP q)) as [w Hw]; [by eexists|].
    destruct (Hpred q w Hw) as (z & Hz & Hiff). exists z. split; [done|].
    apply Hiff. destruct (decide (w = 0)) as [|Hne]; [done|]. exfalso.
    apply Hntp, Htg. exists q, w. repeat split; try done; lia.
  - intros [Hrange Hall].
    destruct (label_onto _ (gt_mask_wf labels lesion_class labels_wf) g Hrange)
      as [p Hp].
    destruct (proj1 (HGP p)) as [w Hw]; [by eexists|].
    destruct (Hpred p w Hw) as (z & Hz & Hiff).
    destruct (Hall p Hp) as (z' & Hz' & Hne). assert (z' = z) as -> by congruence.
    apply Hiff in Hne. subst w. split.
    + exists p, 0. split; [done|]. split; [|lia].
      apply HNw. exists 0. split; [done|]. by rewrite decide_True.
    + intros (q & v & Hq & Hv & _ & Hv0)%Htg.
      destruct (Hpred q v Hv) as (y & Hy & Hiff').
      destruct (Hall q Hq) as (y' & Hy' & Hyne).
      assert (y' = y) as -> by congruence. apply Hiff' in Hyne. lia.
Qed.
End CaseCounts.

Lemma counts_are_consistent_witness :
  ∃ n_gt n_pred tp fp fn,
    compute_lesion_level_metrics (NdArray (1, 1, 5) [2; 0; 2; 2; 0]%Z)
                                 (NdArray (1, 1, 5) [2; 2; 0; 0; 2]%Z) 2 =
      Ok (n_gt, n_pred, tp, fp, fn) ∧
    tp + fn = n_gt ∧ fp ≤ n_pred ∧ (tp = 0 ↔ fp = n_pred).
Proof.
  apply (counts_are_consistent (NdArray (1, 1, 5) [2; 0; 2; 2; 0]%Z)
           (NdArray (1, 1, 5) [2; 2; 0; 0; 2]%Z) 2); reflexivity.
Defined.

Lemma identical_masks_are_all_true_positives_witness :
  compute_lesion_level_metrics (NdArray (1, 1, 5) [2; 0; 2; 1; 0]%Z)
                               (NdArray (1, 1, 5) [2; 1; 2; 0; 0]%Z) 2 =
    Ok (2, 2, 2, 0, 0).
Proof.
  apply (identical_masks_are_all_true_positives (NdArray (1, 1, 5) [2; 0; 2; 1; 0]%Z)
           (NdArray (1, 1, 5) [2; 1; 2; 0; 0]%Z) 2); reflexivity.
Defined.

Lemma empty_prediction_misses_every_lesion_witness :
  compute_lesion_level_metrics (NdArray (1, 1, 5) [2; 0; 2; 2; 0]%Z)
                               (NdArray (1, 1, 5) [0; 1; 0; 0; 1]%Z) 2 =
    Ok (2, 0, 0, 0, 2).
Proof.
  apply (empty_prediction_misses_every_lesion (NdArray (1, 1, 5) [2; 0; 2; 2; 0]%Z)
           (NdArray (1, 1, 5) [0; 1; 0; 0; 1]%Z) 2); [reflexivity..|].
  intros z Hz. repeat (apply elem_of_cons in Hz as [->|Hz]; [discriminate|]).
  by apply not_elem_of_nil in Hz.
Defined.

Lemma empty_ground_truth_makes_every_prediction_false_witness :
  compute_lesion_level_metrics (NdArray (1, 1, 5) [0; 1; 0; 0; 1]%Z)
                               (NdArray (1, 1, 5) [2; 0; 2; 2; 0]%Z) 2 =
    Ok (0, 2, 0, 2, 0).
Proof.
  apply (empty_ground_truth_makes_every_prediction_false
           (NdArray (1, 1, 5) [0; 1; 0; 0; 1]%Z)
           (NdArray (1, 1, 5) [2; 0; 2; 2; 0]%Z) 2); [reflexivity..|].
  intros z Hz. repeat (apply elem_of_cons in Hz as [->|Hz]; [discriminate|]).
  by apply not_elem_of_nil in Hz.
Defined.

Lemma false_negatives_have_no_predicted_voxel_witness :
  compute_lesion_level_metrics (NdArray (1, 1, 5) [2; 0; 2; 2; 0]%Z)
                               (NdArray (1, 1, 5) [2; 2; 0; 0; 2]%Z) 2 =
    Ok (2, 2, 1, 1, 1).
Proof.
  destruct (false_negatives_have_no_predicted_voxel
              (NdArray (1, 1, 5) [2; 0; 2; 2; 0]%Z)
              (NdArray (1, 1, 5) [2; 2; 0; 0; 2]%Z) 2)
    as (m & Hm & Hc & _); [reflexivity..|].
  rewrite Hc. vm_compute in Hm. injection Hm as <-. vm_compute. reflexivity.
Defined.

Lemma size_shifted (X Y : gset nat) (k : nat) :
  (∀ y, y ∈ Y ↔ ∃ x, x ∈ X ∧ y = x + k) → size Y = size X.
Proof.
  intros H.
  assert (Y = list_to_set ((λ x, x + k) <$> elements X)) as ->.
  { apply set_eq. intros y. rewrite H, elem_of_list_to_set, list_elem_of_fmap.
    setoid_rewrite elem_of_elements. split; intros (x & ? & ?); by exists x. }
  rewrite size_list_to_set.
  - by rewrite length_fmap.
  - apply NoDup_fmap_2; [intros a b; lia | apply NoDup_elements].
Qed.

(** X11.  Exchanging the roles of the two volumes exchanges false positives
    and false negatives: if the call returns [(n_gt, n_pred, tp, fp, fn)],
    the call with the arguments exchanged returns
    [(n_pred, n_gt, n_pred - fp, fn, fp)].  The true-positive count is the
    only one that depends on the side it is counted on. *)
Theorem exchanging_the_volumes_exchanges_fp_and_fn
    (labels preds : ndarray Z) (lesion_class : Z) :
  wf_array labels → wf_array preds → shape labels = shape preds →
  ∃ n_gt n_pred tp fp fn,
    compute_lesion_level_metrics labels preds lesion_class =
      Ok (n_gt, n_pred, tp, fp, fn) ∧
    compute_lesion_level_metrics preds labels lesion_class =
      Ok (n_pred, n_gt, n_pred - fp, fn, fp).
Proof.
  intros Hl Hp Hs.
  destruct (compute_metrics_spec labels preds lesion_class Hl Hp Hs)
    as (m & _ & Hc & H1 & H2 & _ & _ & Htg & Htp & _).
  destruct (compute_metrics_spec preds labels lesion_class Hp Hl (eq_sym Hs))
    as (m' & _ & Hc' & H1' & H2' & _ & _ & Htg' & Htp' & _).
  pose proof (lookup_Nw labels preds lesion_class Hp) as HNw.
  pose proof (lookup_Nw preds labels lesion_class Hl) as HNw'.
  assert (Hs1 : size (tp_pred m) = size (tp_gt m')).
  { apply size_shifted with
      (k := (label (astype_int (np_eq_scalar labels lesion_class)) (np_ones (3, 3, 3))).2).
    intros y. rewrite Htp. split.
    - intros (p & g & (v & Hv & ->)%HNw & Hg & Hg0 & Hy0).
      exists v. case_decide; [lia|]. split; [|done].
      apply Htg'. exists p, g. repeat split; try done; lia.
    - intros (x & (p & v & Hx & Hv & Hx0 & Hv0)%Htg' & ->).
      exists p, v. split; [|split; [done|lia]].
      apply HNw. exists x. split; [done|]. rewrite decide_False; [done|lia]. }
  assert (Hs2 : size (tp_pred m') = size (tp_gt m)).
  { apply size_shifted with
      (k := (label (astype_int (np_eq_scalar preds lesion_class)) (np_ones (3, 3, 3))).2).
    intros y. rewrite Htp'. split.
    - intros (p & g & (v & Hv & ->)%HNw' & Hg & Hg0 & Hy0).
      exists v. case_decide; [lia|]. split; [|done].
      apply Htg. exists p, g. repeat split; try done; lia.
    - intros (x & (p & v & Hx & Hv & Hx0 & Hv0)%Htg & ->).
      exists p, v. split; [|split; [done|lia]].
      apply HNw'. exists x. split; [done|]. rewrite decide_False; [done|lia]. }
  assert (E1 : size (tp_gt m') =
    (label (astype_int (np_eq_scalar preds lesion_class)) (np_ones (3, 3, 3))).2
    - size (fp_ids m)) by lia.
  assert (E2 : size (fp_ids m') = size (fn_ids m)) by lia.
  assert (E3 : size (fn_ids m') = size (fp_ids m)) by lia.
  eexists _, _, _, _, _. split; [exact Hc|]. by rewrite Hc', E1, E2, E3.
Qed.

Lemma exchanging_the_volumes_exchanges_fp_and_fn_witness :
  compute_lesion_level_metrics (NdArray (1, 1, 5) [2; 2; 0; 0; 2]%Z)
                               (NdArray (1, 1, 5) [2; 0; 2; 2; 0]%Z) 2 =
    Ok (2, 2, 1, 1, 1).
Proof.
  destruct (exchanging_the_volumes_exchanges_fp_and_fn
              (NdArray (1, 1, 5) [2; 0; 2; 2; 0]%Z)
              (NdArray (1, 1, 5) [2; 2; 0; 0; 2]%Z) 2)
    as (n_gt & n_pred & tp & fp & fn & Hc & Hc'); [reflexivity..|].
  vm_compute in Hc. injection Hc as <- <- <- <- <-. exact Hc'.
Defined.

(** * More on the detection score *)

Lemma ratio_eq_iff (a b : nat) (z : Z) :
  b ≠ 0 →
  (inject_Z (Z.of_nat a) / inject_Z (Z.of_nat b) == inject_Z z)%Q ↔
  Z.of_nat a = (z * Z.of_nat b)%Z.
Proof.
  intros Hb.
  assert (Hnz : ¬ (inject_Z (Z.of_nat b) == 0)%Q).
  { change 0%Q with (inject_Z 0). rewrite inject_Z_injective. lia. }
  rewrite <-(Qmult_inj_r _ _ (inject_Z (Z.of_nat b)) Hnz).
  rewrite (Qmult_comm (_ / _)), Qmult_div_r by done.
  rewrite <-inject_Z_mult. apply inject_Z_injective.
Qed.

(** X12.  When the denominator is not zero the score is 1 exactly when there
    is neither a false positive nor a false negative, and 0 exactly when
    there is no true positive. *)
Theorem f1_extremes (tp fp fn : nat) :
  2 * tp + fp + fn ≠ 0 →
  ∃ q, f1_score tp fp fn = Ok (Float q) ∧
       ((q == 1)%Q ↔ fp = 0 ∧ fn = 0) ∧
       ((q == 0)%Q ↔ tp = 0).
Proof.
  intros Hnz. destruct (f1_score_spec tp fp fn) as (Hdef & _).
  destruct (Hdef Hnz) as [Heq _]. eexists. split; [exact Heq|]. split.
  - change 1%Q with (inject_Z 1). rewrite ratio_eq_iff by done. lia.
  - change 0%Q with (inject_Z 0). rewrite ratio_eq_iff by done. lia.
Qed.

Lemma f1_extremes_witness :
  ∃ q, f1_score 3 0 0 = Ok (Float q) ∧ (q == 1)%Q.
Proof.
  destruct (f1_extremes 3 0 0) as (q & Hq & H1 & _); [lia|].
  exists q. split; [exact Hq|]. by apply H1.
Defined.

(** * More on the loop over the cases *)

Lemma lesion_level_records_unfold ids labels_dict preds_dict lesion_class :
  lesion_level_records ids labels_dict preds_dict lesion_class =
  for_each (λ acc case, r ← case_record labels_dict preds_dict lesion_class case;
                        Ok (acc ++ [r])) ids [].
Proof. done. Qed.

Lemma f1_score_is_Ok tp fp fn : ∃ f1, f1_score tp fp fn = Ok f1.
Proof.
  destruct (f1_score_spec tp fp fn) as (Hdef & Hnan & _).
  destruct (decide (2 * tp + fp + fn = 0)) as [Hz|Hnz].
  - exists NaN. by apply Hnan.
  - eexists. by apply Hdef.
Qed.

Lemma dict_get_Forall {V : Type} (P : V → Prop) (d : dict V) k v :
  Forall P (dict_values d) → dict_get d k = Ok v → P v.
Proof.
  intros Hall Hget. rewrite Forall_forall in Hall. apply Hall.
  apply dict_get_present in Hget. apply list_elem_of_fmap. by exists (k, v).
Qed.

Lemma dict_get_key {V : Type} (d : dict V) k v : dict_get d k = Ok v → k ∈ d.*1.
Proof.
  intros Hget. apply dict_get_present in Hget. apply list_elem_of_fmap. by exists (k, v).
Qed.

(** The per-case function returns exactly for volumes of one shape and,
    among the others, for the pairs whose mismatch goes unchecked when
    neither volume has an instance of the class. *)
Lemma compute_is_ok (l p : ndarray Z) (lesion_class : Z) :
  wf_array l → wf_array p →
  is_ok (compute_lesion_level_metrics l p lesion_class) = true ↔
  shape l = shape p ∨
  (unchecked (shape l) (shape p) ∧
   instance_count l lesion_class = 0 ∧ instance_count p lesion_class = 0).
Proof.
  intros Hl Hp. destruct (decide (shape l = shape p)) as [Hs|Hs].
  - destruct (compute_metrics_spec l p lesion_class Hl Hp Hs) as (m & _ & -> & _).
    split; [by left | done].
  - destruct (compute_mismatch_cases l p lesion_class Hs)
      as (Hvalue & Hindex & Hassert & Hsilent).
    split.
    + intros Hok. right.
      destruct (broadcast_shapes (shape l) (shape p)) as [u|] eqn:Hu.
      2:{ rewrite Hvalue in Hok by done. done. }
      destruct (decide (unchecked (shape l) (shape p))) as [Hun|Hun].
      2:{ rewrite Hindex in Hok; [done|by eexists|done]. }
      split; [done|].
      destruct (decide (instance_count l lesion_class = 0)) as [H1|H1].
      * destruct (decide (instance_count p lesion_class = 0)) as [H2|H2]; [done|].
        rewrite Hassert in Hok; [done|done|by right].
      * rewrite Hassert in Hok; [done|done|by left].
    + intros [?|(Hun & H1 & H2)]; [done|]. by rewrite Hsilent.
Qed.

(** The record of a case is computed when both dictionaries hold the case
    and the per-case function returns; otherwise the case raises the
    [KeyError] of the dictionary that lacks it, or the exception of the
    per-case function. *)
Lemma case_record_outcome (labels_dict preds_dict : dict (ndarray Z))
    (lesion_class : Z) (case : string) :
  (∃ r l p counts,
      case_record labels_dict preds_dict lesion_class case = Ok r ∧
      dict_get labels_dict case = Ok l ∧ dict_get preds_dict case = Ok p ∧
      compute_lesion_level_metrics l p lesion_class = Ok counts ∧
      key_of "case_id" r = Some (CStr case)) ∨
  (∃ e, case_record labels_dict preds_dict lesion_class case = Raise e ∧
        ((e = KeyError case ∧
          (case ∉ labels_dict.*1 ∨ case ∉ preds_dict.*1)) ∨
         (∃ l p, dict_get labels_dict case = Ok l ∧ dict_get preds_dict case = Ok p ∧
                 compute_lesion_level_metrics l p lesion_class = Raise e))).
Proof.
  unfold case_record.
  destruct (dict_get labels_dict case) as [l|e] eqn:Hl; cbn [mbind result_bind].
  2:{ right. exists e. split; [done|]. left.
      destruct (decide (case ∈ labels_dict.*1)) as [Hin|Hnin].
      - apply dict_get_is_Ok in Hin as [v Hv]. congruence.
      - rewrite dict_get_absent in Hl by done. injection Hl as <-.
        split; [done | by left]. }
  destruct (dict_get preds_dict case) as [p|e] eqn:Hp; cbn [mbind result_bind].
  2:{ right. exists e. split; [done|]. left.
      destruct (decide (case ∈ preds_dict.*1)) as [Hin|Hnin].
      - apply dict_get_is_Ok in Hin as [v Hv]. congruence.
      - rewrite dict_get_absent in Hp by done. injection Hp as <-.
        split; [done | by right]. }
  destruct (compute_lesion_level_metrics l p lesion_class)
    as [[[[[n_gt n_pred] tp] fp] fn]|e] eqn:Hc; cbn [mbind result_bind].
  - destruct (f1_score_is_Ok tp fp fn) as [f1 ->]. cbn [mbind result_bind].
    left. eexists _, l, p, _. split; [reflexivity|]. split; [done|].
    split; [done|]. split; [exact Hc|]. reflexivity.
  - right. exists e. split; [done|]. right. by exists l, p.
Qed.

Lemma collect_Raise_inv {A B : Type} (f : A → result B) (xs : list A) (acc : list B) e :
  for_each (λ acc x, r ← f x; Ok (acc ++ [r])) xs acc = Raise e →
  ∃ x, x ∈ xs ∧ f x = Raise e.
Proof.
  revert acc. induction xs as [|x xs IH]; intros acc; cbn [for_each]; [done|].
  destruct (f x) as [r|e'] eqn:Hr; cbn [mbind result_bind].
  - intros (y & Hy & He)%IH. exists y. split; [by right | done].
  - intros [= ->]. exists x. split; [by left | done].
Qed.

(** X13.  When the loop over the cases succeeds, its table has one row per
    entry of the list of identifiers, in the order of the list and with
    repetitions, each row holding its identifier under [case_id]; the table
    has the [case_id] column unless the list is empty, in which case it has
    no column at all. *)
Theorem cohort_table_has_one_row_per_case
    (ids : list string) (labels_dict preds_dict : dict (ndarray Z))
    (lesion_class : Z) (table : DataFrame) :
  compute_all_lesion_level_metrics ids labels_dict preds_dict lesion_class = Ok table →
  case_ids table = (λ case, Some (CStr case)) <$> ids ∧
  length (rows table) = length ids ∧
  (ids ≠ [] → "case_id" ∈ columns table) ∧
  (ids = [] → columns table = []).
Proof.
  unfold compute_all_lesion_level_metrics.
  destruct (lesion_level_records ids labels_dict preds_dict lesion_class)
    as [rs|] eqn:Hrs; cbn [mbind result_bind]; [|done].
  intros [= <-]. apply lesion_level_records_Ok in Hrs.
  unfold case_ids. cbn [rows columns from_records].
  assert (Hkeys : key_of "case_id" <$> rs = (λ case, Some (CStr case)) <$> ids).
  { induction Hrs as [|case r ids rs Hr _ IH]; [done|].
    rewrite !fmap_cons, IH. f_equal. by eapply case_record_key. }
  split; [done|]. split; [symmetry; by eapply Forall2_length|]. split.
  - intros Hne. destruct Hrs as [|case r ids rs Hr _]; [done|].
    apply elem_of_first_appearance. cbn [mbind list_bind]. apply elem_of_app. left.
    apply case_record_key in Hr. unfold key_of in Hr.
    destruct (dict_get r "case_id") as [c|] eqn:Hc; [|done].
    apply dict_get_present in Hc. apply list_elem_of_fmap. by exists ("case_id", c).
  - intros ->. by inversion Hrs.
Qed.

Lemma cohort_table_has_one_row_per_case_witness :
  ∃ table,
    compute_all_lesion_level_metrics ["c2"; "c1"; "c2"]
      [("c1", NdArray (1, 1, 2) [2; 0]%Z); ("c2", NdArray (1, 1, 1) [0]%Z)]
      [("c1", NdArray (1, 1, 2) [2; 2]%Z); ("c2", NdArray (1, 1, 1) [2]%Z)] 2
      = Ok table ∧
    case_ids table = [Some (CStr "c2"); Some (CStr "c1"); Some (CStr "c2")].
Proof.
  eexists. split; [vm_compute; reflexivity|].
  refine (proj1 (cohort_table_has_one_row_per_case ["c2"; "c1"; "c2"]
            [("c1", NdArray (1, 1, 2) [2; 0]%Z); ("c2", NdArray (1, 1, 1) [0]%Z)]
            [("c1", NdArray (1, 1, 2) [2; 2]%Z); ("c2", NdArray (1, 1, 1) [2]%Z)]
            2 _ _)).
  vm_compute. reflexivity.
Defined.

(** X14.  With well-formed volumes in the two dictionaries, the loop over
    the cases succeeds exactly when every listed case is in both
    dictionaries with two volumes that have one shape, or whose shapes
    differ only by axes of length one against length zero while neither
    volume has an instance of the class. *)
Theorem cohort_succeeds_iff_all_cases_match
    (ids : list string) (labels_dict preds_dict : dict (ndarray Z)) (lesion_class : Z) :
  Forall wf_array (dict_values labels_dict) →
  Forall wf_array (dict_values preds_dict) →
  is_ok (compute_all_lesion_level_metrics ids labels_dict preds_dict lesion_class) = true ↔
  ∀ case, case ∈ ids →
    ∃ l p, dict_get labels_dict case = Ok l ∧ dict_get preds_dict case = Ok p ∧
           (shape l = shape p ∨
            (unchecked (shape l) (shape p) ∧
             instance_count l lesion_class = 0 ∧ instance_count p lesion_class = 0)).
Proof.
  intros Hwl Hwp. unfold compute_all_lesion_level_metrics. split.
  - destruct (lesion_level_records ids labels_dict preds_dict lesion_class)
      as [rs|] eqn:Hrs; cbn [mbind result_bind]; [|done].
    intros _ case [i Hi]%list_elem_of_lookup.
    apply lesion_level_records_Ok in Hrs.
    destruct (Forall2_lookup_l _ _ _ _ _ Hrs Hi) as (r & _ & Hr).
    destruct (case_record_outcome labels_dict preds_dict lesion_class case)
      as [(r' & l & p & counts & _ & Hl & Hp & Hc & _)|(e & He & _)]; [|congruence].
    exists l, p. split; [done|]. split; [done|].
    apply (compute_is_ok l p lesion_class).
    + exact (dict_get_Forall _ _ _ _ Hwl Hl).
    + exact (dict_get_Forall _ _ _ _ Hwp Hp).
    + by rewrite Hc.
  - intros Hall.
    destruct (collect_total (case_record labels_dict preds_dict lesion_class) ids)
      as [rs Hrs].
    { intros case Hin. destruct (Hall case Hin) as (l & p & Hl & Hp & Hshape).
      destruct (case_record_outcome labels_dict preds_dict lesion_class case)
        as [(r & _ & _ & _ & Hr & _)
           |(e & _ & [[_ Hmiss]|(l' & p' & Hl' & Hp' & Hc)])];
        [by exists r|exfalso..].
      - apply dict_get_key in Hl, Hp. tauto.
      - assert (l' = l) as -> by congruence. assert (p' = p) as -> by congruence.
        apply (compute_is_ok l p lesion_class) in Hshape.
        + by rewrite Hc in Hshape.
        + exact (dict_get_Forall _ _ _ _ Hwl Hl).
        + exact (dict_get_Forall _ _ _ _ Hwp Hp). }
    rewrite lesion_level_records_unfold.
    by rewrite (collect_Ok _ ids [] rs Hrs).
Qed.

Lemma cohort_succeeds_iff_all_cases_match_witness :
  is_ok (compute_all_lesion_level_metrics ["c1"; "c2"]
           [("c1", NdArray (1, 1, 2) [2; 0]%Z); ("c2", NdArray (1, 1, 0) [])]
           [("c1", NdArray (1, 1, 2) [2; 2]%Z); ("c2", NdArray (1, 1, 1) [0]%Z)] 2) = true.
Proof.
  apply (cohort_succeeds_iff_all_cases_match ["c1"; "c2"]
           [("c1", NdArray (1, 1, 2) [2; 0]%Z); ("c2", NdArray (1, 1, 0) [])]
           [("c1", NdArray (1, 1, 2) [2; 2]%Z); ("c2", NdArray (1, 1, 1) [0]%Z)] 2).
  - repeat constructor.
  - repeat constructor.
  - intros case Hin. apply elem_of_cons in Hin as [->|Hin].
    + eexists _, _. split; [reflexivity|]. split; [reflexivity|]. by left.
    + apply list_elem_of_singleton in Hin as ->.
      eexists _, _. split; [reflexivity|]. split; [reflexivity|]. right.
      split; [|split; reflexivity].
      unfold unchecked, unchecked_axis. simpl. tauto.
Defined.

(** X15.  With well-formed volumes in the two dictionaries, the loop over
    the cases raises nothing but the [KeyError] of a listed case that a
    dictionary lacks and the exception of a listed case whose two volumes
    differ in shape: [ValueError] when the shapes cannot be broadcast,
    [IndexError] when they can but differ otherwise than by axes of length
    one against length zero, [AssertionError] when they differ only so and
    a volume has an instance of the class.  For volumes of one shape the
    assertions never fail, and the division by zero never reaches the
    caller. *)
Theorem cohort_raises_only_key_and_shape_errors
    (ids : list string) (labels_dict preds_dict : dict (ndarray Z)) (lesion_class : Z)
    (e : exn) :
  Forall wf_array (dict_values labels_dict) →
  Forall wf_array (dict_values preds_dict) →
  compute_all_lesion_level_metrics ids labels_dict preds_dict lesion_class = Raise e →
  (∃ case, case ∈ ids ∧ e = KeyError case ∧
           (case ∉ labels_dict.*1 ∨ case ∉ preds_dict.*1)) ∨
  (∃ case l p,
      case ∈ ids ∧ dict_get labels_dict case = Ok l ∧ dict_get preds_dict case = Ok p ∧
      shape l ≠ shape p ∧
      ((e = ValueError ∧ broadcast_shapes (shape l) (shape p) = None) ∨
       (e = IndexError ∧ is_Some (broadcast_shapes (shape l) (shape p)) ∧
        ¬ unchecked (shape l) (shape p)) ∨
       (e = AssertionError ∧ unchecked (shape l) (shape p) ∧
        (instance_count l lesion_class ≠ 0 ∨ instance_count p lesion_class ≠ 0)))).
Proof.
  intros Hwl Hwp. unfold compute_all_lesion_level_metrics.
  destruct (lesion_level_records ids labels_dict preds_dict lesion_class)
    as [rs|e'] eqn:Hrs; cbn [mbind result_bind]; [done|].
  intros [= ->]. rewrite lesion_level_records_unfold in Hrs.
  apply collect_Raise_inv in Hrs as (case & Hin & Hcase).
  destruct (case_record_outcome labels_dict preds_dict lesion_class case)
    as [(r & _ & _ & _ & Hr & _)
       |(e' & He' & [[-> Hmiss]|(l & p & Hl & Hp & Hc)])]; [congruence|..].
  - left. exists case. split; [done|]. split; [congruence | done].
  - assert (e' = e) as -> by congruence.
    right. exists case, l, p. split; [done|]. split; [done|]. split; [done|].
    pose proof (dict_get_Forall _ _ _ _ Hwl Hl) as Hl'.
    pose proof (dict_get_Forall _ _ _ _ Hwp Hp) as Hp'.
    destruct (decide (shape l = shape p)) as [Hs|Hs].
    { destruct (compute_metrics_spec l p lesion_class Hl' Hp' Hs) as (m & _ & Hok & _).
      congruence. }
    split; [done|].
    destruct (compute_mismatch_cases l p lesion_class Hs)
      as (Hvalue & Hindex & Hassert & Hsilent).
    destruct (broadcast_shapes (shape l) (shape p)) as [u|] eqn:Hu.
    2:{ left. split; [|done]. rewrite Hvalue in Hc by done. congruence. }
    right. destruct (decide (unchecked (shape l) (shape p))) as [Hun|Hun].
    2:{ left. split; [|split; [by eexists | done]].
        rewrite Hindex in Hc; [congruence | by eexists | done]. }
    right.
    destruct (decide (instance_count l lesion_class = 0)) as [H1|H1].
    + destruct (decide (instance_count p lesion_class = 0)) as [H2|H2].
      * rewrite Hsilent in Hc by done. done.
      * split; [|split; [done | by right]].
        rewrite Hassert in Hc; [congruence | done | by right].
    + split; [|split; [done | by left]].
      rewrite Hassert in Hc; [congruence | done | by left].
Qed.

Lemma cohort_raises_only_key_and_shape_errors_witness :
  (∃ case, case ∈ ["c1"; "c2"] ∧ AssertionError = KeyError case ∧
           (case ∉ [("c1", NdArray (1, 1, 2) [2; 0]%Z);
                    ("c2", NdArray (1, 1, 0) [])].*1 ∨
            case ∉ [("c1", NdArray (1, 1, 2) [2; 2]%Z);
                    ("c2", NdArray (1, 1, 1) [2]%Z)].*1)) ∨
  (∃ case l p,
      case ∈ ["c1"; "c2"] ∧
      dict_get [("c1", NdArray (1, 1, 2) [2; 0]%Z); ("c2", NdArray (1, 1, 0) [])] case
        = Ok l ∧
      dict_get [("c1", NdArray (1, 1, 2) [2; 2]%Z); ("c2", NdArray (1, 1, 1) [2]%Z)] case
        = Ok p ∧
      shape l ≠ shape p ∧
      ((AssertionError = ValueError ∧ broadcast_shapes (shape l) (shape p) = None) ∨
       (AssertionError = IndexError ∧ is_Some (broadcast_shapes (shape l) (shape p)) ∧
        ¬ unchecked (shape l) (shape p)) ∨
       (AssertionError = AssertionError ∧ unchecked (shape l) (shape p) ∧
        (instance_count l 2 ≠ 0 ∨ instance_count p 2 ≠ 0)))).
Proof.
  apply (cohort_raises_only_key_and_shape_errors ["c1"; "c2"]
           [("c1", NdArray (1, 1, 2) [2; 0]%Z); ("c2", NdArray (1, 1, 0) [])]
           [("c1", NdArray (1, 1, 2) [2; 2]%Z); ("c2", NdArray (1, 1, 1) [2]%Z)] 2).
  - repeat constructor.
  - repeat constructor.
  - vm_compute. reflexivity.
Defined.

Section EmptyCohort.
Context (read_labels_and_preds : string → Dataset → result (ndarray Z * ndarray Z)).

(** X16.  For an empty list of identifiers the table of the lesions has no
    column, so both cohorts fail at the merge with the [KeyError] of
    [case_id], whatever the table of the voxel metrics is. *)
Theorem empty_cohort_fails_at_the_merge (df : DataFrame) :
  test_cohort_table read_labels_and_preds df [] = Raise (KeyError "case_id") ∧
  msseg2_cohort read_labels_and_preds df [] = Raise (KeyError "case_id").
Proof.
  unfold test_cohort_table, msseg2_cohort, get_all_preds_and_labels.
  cbn [for_each mbind result_bind].
  unfold compute_all_lesion_level_metrics, lesion_level_records.
  cbn [for_each mbind result_bind]. unfold merge. cbn [columns from_records].
  rewrite decide_False; [done|]. intros [_ Hin]. by apply not_elem_of_nil in Hin.
Qed.
End EmptyCohort.

(** * More on the volumes of a cohort *)

Lemma dict_set_fresh {V : Type} (d : dict V) k v :
  k ∉ d.*1 → dict_set d k v = d ++ [(k, v)].
Proof.
  induction d as [|[k' v'] d IH]; simpl; [done|].
  rewrite not_elem_of_cons. intros [Hne Hd]. rewrite decide_False by done.
  by rewrite IH.
Qed.

Lemma zip_join {A B : Type} (xs : list (list A)) (ys : list (list B)) :
  Forall2 (λ a b, length a = length b) xs ys →
  zip (mjoin xs) (mjoin ys) = mjoin (zip_with zip xs ys) ∧
  length (mjoin xs) = length (mjoin ys).
Proof.
  induction 1 as [|a b xs ys Hab _ [IH1 IH2]]; [done|].
  change (mjoin (a :: xs)) with (a ++ mjoin xs).
  change (mjoin (b :: ys)) with (b ++ mjoin ys).
  change (mjoin (zip_with zip (a :: xs) (b :: ys)))
    with (zip a b ++ mjoin (zip_with zip xs ys)).
  split.
  - rewrite (zip_with_app pair a (mjoin xs) b (mjoin ys) Hab). f_equal. exact IH1.
  - rewrite !length_app, IH2, Hab. done.
Qed.

Section CohortVolumes.
Context (read_labels_and_preds : string → Dataset → result (ndarray Z * ndarray Z)).

Lemma get_all_fresh dataset ids labels0 preds0 labels preds :
  NoDup ids →
  (∀ case, case ∈ ids → (case ∉ labels0.*1) ∧ (case ∉ preds0.*1)) →
  for_each
    (λ '(labels, preds) case,
       '(sample_labels, sample_predictions) ← read_labels_and_preds case dataset;
       Ok (dict_set labels case sample_labels,
           dict_set preds case sample_predictions))
    ids (labels0, preds0) = Ok (labels, preds) →
  ∃ vs, Forall2 (λ case vw, read_labels_and_preds case dataset = Ok vw) ids vs ∧
        labels = labels0 ++ zip ids (vs.*1) ∧ preds = preds0 ++ zip ids (vs.*2).
Proof.
  revert labels0 preds0. induction ids as [|c ids IH]; intros labels0 preds0.
  - intros _ _ [= <- <-]. exists []. split; [constructor|]. by rewrite !app_nil_r.
  - intros [Hc Hnd]%NoDup_cons Hfresh. cbn [for_each].
    destruct (read_labels_and_preds c dataset) as [[v w]|e] eqn:Hr;
      cbn [mbind result_bind]; [|done].
    destruct (Hfresh c) as [Hl Hp]; [by left|].
    rewrite !dict_set_fresh by done. intros Hloop.
    apply IH in Hloop as (vs & Hvs & -> & ->); [|done|].
    + exists ((v, w) :: vs). split; [by constructor|].
      rewrite !fmap_cons. cbn [zip zip_with fst snd]. by rewrite <-!app_assoc.
    + intros case Hin. destruct (Hfresh case) as [Hl' Hp']; [by right|].
      rewrite !fmap_app. cbn [fmap list_fmap fst].
      rewrite !not_elem_of_app, !list_elem_of_singleton.
      repeat split; try done; intros ->; done.
Qed.

Lemma get_all_structure dataset ids labels preds :
  NoDup ids →
  get_all_preds_and_labels read_labels_and_preds ids dataset = Ok (labels, preds) →
  ∃ vs, Forall2 (λ case vw, read_labels_and_preds case dataset = Ok vw) ids vs ∧
        labels = zip ids (vs.*1) ∧ preds = zip ids (vs.*2).
Proof.
  intros Hnd Hget.
  apply (get_all_fresh dataset ids [] [] labels preds Hnd) in Hget; [done|].
  intros case _. split; apply not_elem_of_nil.
Qed.

Lemma get_all_total dataset ids :
  (∀ case, case ∈ ids → ∃ vw, read_labels_and_preds case dataset = Ok vw) →
  ∃ labels preds,
    get_all_preds_and_labels read_labels_and_preds ids dataset = Ok (labels, preds).
Proof.
  unfold get_all_preds_and_labels. generalize (@nil (string * ndarray Z)) at 1.
  generalize (@nil (string * ndarray Z)).
  induction ids as [|c ids IH]; intros preds0 labels0 Hall; cbn [for_each].
  - by eexists _, _.
  - destruct (Hall c) as [[v w] ->]; [by left|]. cbn [mbind result_bind].
    apply IH. intros case Hin. apply Hall. by right.
Qed.

(** X17.  For distinct identifiers, the two dictionaries returned by
    [get_all_preds_and_labels] list the cases in the order of the
    identifiers, and the volumes at one position of the two dictionaries are
    the pair read for that case. *)
Theorem dictionaries_follow_the_identifiers
    (ids : list string) (dataset : Dataset) (labels preds : dict (ndarray Z)) :
  NoDup ids →
  get_all_preds_and_labels read_labels_and_preds ids dataset = Ok (labels, preds) →
  labels.*1 = ids ∧ preds.*1 = ids ∧
  Forall2 (λ case vw, read_labels_and_preds case dataset = Ok vw)
          ids (zip (dict_values labels) (dict_values preds)).
Proof.
  intros Hnd Hget.
  destruct (get_all_structure dataset ids labels preds Hnd Hget)
    as (vs & Hvs & -> & ->).
  pose proof (Forall2_length _ _ _ Hvs) as Hlen. unfold dict_values.
  rewrite !fst_zip, !snd_zip by (rewrite length_fmap; lia).
  split; [done|]. split; [done|]. by rewrite zip_fst_snd.
Qed.

(** X18.  [get_all_preds_and_labels] stops at the first case that cannot be
    read and raises the exception of that read; nothing is returned for the
    cases read before. *)
Theorem first_failing_read_is_raised
    (pre post : list string) (case : string) (dataset : Dataset) (e : exn) :
  Forall (λ c, ∃ vw, read_labels_and_preds c dataset = Ok vw) pre →
  read_labels_and_preds case dataset = Raise e →
  get_all_preds_and_labels read_labels_and_preds (pre ++ case :: post) dataset
    = Raise e.
Proof.
  intros Hpre Hcase. unfold get_all_preds_and_labels.
  generalize (@nil (string * ndarray Z)) at 1. generalize (@nil (string * ndarray Z)).
  induction Hpre as [|c pre [[v w] Hc] _ IH]; intros preds0 labels0;
    cbn [for_each app].
  - by rewrite Hcase.
  - rewrite Hc. cbn [mbind result_bind]. apply IH.
Qed.

(** X19.  For distinct identifiers whose volumes are well formed and of one
    shape per case, the two inputs of the confusion matrix have the same
    length and are aligned: their pairing is the concatenation, case by
    case, of the pairings of the two volumes of the case. *)
Theorem confusion_inputs_are_aligned
    (ids : list string) (dataset : Dataset) (labels preds : dict (ndarray Z)) :
  NoDup ids →
  get_all_preds_and_labels read_labels_and_preds ids dataset = Ok (labels, preds) →
  (∀ case v w, case ∈ ids → read_labels_and_preds case dataset = Ok (v, w) →
               wf_array v ∧ wf_array w ∧ shape v = shape w) →
  length (flattened labels) = length (flattened preds) ∧
  zip (flattened labels) (flattened preds) =
    mjoin (zip_with (λ l p, zip (data l) (data p))
                    (dict_values labels) (dict_values preds)).
Proof.
  intros Hnd Hget Hwf.
  destruct (get_all_structure dataset ids labels preds Hnd Hget)
    as (vs & Hvs & -> & ->).
  pose proof (Forall2_length _ _ _ Hvs) as Hlen. unfold flattened, dict_values.
  rewrite !snd_zip by (rewrite length_fmap; lia).
  assert (Hal : Forall2 (λ a b : list Z, length a = length b)
                        (data <$> vs.*1) (data <$> vs.*2)).
  { clear Hget Hnd. induction Hvs as [|case [v w] ids vs Hr _ IH]; [constructor|].
    rewrite !fmap_cons. constructor.
    - destruct (Hwf case v w) as (Hv & Hw & Hs); [by left|done|].
      cbn [fst snd]. by rewrite Hv, Hw, Hs.
    - apply IH; [|simpl in Hlen; lia]. intros c v' w' Hin. apply Hwf. by right. }
  destruct (zip_join _ _ Hal) as [Hzip Hlen']. split; [done|].
  rewrite Hzip. f_equal. clear.
  induction vs as [|[v w] vs IH]; [done|]. rewrite !fmap_cons. cbn [zip_with fst snd].
  by rewrite IH.
Qed.
End CohortVolumes.

Lemma dictionaries_follow_the_identifiers_witness :
  let read := λ (case : string) (_ : Dataset),
    if decide (case = "c1")
    then Ok (NdArray (1, 1, 2) [2; 0]%Z, NdArray (1, 1, 2) [2; 2]%Z)
    else Ok (NdArray (1, 1, 1) [0]%Z, NdArray (1, 1, 1) [2]%Z) in
  [("c2", NdArray (1, 1, 1) [0]%Z); ("c1", NdArray (1, 1, 2) [2; 0]%Z)].*1
    = ["c2"; "c1"].
Proof.
  intros read.
  refine (proj1 (dictionaries_follow_the_identifiers read ["c2"; "c1"] test_split
            [("c2", NdArray (1, 1, 1) [0]%Z); ("c1", NdArray (1, 1, 2) [2; 0]%Z)]
            [("c2", NdArray (1, 1, 1) [2]%Z); ("c1", NdArray (1, 1, 2) [2; 2]%Z)]
            _ _)).
  - apply NoDup_cons. split; [|apply NoDup_singleton].
    intros Hin%list_elem_of_singleton. discriminate Hin.
  - reflexivity.
Defined.

Lemma first_failing_read_is_raised_witness :
  let read := λ (case : string) (_ : Dataset),
    if decide (case = "c1")
    then Ok (NdArray (1, 1, 2) [2; 0]%Z, NdArray (1, 1, 2) [2; 2]%Z)
    else Raise (KeyError case) in
  get_all_preds_and_labels read (["c1"] ++ "c2" :: ["c3"]) msseg2
    = Raise (KeyError "c2").
Proof.
  intros read. apply (first_failing_read_is_raised read ["c1"] ["c3"] "c2" msseg2).
  - constructor; [by eexists | constructor].
  - reflexivity.
Defined.

Lemma confusion_inputs_are_aligned_witness :
  let read := λ (case : string) (_ : Dataset),
    if decide (case = "c1")
    then Ok (NdArray (1, 1, 2) [2; 0]%Z, NdArray (1, 1, 2) [2; 2]%Z)
    else Ok (NdArray (1, 1, 1) [0]%Z, NdArray (1, 1, 1) [2]%Z) in
  length (flattened [("c1", NdArray (1, 1, 2) [2; 0]%Z); ("c2", NdArray (1, 1, 1) [0]%Z)])
  = length (flattened [("c1", NdArray (1, 1, 2) [2; 2]%Z); ("c2", NdArray (1, 1, 1) [2]%Z)]).
Proof.
  intros read.
  refine (proj1 (confusion_inputs_are_aligned read ["c1"; "c2"] msseg2
            [("c1", NdArray (1, 1, 2) [2; 0]%Z); ("c2", NdArray (1, 1, 1) [0]%Z)]
            [("c1", NdArray (1, 1, 2) [2; 2]%Z); ("c2", NdArray (1, 1, 1) [2]%Z)]
            _ _ _)).
  - apply NoDup_cons. split; [|apply NoDup_singleton].
    intros Hin%list_elem_of_singleton. discriminate Hin.
  - reflexivity.
  - intros case v w _. unfold read. case_decide; intros [= <- <-]; done.
Defined.

(** * The table of a cohort, end to end *)

(** A merge in which every row of the left table finds its one row of the
    right table. *)
Lemma merge_matched (left right : DataFrame) :
  "case_id" ∈ columns left → "case_id" ∈ columns right →
  NoDup (case_ids right) →
  (∀ k, k ∈ case_ids left → k ∈ case_ids right) →
  ∃ df, merge left right "case_id" = Ok df ∧
        case_ids df = case_ids left ∧ "case_id" ∈ columns df.
Proof.
  intros Hl Hr Hnd Hsub. unfold merge. rewrite decide_True by done.
  eexists. split; [reflexivity|]. unfold case_ids in *. cbn [rows columns].
  split; [|apply elem_of_app; by left].
  induction (rows left) as [|l ls IH]; [done|].
  cbn [mbind list_bind]. rewrite fmap_app, fmap_cons.
  rewrite keys_join_rows_once; [|done|apply Hsub; rewrite fmap_cons; by left].
  simpl. f_equal. apply IH. intros k Hk. apply Hsub. rewrite fmap_cons. by right.
Qed.

Lemma compute_all_Ok (ids : list string) (labels_dict preds_dict : dict (ndarray Z))
    (lesion_class : Z) :
  Forall wf_array (dict_values labels_dict) →
  Forall wf_array (dict_values preds_dict) →
  (∀ case, case ∈ ids →
     ∃ l p, dict_get labels_dict case = Ok l ∧ dict_get preds_dict case = Ok p ∧
            shape l = shape p) →
  ∃ table,
    compute_all_lesion_level_metrics ids labels_dict preds_dict lesion_class = Ok table ∧
    case_ids table = (λ case, Some (CStr case)) <$> ids ∧
    (ids ≠ [] → "case_id" ∈ columns table).
Proof.
  intros Hwl Hwp Hall.
  destruct (collect_total (case_record labels_dict preds_dict lesion_class) ids)
    as [rs Hrs].
  { intros case Hin. destruct (Hall case Hin) as (l & p & Hl & Hp & Hs).
    destruct (case_record_outcome labels_dict preds_dict lesion_class case)
      as [(r & _ & _ & _ & Hr & _)
         |(e & _ & [[_ Hmiss]|(l' & p' & Hl' & Hp' & Hc)])];
      [by exists r|exfalso..].
    - apply dict_get_key in Hl, Hp. tauto.
    - assert (l' = l) as -> by congruence. assert (p' = p) as -> by congruence.
      destruct (compute_metrics_spec l p lesion_class) as (m & _ & Hok & _);
        [exact (dict_get_Forall _ _ _ _ Hwl Hl)
        |exact (dict_get_Forall _ _ _ _ Hwp Hp)|done|].
      congruence. }
  exists (from_records rs). unfold compute_all_lesion_level_metrics.
  rewrite lesion_level_records_unfold, (collect_Ok _ ids [] rs Hrs).
  cbn [mbind result_bind app]. split; [done|].
  unfold case_ids. cbn [rows columns from_records]. split.
  - clear Hall. induction Hrs as [|case r ids rs Hr _ IH]; [done|].
    rewrite !fmap_cons, IH. f_equal. by eapply case_record_key.
  - intros Hne. destruct Hrs as [|case r ids rs Hr _]; [done|].
    apply elem_of_first_appearance. cbn [mbind list_bind]. apply elem_of_app. left.
    apply case_record_key in Hr. unfold key_of in Hr.
    destruct (dict_get r "case_id") as [c|] eqn:Hc; [|done].
    apply dict_get_present in Hc. apply list_elem_of_fmap. by exists ("case_id", c).
Qed.

Section EndToEnd.
Context (read_labels_and_preds : string → Dataset → result (ndarray Z * ndarray Z)).

(** The cohort of the test split under its preconditions.  The rows of the
    table of the voxel metrics carry distinct identifiers, so that the
    order of the merged rows is that of pandas. *)
Lemma test_cohort_table_spec
    (test_results_df : DataFrame) (test_ids : list string) :
  NoDup test_ids → test_ids ≠ [] →
  (∀ case, case ∈ test_ids →
     ∃ v w, read_labels_and_preds case test_split = Ok (v, w) ∧
            wf_array v ∧ wf_array w ∧ shape v = shape w) →
  "case_id" ∈ columns test_results_df →
  NoDup (case_ids test_results_df) →
  (∀ k, k ∈ case_ids test_results_df →
        ∃ case, case ∈ test_ids ∧ k = Some (CStr case)) →
  ∃ table,
    test_cohort_table read_labels_and_preds test_results_df test_ids = Ok table ∧
    case_ids table = case_ids test_results_df ∧
    length (rows table) = length (rows test_results_df).
Proof.
  intros Hnd Hne Hread Hcol _ Hsub. unfold test_cohort_table.
  destruct (get_all_total read_labels_and_preds test_split test_ids)
    as (labels & preds & Hget).
  { intros case Hin. destruct (Hread case Hin) as (v & w & ? & _). by eexists. }
  rewrite Hget. cbn [mbind result_bind].
  destruct (get_all_structure read_labels_and_preds test_split test_ids labels preds
              Hnd Hget) as (vs & Hvs & Hl & Hp).
  pose proof (Forall2_length _ _ _ Hvs) as Hlen.
  assert (Hwf : Forall wf_array (dict_values labels) ∧ Forall wf_array (dict_values preds)).
  { subst labels preds. unfold dict_values.
    rewrite !snd_zip by (rewrite length_fmap; lia).
    split; apply Forall_fmap, Forall_forall; intros [v w] [i Hi]%list_elem_of_lookup;
      destruct (Forall2_lookup_r _ _ _ _ _ Hvs Hi) as (case & Hc & Hr);
      destruct (Hread case) as (v' & w' & Hr' & Hv & Hw & _);
      try (by eapply list_elem_of_lookup_2);
      assert (v' = v ∧ w' = w) as [-> ->] by (split; congruence); done. }
  destruct Hwf as [Hwl Hwp].
  assert (Hall : ∀ case, case ∈ test_ids →
    ∃ l p, dict_get labels case = Ok l ∧ dict_get preds case = Ok p ∧ shape l = shape p).
  { intros case Hin.
    destruct (get_all_loop read_labels_and_preds test_split test_ids [] [] labels preds
                Hget case) as [Hfound _].
    destruct (Hfound Hin) as (v & w & Hr & Hgl & Hgp).
    destruct (Hread case Hin) as (v' & w' & Hr' & _ & _ & Hs).
    assert (v' = v ∧ w' = w) as [-> ->] by (split; congruence). by exists v, w. }
  destruct (compute_all_Ok test_ids labels preds 1 Hwl Hwp Hall) as (b & -> & Hb & Hbc).
  destruct (compute_all_Ok test_ids labels preds 2 Hwl Hwp Hall) as (n & -> & Hn & Hnc).
  cbn [mbind result_bind].
  assert (Hids : NoDup ((λ case, Some (CStr case)) <$> test_ids)).
  { apply NoDup_fmap_2; [|done]. by intros a b' [= ->]. }
  assert (Hin : ∀ k, k ∈ case_ids test_results_df →
                     k ∈ (λ case, Some (CStr case)) <$> test_ids).
  { intros k (case & Hc & ->)%Hsub. apply list_elem_of_fmap. by exists case. }
  destruct (merge_matched test_results_df n) as (df1 & -> & Hk1 & Hc1);
    [done|by apply Hnc|by rewrite Hn|by rewrite Hn|].
  cbn [mbind result_bind].
  destruct (merge_matched df1 b) as (df2 & -> & Hk2 & Hc2);
    [done|by apply Hbc|by rewrite Hb|by rewrite Hk1, Hb|].
  exists df2. split; [done|]. split; [congruence|].
  assert (Hlen2 : length (case_ids df2) = length (case_ids test_results_df))
    by congruence.
  unfold case_ids in Hlen2. by rewrite !length_fmap in Hlen2.
Qed.

(** X20.  The table of the test split, lines 229-238: when the identifiers
    are distinct and not empty, every case is read as two well-formed
    volumes of one shape, and the table of the voxel metrics has the
    [case_id] column, no repeated identifier and only listed cases, the
    script reads the volumes, computes both lesion tables and merges them
    without error, and the result has the rows of the table of the voxel
    metrics, one per row and in its order. *)
Theorem test_cohort_keeps_the_rows_of_the_voxel_table
    (test_results_df : DataFrame) (test_ids : list string) :
  NoDup test_ids → test_ids ≠ [] →
  (∀ case, case ∈ test_ids →
     ∃ v w, read_labels_and_preds case test_split = Ok (v, w) ∧
            wf_array v ∧ wf_array w ∧ shape v = shape w) →
  "case_id" ∈ columns test_results_df →
  NoDup (case_ids test_results_df) →
  (∀ k, k ∈ case_ids test_results_df →
        ∃ case, case ∈ test_ids ∧ k = Some (CStr case)) →
  ∃ table,
    test_cohort_table read_labels_and_preds test_results_df test_ids = Ok table ∧
    case_ids table = case_ids test_results_df ∧
    length (rows table) = length (rows test_results_df).
Proof.
  intros Hnd Hne Hread Hcol Hleft Hsub.
  destruct (test_cohort_table_spec test_results_df test_ids Hnd Hne Hread Hcol Hleft
              Hsub) as (table & Htable & Hids & Hlen).
  by exists table.
Qed.
End EndToEnd.

Lemma test_cohort_keeps_the_rows_of_the_voxel_table_witness :
  let read := λ (case : string) (_ : Dataset),
    if decide (case = "c1")
    then Ok (NdArray (1, 1, 2) [2; 0]%Z, NdArray (1, 1, 2) [2; 2]%Z)
    else Ok (NdArray (1, 1, 1) [0]%Z, NdArray (1, 1, 1) [2]%Z) in
  ∃ table,
    test_cohort_table read
      (from_records [[("case_id", CStr "c2")]; [("case_id", CStr "c1")]])
      ["c1"; "c2"] = Ok table ∧
    length (rows table) = 2.
Proof.
  intros read.
  destruct (test_cohort_keeps_the_rows_of_the_voxel_table read
              (from_records [[("case_id", CStr "c2")]; [("case_id", CStr "c1")]])
              ["c1"; "c2"]) as (table & Htable & _ & Hlen).
  - apply NoDup_cons. split; [|apply NoDup_singleton].
    intros Hin%list_elem_of_singleton. discriminate Hin.
  - discriminate.
  - intros case _. unfold read. case_decide; eexists _, _; repeat split; reflexivity.
  - vm_compute. left.
  - vm_compute. apply NoDup_cons. split; [|apply NoDup_singleton].
    intros Hin%list_elem_of_singleton. discriminate Hin.
  - intros k Hk. vm_compute in Hk.
    apply elem_of_cons in Hk as [->|Hk]; [exists "c2"; split; [by right; left|done]|].
    apply list_elem_of_singleton in Hk as ->. exists "c1". split; [by left|done].
  - by exists table.
Defined.

Lemma format_results_rows (metric_per_case : list case_metrics) :
  ∃ df, format_results_into_df metric_per_case = Ok df ∧
    Forall2 (λ cm k, ∃ cid, case_id_of (prediction_file cm) = Ok cid ∧
                            k = Some (CStr cid))
            metric_per_case (case_ids df) ∧
    (metric_per_case ≠ [] → "case_id" ∈ columns df).
Proof.
  destruct (collect_total format_case metric_per_case) as [rs Hrs].
  { intros cm _. destruct (format_case_unfold cm) as (cid & _ & ->). by eexists. }
  exists (from_records rs). unfold format_results_into_df.
  rewrite (collect_Ok format_case metric_per_case [] rs Hrs).
  cbn [mbind result_bind app]. split; [done|].
  unfold case_ids. cbn [rows columns from_records].
  assert (Hkey : Forall2 (λ cm r, ∃ cid, case_id_of (prediction_file cm) = Ok cid ∧
                                         key_of "case_id" r = Some (CStr cid))
                         metric_per_case rs).
  { eapply Forall2_impl; [exact Hrs|]. intros cm r Hr.
    destruct (case_id_of_is_Ok (prediction_file cm)) as [cid Hcid].
    exists cid. split; [done|]. unfold key_of.
    by rewrite (format_case_case_id cm cid r Hcid Hr). }
  split.
  - apply Forall2_fmap_r. eapply Forall2_impl; [exact Hkey|]. done.
  - intros Hne. destruct Hkey as [|cm r cms rs' (cid & _ & Hk) _]; [done|].
    apply elem_of_first_appearance. cbn [mbind list_bind]. apply elem_of_app. left.
    unfold key_of in Hk. destruct (dict_get r "case_id") as [c|] eqn:Hc; [|done].
    apply dict_get_present in Hc. apply list_elem_of_fmap. by exists ("case_id", c).
Qed.

Lemma test_split_ids_raw (test_images : list string) :
  ∃ raw, Forall2 (λ file_name i, test_split_id file_name = Ok i) test_images raw ∧
         test_split_ids test_images = Ok (py_sorted_set raw).
Proof.
  destruct (collect_total test_split_id test_images) as [raw Hraw].
  { intros f _. apply test_split_id_is_Ok. }
  exists raw. split; [done|]. unfold test_split_ids.
  by rewrite (collect_Ok test_split_id test_images [] raw Hraw).
Qed.

Section TestSplit.
Context (read_labels_and_preds : string → Dataset → result (ndarray Z * ndarray Z)).

(** X21.  The evaluation of the test split, lines 223-238, from the summary
    of the voxel metrics and the listing of the image folder: when the
    summary is not empty and its entries have distinct identifiers, the
    identifier of every listed image is read as two well-formed volumes of
    one shape, and the identifier of every entry of the summary is that of
    a listed image, these lines produce a table that has one row per entry
    of the summary, in the order of the summary, each under the identifier
    of its prediction file. *)
Theorem test_split_evaluation_keeps_the_summary_rows
    (metric_per_case : list case_metrics) (test_images : list string) :
  metric_per_case ≠ [] →
  NoDup ((λ cm, case_id_of (prediction_file cm)) <$> metric_per_case) →
  (∀ file_name i, file_name ∈ test_images → test_split_id file_name = Ok i →
     ∃ v w, read_labels_and_preds i test_split = Ok (v, w) ∧
            wf_array v ∧ wf_array w ∧ shape v = shape w) →
  (∀ cm, cm ∈ metric_per_case →
     ∃ file_name cid, file_name ∈ test_images ∧ test_split_id file_name = Ok cid ∧
                      case_id_of (prediction_file cm) = Ok cid) →
  ∃ table,
    evaluate_test_split read_labels_and_preds metric_per_case test_images = Ok table ∧
    length (rows table) = length metric_per_case ∧
    Forall2 (λ cm k, ∃ cid, case_id_of (prediction_file cm) = Ok cid ∧
                            k = Some (CStr cid))
            metric_per_case (case_ids table).
Proof.
  intros Hne Hdistinct Hread Hlisted. unfold evaluate_test_split.
  destruct (format_results_rows metric_per_case) as (df & -> & Hrows & Hcol).
  assert (Hleft : NoDup (case_ids df)).
  { apply NoDup_alt. intros i j k Hi Hj.
    destruct (Forall2_lookup_r _ _ _ _ _ Hrows Hi) as (cm & Hcm & cid & Hcid & ->).
    destruct (Forall2_lookup_r _ _ _ _ _ Hrows Hj) as (cm' & Hcm' & cid' & Hcid' & Heq).
    injection Heq as <-.
    apply (proj1 (NoDup_alt _) Hdistinct i j (Ok cid));
      rewrite list_lookup_fmap; [by rewrite Hcm; simpl; rewrite Hcid
                                |by rewrite Hcm'; simpl; rewrite Hcid']. }
  destruct (test_split_ids_raw test_images) as (raw & Hraw & ->).
  cbn [mbind result_bind].
  assert (Hraw_in : ∀ i, i ∈ raw ↔
            ∃ file_name, file_name ∈ test_images ∧ test_split_id file_name = Ok i).
  { intros i. split.
    - intros [n Hn]%list_elem_of_lookup.
      destruct (Forall2_lookup_r _ _ _ _ _ Hraw Hn) as (f & Hf & Hi).
      exists f. split; [by eapply list_elem_of_lookup_2 | done].
    - intros (f & [n Hn]%list_elem_of_lookup & Hi).
      destruct (Forall2_lookup_l _ _ _ _ _ Hraw Hn) as (i' & Hi' & Hfi).
      assert (i' = i) as -> by congruence. by eapply list_elem_of_lookup_2. }
  destruct (test_cohort_table_spec read_labels_and_preds df (py_sorted_set raw))
    as (table & Htable & Hids & Hlen).
  - apply NoDup_py_sorted_set.
  - destruct metric_per_case as [|cm cms]; [done|].
    destruct (Hlisted cm) as (f & cid & Hf & Hcid & _); [by left|].
    intros Hnil. assert (Hin : cid ∈ py_sorted_set raw).
    { apply elem_of_py_sorted_set, Hraw_in. by exists f. }
    rewrite Hnil in Hin. by apply not_elem_of_nil in Hin.
  - intros case (f & Hf & Hi)%elem_of_py_sorted_set%Hraw_in. by apply (Hread f).
  - by apply Hcol.
  - exact Hleft.
  - intros k [n Hn]%list_elem_of_lookup.
    destruct (Forall2_lookup_r _ _ _ _ _ Hrows Hn) as (cm & Hcm & cid & Hcid & ->).
    destruct (Hlisted cm) as (f & cid' & Hf & Hfi & Hcid');
      [by eapply list_elem_of_lookup_2|].
    assert (cid' = cid) as -> by congruence.
    exists cid. split; [|done]. apply elem_of_py_sorted_set, Hraw_in. by exists f.
  - exists table. split; [done|]. split.
    + rewrite Hlen. pose proof (Forall2_length _ _ _ Hrows) as Hl.
      unfold case_ids in Hl. by rewrite length_fmap in Hl.
    + by rewrite Hids.
Qed.
End TestSplit.

Lemma test_split_evaluation_keeps_the_summary_rows_witness :
  let read := λ (case : string) (_ : Dataset),
    if decide (case = "p1")
    then Ok (NdArray (1, 1, 2) [2; 0]%Z, NdArray (1, 1, 2) [2; 2]%Z)
    else Ok (NdArray (1, 1, 1) [0]%Z, NdArray (1, 1, 1) [2]%Z) in
  ∃ table,
    evaluate_test_split read
      [CaseMetrics "out/p2.nii.gz" ∅; CaseMetrics "out/p1.nii.gz" ∅]
      ["p1_0000.nii.gz"; "p2_0000.nii.gz"] = Ok table ∧
    length (rows table) = 2.
Proof.
  intros read.
  destruct (test_split_evaluation_keeps_the_summary_rows read
              [CaseMetrics "out/p2.nii.gz" ∅; CaseMetrics "out/p1.nii.gz" ∅]
              ["p1_0000.nii.gz"; "p2_0000.nii.gz"]) as (table & Htable & Hlen & _).
  - discriminate.
  - apply NoDup_cons. split; [|apply NoDup_singleton].
    intros Hin%list_elem_of_singleton. vm_compute in Hin. discriminate Hin.
  - intros f i _ _. unfold read. case_decide; eexists _, _; repeat split; reflexivity.
  - intros cm Hcm.
    apply elem_of_cons in Hcm as [->|Hcm].
    + exists "p2_0000.nii.gz", "p2". split; [by right; left|]. split; reflexivity.
    + apply list_elem_of_singleton in Hcm as ->.
      exists "p1_0000.nii.gz", "p1". split; [by left|]. split; reflexivity.
  - by exists table.
Defined.

(** X22.  The identifiers of the second cohort are the listed file names
    without their last seven characters, sorted and without duplicates; a
    file made of a name and a suffix of seven characters such as [.nii.gz]
    gives the name, dots in the name included. *)
Theorem msseg2_ids_drop_the_extension (test_images : list string) :
  NoDup (msseg2_ids test_images) ∧
  Sorted (λ a b : string, Is_true (String.leb a b)) (msseg2_ids test_images) ∧
  (∀ i, i ∈ msseg2_ids test_images ↔
        ∃ file_name, file_name ∈ test_images ∧ i = drop_last 7 file_name) ∧
  (∀ name suffix, String.length suffix = 7 → name +:+ suffix ∈ test_images →
                  name ∈ msseg2_ids test_images).
Proof.
  unfold msseg2_ids. split; [apply NoDup_py_sorted_set|].
  split; [apply Sorted_py_sorted_set|].
  assert (Hin : ∀ i, i ∈ py_sorted_set (drop_last 7 <$> test_images) ↔
                ∃ file_name, file_name ∈ test_images ∧ i = drop_last 7 file_name).
  { intros i. rewrite elem_of_py_sorted_set, list_elem_of_fmap.
    split; intros (f & ? & ?); by exists f. }
  split; [exact Hin|]. intros name suffix Hlen Hfile. apply Hin.
  exists (name +:+ suffix). split; [done|]. rewrite <-Hlen. by rewrite drop_last_suffix.
Qed.

Lemma compute_all_case_ids (ids : list string) (labels_dict preds_dict : dict (ndarray Z))
    (lesion_class : Z) (table : DataFrame) :
  compute_all_lesion_level_metrics ids labels_dict preds_dict lesion_class = Ok table →
  case_ids table = (λ case, Some (CStr case)) <$> ids.
Proof.
  unfold compute_all_lesion_level_metrics.
  destruct (lesion_level_records ids labels_dict preds_dict lesion_class)
    as [rs|] eqn:Hrs; cbn [mbind result_bind]; [|done].
  intros [= <-]. apply lesion_level_records_Ok in Hrs.
  unfold case_ids. cbn [rows from_records].
  induction Hrs as [|case r ids rs Hr _ IH]; [done|].
  rewrite !fmap_cons, IH. f_equal. by eapply case_record_key.
Qed.

Section SecondCohort.
Context (read_labels_and_preds : string → Dataset → result (ndarray Z * ndarray Z)).

(** X23.  The second cohort, lines 254-258 and 273-274.  Whenever these
    lines give a table and the two inputs of the confusion matrix, for
    distinct identifiers and a table of the voxel metrics without repeated
    identifiers and with listed cases only, the merged table has the rows
    of the table of the voxel metrics, row for row, and the two inputs are
    the concatenations, in the order of the identifiers, of the label
    volumes and of the prediction volumes that were read; they have the
    same length when the two volumes of every case are well formed and of
    one shape. *)
Theorem msseg2_cohort_keeps_rows_and_aligns_voxels
    (MSSEG2_results_df table : DataFrame) (test_ids : list string)
    (y_true y_pred : list Z) :
  NoDup test_ids →
  NoDup (case_ids MSSEG2_results_df) →
  (∀ k, k ∈ case_ids MSSEG2_results_df →
        ∃ case, case ∈ test_ids ∧ k = Some (CStr case)) →
  msseg2_cohort read_labels_and_preds MSSEG2_results_df test_ids
    = Ok (table, (y_true, y_pred)) →
  case_ids table = case_ids MSSEG2_results_df ∧
  ∃ vs,
    Forall2 (λ case vw, read_labels_and_preds case msseg2 = Ok vw) test_ids vs ∧
    y_true = mjoin (data <$> vs.*1) ∧
    y_pred = mjoin (data <$> vs.*2) ∧
    (Forall (λ vw, wf_array vw.1 ∧ wf_array vw.2 ∧ shape vw.1 = shape vw.2) vs →
     length y_true = length y_pred).
Proof.
  intros Hnd _ Hsub. unfold msseg2_cohort.
  destruct (get_all_preds_and_labels read_labels_and_preds test_ids msseg2)
    as [[labels preds]|] eqn:Hget; cbn [mbind result_bind]; [|done].
  destruct (compute_all_lesion_level_metrics test_ids labels preds 2)
    as [n|] eqn:Hn; cbn [mbind result_bind]; [|done].
  destruct (merge MSSEG2_results_df n "case_id") as [df1|] eqn:Hmerge;
    cbn [mbind result_bind]; [|done].
  intros [= <- <- <-].
  destruct (get_all_structure read_labels_and_preds msseg2 test_ids labels preds
              Hnd Hget) as (vs & Hvs & Hl & Hp).
  pose proof (Forall2_length _ _ _ Hvs) as Hlen.
  pose proof (compute_all_case_ids _ _ _ _ _ Hn) as Hids.
  split.
  - assert (Hcols : "case_id" ∈ columns MSSEG2_results_df ∧ "case_id" ∈ columns n).
    { unfold merge in Hmerge. by case_decide. }
    destruct Hcols as [Hcl Hcr].
    destruct (merge_matched MSSEG2_results_df n) as (df & Hdf & Hk & _);
      [done|done| | |].
    + rewrite Hids. apply NoDup_fmap_2; [|done]. by intros a b [= ->].
    + intros k (case & Hc & ->)%Hsub. rewrite Hids. apply list_elem_of_fmap.
      by exists case.
    + congruence.
  - exists vs. split; [done|].
    assert (Hvl : dict_values labels = vs.*1 ∧ dict_values preds = vs.*2).
    { subst labels preds. unfold dict_values.
      by rewrite !snd_zip by (rewrite length_fmap; lia). }
    destruct Hvl as [Hvl Hvp]. unfold flattened. rewrite Hvl, Hvp.
    split; [done|]. split; [done|]. intros Hwf.
    apply zip_join. clear -Hwf.
    induction Hwf as [|[v w] vs (Hv & Hw & Hs) _ IH]; [constructor|].
    rewrite !fmap_cons. constructor; [|exact IH].
    cbn [fst snd] in *. by rewrite Hv, Hw, Hs.
Qed.
End SecondCohort.

Lemma msseg2_cohort_keeps_rows_and_aligns_voxels_witness :
  let read := λ (case : string) (_ : Dataset),
    if decide (case = "c1")
    then Ok (NdArray (1, 1, 2) [2; 0]%Z, NdArray (1, 1, 2) [2; 2]%Z)
    else Ok (NdArray (1, 1, 1) [0]%Z, NdArray (1, 1, 1) [2]%Z) in
  ∃ table,
    msseg2_cohort read
      (from_records [[("case_id", CStr "c2"); ("new_n_ref", CInt 0)];
                     [("case_id", CStr "c1"); ("new_n_ref", CInt 1)]])
      ["c1"; "c2"] = Ok (table, ([2; 0; 0]%Z, [2; 2; 2]%Z)) ∧
    case_ids table = [Some (CStr "c2"); Some (CStr "c1")].
Proof.
  intros read.
  assert (Hrun : ∃ table,
    msseg2_cohort read
      (from_records [[("case_id", CStr "c2"); ("new_n_ref", CInt 0)];
                     [("case_id", CStr "c1"); ("new_n_ref", CInt 1)]])
      ["c1"; "c2"] = Ok (table, ([2; 0; 0]%Z, [2; 2; 2]%Z))).
  { eexists. vm_compute. reflexivity. }
  destruct Hrun as [table Hrun]. exists table. split; [exact Hrun|].
  refine (proj1 (msseg2_cohort_keeps_rows_and_aligns_voxels read
            (from_records [[("case_id", CStr "c2"); ("new_n_ref", CInt 0)];
                           [("case_id", CStr "c1"); ("new_n_ref", CInt 1)]])
            table ["c1"; "c2"] [2; 0; 0]%Z [2; 2; 2]%Z _ _ _ Hrun)).
  - apply NoDup_cons. split; [|apply NoDup_singleton].
    intros Hin%list_elem_of_singleton. discriminate Hin.
  - vm_compute. apply NoDup_cons. split; [|apply NoDup_singleton].
    intros Hin%list_elem_of_singleton. discriminate Hin.
  - intros k Hk. vm_compute in Hk.
    apply elem_of_cons in Hk as [->|Hk]; [exists "c2"; split; [by right; left|done]|].
    apply list_elem_of_singleton in Hk as ->. exists "c1". split; [by left|done].
Defined.
